(** * DoJobber: a shallow embedding of the scheduling engine

    The development follows [dojobber/dojobber.py].  Python dictionaries
    whose iteration order the code relies on are insertion-ordered
    association lists ([odict]); dictionaries that are only looked up are
    [gmap]s.  The graph library (python-graph, imported as [pygraph]) is not
    part of the repository: the few operations the engine calls are modelled
    in [Module pygraph] after the library's behaviour.

    The first half of the file holds the definitions, the second half the
    lemmas and the theorems about them. *)

From stdpp Require Import gmap strings list fin_maps.
From Stdlib Require Import ZArith Lia.

(** ** Insertion-ordered dictionaries *)

Module odict.
Section defs.
Context {V : Type}.

Fixpoint get (k : string) (d : list (string * V)) : option V :=
  match d with
  | [] => None
  | (k', v) :: r => if decide (k = k') then Some v else get k r
  end.

Fixpoint set (k : string) (v : V) (d : list (string * V)) : list (string * V) :=
  match d with
  | [] => [(k, v)]
  | (k', v') :: r =>
      if decide (k = k') then (k', v) :: r else (k', v') :: set k v r
  end.

Definition keys (d : list (string * V)) : list string := map fst d.

Definition mem (k : string) (d : list (string * V)) : bool :=
  bool_decide (is_Some (get k d)).

End defs.
End odict.

(** ** The graph library, as far as the engine uses it *)

Module pygraph.


(** [digraph()]: [node_neighbors] keeps the successor list of every node in
    insertion order, [node_attr] the attribute list of every node. *)
Record digraph := {
  node_neighbors : list (string * list string);
  node_attr : gmap string (list (string * string))
}.

Definition empty : digraph :=
  {| node_neighbors := []; node_attr := ∅ |}.

Definition nodes (g : digraph) : list string := odict.keys (node_neighbors g).

Definition has_node (g : digraph) (n : string) : bool :=
  odict.mem n (node_neighbors g).

(** [graph[node]]; the library raises [KeyError] on an unknown node, which
    [depth_first_search] below checks for the root (successors of a node are
    nodes, see [add_edge]). *)
Definition neighbors (g : digraph) (n : string) : list string :=
  default [] (odict.get n (node_neighbors g)).

(** [add_node]: refuses a node that is already there ([AdditionError]). *)
Definition add_node (n : string) (g : digraph) : option digraph :=
  if has_node g n then None
  else Some {| node_neighbors := odict.set n [] (node_neighbors g);
               node_attr := <[n := []]> (node_attr g) |}.

(** [add_edge((u, v))]: both ends must be nodes and the edge must be new,
    otherwise [AdditionError]. *)
Definition add_edge (u v : string) (g : digraph) : option digraph :=
  if negb (has_node g u && has_node g v) then None
  else if bool_decide (v ∈ neighbors g u) then None
  else Some {| node_neighbors := odict.set u (neighbors g u ++ [v]) (node_neighbors g);
               node_attr := node_attr g |}.

(** [add_node_attribute(node, attr)] appends to the node's attribute list. *)
Definition add_node_attribute (n : string) (attr : string * string)
    (g : digraph) : digraph :=
  {| node_neighbors := node_neighbors g;
     node_attr := <[n := default [] (node_attr g !! n) ++ [attr]]> (node_attr g) |}.

(** The inner [dfs] of [depth_first_search]: [vp] is the pair of the
    visited nodes and the postordering built so far.  The library raises
    the recursion limit to twice the number of nodes, so the depth of the
    recursion is never the limit; [fuel] bounds it here. *)
Fixpoint dfs (fuel : nat) (g : digraph) (node : string)
    (vp : list string * list string) : list string * list string :=
  match fuel with
  | O => vp
  | S f =>
      let vp1 :=
        fold_left (λ acc each,
                     if bool_decide (each ∈ acc.1) then acc
                     else dfs f g each acc)
                  (neighbors g node) (node :: vp.1, vp.2) in
      (vp1.1, vp1.2 ++ [node])
  end.

(** [depth_first_search(graph, root=node)], third component (the
    postordering); [None] is the [KeyError] of an unknown root. *)
Definition depth_first_search (g : digraph) (root : string)
    : option (list string) :=
  if has_node g root
  then Some (dfs (length (nodes g)) g root ([], [])).2
  else None.

(** [find_cycle_to_ancestor(node, ancestor)]: the spanning-tree ancestors
    of [node] are the nodes whose [dfs] call is still open, [stack] (the
    node itself first); the result is the tree path from the ancestor down
    to the node, or the empty list when [ancestor] is not among them. *)
Fixpoint path_to_ancestor (stack : list string) (ancestor : string)
    (path : list string) : list string :=
  match stack with
  | [] => []
  | n :: up =>
      if decide (n = ancestor) then ancestor :: path
      else path_to_ancestor up ancestor (n :: path)
  end.

Definition find_cycle_to_ancestor (stack : list string) (ancestor : string)
    : list string := path_to_ancestor stack ancestor [].

(** The inner [dfs] of [cycles.find_cycle] on a digraph: [vc] is the pair
    of the visited nodes and the cycle found so far (empty: none yet). *)
Fixpoint cycle_dfs (fuel : nat) (g : digraph) (node : string)
    (stack : list string) (vc : list string * list string)
    : list string * list string :=
  match fuel with
  | O => vc
  | S f =>
      fold_left (λ acc each,
                   match acc.2 with
                   | _ :: _ => acc
                   | [] =>
                       if bool_decide (each ∈ acc.1)
                       then (acc.1, find_cycle_to_ancestor (node :: stack) each)
                       else cycle_dfs f g each (node :: stack) acc
                   end)
                (neighbors g node) (node :: vc.1, vc.2)
  end.

(** The outer loop of [find_cycle]: every node not yet visited starts a
    search; the first cycle found is returned, [[]] when there is none. *)
Fixpoint find_cycle_from (g : digraph) (todo : list string)
    (visited : list string) : list string :=
  match todo with
  | [] => []
  | each :: rest =>
      if bool_decide (each ∈ visited) then find_cycle_from g rest visited
      else
        let vc := cycle_dfs (length (nodes g)) g each [] (visited, []) in
        match vc.2 with
        | _ :: _ => vc.2
        | [] => find_cycle_from g rest vc.1
        end
  end.

Definition find_cycle (g : digraph) : list string :=
  find_cycle_from g (nodes g) [].

End pygraph.

(** ** Jobs *)

Section Engine.

(** [W] is whatever the job bodies act on (files, services, the storage
    dictionaries the engine hands to an instance); [Val] the results a
    [Check] or [Run] returns, [Exc] the exceptions (derived from
    [Exception]) a job body raises. *)
Context {W Val Exc : Type}.

(** What the engine reads of the outside: the clock of [time.time()], which
    [time.sleep] and the job bodies advance, and the jobs' world. *)
Record Env := {
  clock : Z;
  world : W
}.

Definition sleep (secs : Z) (e : Env) : Env :=
  {| clock := (clock e + secs)%Z; world := world e |}.

(** The attributes [Job.__init__] sets on an instance ([storage] and
    [global_storage] live in the world).  [job_id] is the identity of the
    instance: its rank in creation order among the instances that ran. *)
Record Job := {
  job_id : nat;
  job_type : string;
  _check_phase : option string;
  _check_results : option Val;
  _check_exception : option Exc;
  _run_results : option Val;
  _run_exception : option Exc;
  _recheck_results : option Val;
  _recheck_exception : option Exc
}.

Definition new_job (id : nat) (type : string) : Job :=
  {| job_id := id; job_type := type; _check_phase := None;
     _check_results := None; _check_exception := None;
     _run_results := None; _run_exception := None;
     _recheck_results := None; _recheck_exception := None |}.

Definition set_check_phase (ph : string) (o : Job) : Job :=
  {| job_id := job_id o; job_type := job_type o; _check_phase := Some ph;
     _check_results := _check_results o; _check_exception := _check_exception o;
     _run_results := _run_results o; _run_exception := _run_exception o;
     _recheck_results := _recheck_results o;
     _recheck_exception := _recheck_exception o |}.

Definition set_check_results (v : Val) (o : Job) : Job :=
  {| job_id := job_id o; job_type := job_type o; _check_phase := _check_phase o;
     _check_results := Some v; _check_exception := _check_exception o;
     _run_results := _run_results o; _run_exception := _run_exception o;
     _recheck_results := _recheck_results o;
     _recheck_exception := _recheck_exception o |}.

Definition set_check_exception (err : Exc) (o : Job) : Job :=
  {| job_id := job_id o; job_type := job_type o; _check_phase := _check_phase o;
     _check_results := _check_results o; _check_exception := Some err;
     _run_results := _run_results o; _run_exception := _run_exception o;
     _recheck_results := _recheck_results o;
     _recheck_exception := _recheck_exception o |}.

Definition set_run_results (v : Val) (o : Job) : Job :=
  {| job_id := job_id o; job_type := job_type o; _check_phase := _check_phase o;
     _check_results := _check_results o; _check_exception := _check_exception o;
     _run_results := Some v; _run_exception := _run_exception o;
     _recheck_results := _recheck_results o;
     _recheck_exception := _recheck_exception o |}.

Definition set_run_exception (err : Exc) (o : Job) : Job :=
  {| job_id := job_id o; job_type := job_type o; _check_phase := _check_phase o;
     _check_results := _check_results o; _check_exception := _check_exception o;
     _run_results := _run_results o; _run_exception := Some err;
     _recheck_results := _recheck_results o;
     _recheck_exception := _recheck_exception o |}.

Definition set_recheck_results (v : Val) (o : Job) : Job :=
  {| job_id := job_id o; job_type := job_type o; _check_phase := _check_phase o;
     _check_results := _check_results o; _check_exception := _check_exception o;
     _run_results := _run_results o; _run_exception := _run_exception o;
     _recheck_results := Some v;
     _recheck_exception := _recheck_exception o |}.

Definition set_recheck_exception (err : Exc) (o : Job) : Job :=
  {| job_id := job_id o; job_type := job_type o; _check_phase := _check_phase o;
     _check_results := _check_results o; _check_exception := _check_exception o;
     _run_results := _run_results o; _run_exception := _run_exception o;
     _recheck_results := _recheck_results o;
     _recheck_exception := Some err |}.

(** The outcome of calling a job body: it returns or raises. *)
Inductive outcome :=
| Returns (v : Val)
| Raises (err : Exc).

Definition passed (r : outcome) : bool :=
  match r with Returns _ => true | Raises _ => false end.

(** A job class: its name, the class attributes the engine reads
    ([DEPS] names the classes depended on; [None] is a value that is not
    iterable), its constructor ([None]: constructed, [Some err]: raised) and
    its methods.  [Cleanup] is optional. *)
Record JobClass := {
  __name__ : string;
  DEPS : option (list string);
  TRIES : option Z;
  RETRY_DELAY : option Z;
  __init__ : Env → Env * option Exc;
  Check : Job → Env → Env * outcome;
  Run : Job → Env → Env * outcome;
  Cleanup : option (Job → Env → Env * option Exc)
}.

(** ** The engine's state *)

(** Exceptions the engine stores or lets escape. *)
Inductive exn :=
| KeyError (key : string)
| AttributeError (what : string)
| JobError (err : Exc).

(** One entry of [self._retry]. *)
Record Retry := {
  tries : Z;
  retry_delay : Z;
  nexttry : Z;
  lastphase : Z
}.

(** The attributes of a [DoJobber] (logging apart). *)
Record DoJobber := {
  graph : pygraph.digraph;
  nodestatus : gmap string (option bool);
  nodeexceptions : gmap string exn;
  noderesults : gmap string Val;
  _run_phase : Z;
  _retry : list (string * Retry);
  _default_tries : option Z;
  _default_retry_delay : option Z;
  _root : option JobClass;
  _classmap : list (string * JobClass);
  _cleanup : bool;
  _no_act : bool;
  _deps : list (string * list string);
  _objsrun : list (Job * JobClass)
}.

(** [DoJobber.__init__] *)
Definition new_DoJobber : DoJobber :=
  {| graph := pygraph.empty; nodestatus := ∅; nodeexceptions := ∅;
     noderesults := ∅; _run_phase := 0; _retry := [];
     _default_tries := None; _default_retry_delay := None; _root := None;
     _classmap := []; _cleanup := true; _no_act := false; _deps := [];
     _objsrun := [] |}.

Definition set_graph (g : pygraph.digraph) (d : DoJobber) : DoJobber :=
  {| graph := g; nodestatus := nodestatus d;
     nodeexceptions := nodeexceptions d; noderesults := noderesults d;
     _run_phase := _run_phase d; _retry := _retry d;
     _default_tries := _default_tries d;
     _default_retry_delay := _default_retry_delay d; _root := _root d;
     _classmap := _classmap d; _cleanup := _cleanup d; _no_act := _no_act d;
     _deps := _deps d; _objsrun := _objsrun d |}.

Definition set_nodestatus (m : gmap string (option bool)) (d : DoJobber)
    : DoJobber :=
  {| graph := graph d; nodestatus := m;
     nodeexceptions := nodeexceptions d; noderesults := noderesults d;
     _run_phase := _run_phase d; _retry := _retry d;
     _default_tries := _default_tries d;
     _default_retry_delay := _default_retry_delay d; _root := _root d;
     _classmap := _classmap d; _cleanup := _cleanup d; _no_act := _no_act d;
     _deps := _deps d; _objsrun := _objsrun d |}.

Definition set_nodeexceptions (m : gmap string exn) (d : DoJobber) : DoJobber :=
  {| graph := graph d; nodestatus := nodestatus d;
     nodeexceptions := m; noderesults := noderesults d;
     _run_phase := _run_phase d; _retry := _retry d;
     _default_tries := _default_tries d;
     _default_retry_delay := _default_retry_delay d; _root := _root d;
     _classmap := _classmap d; _cleanup := _cleanup d; _no_act := _no_act d;
     _deps := _deps d; _objsrun := _objsrun d |}.

Definition set_noderesults (m : gmap string Val) (d : DoJobber) : DoJobber :=
  {| graph := graph d; nodestatus := nodestatus d;
     nodeexceptions := nodeexceptions d; noderesults := m;
     _run_phase := _run_phase d; _retry := _retry d;
     _default_tries := _default_tries d;
     _default_retry_delay := _default_retry_delay d; _root := _root d;
     _classmap := _classmap d; _cleanup := _cleanup d; _no_act := _no_act d;
     _deps := _deps d; _objsrun := _objsrun d |}.

Definition set_run_phase (p : Z) (d : DoJobber) : DoJobber :=
  {| graph := graph d; nodestatus := nodestatus d;
     nodeexceptions := nodeexceptions d; noderesults := noderesults d;
     _run_phase := p; _retry := _retry d;
     _default_tries := _default_tries d;
     _default_retry_delay := _default_retry_delay d; _root := _root d;
     _classmap := _classmap d; _cleanup := _cleanup d; _no_act := _no_act d;
     _deps := _deps d; _objsrun := _objsrun d |}.

Definition set_retry (r : list (string * Retry)) (d : DoJobber) : DoJobber :=
  {| graph := graph d; nodestatus := nodestatus d;
     nodeexceptions := nodeexceptions d; noderesults := noderesults d;
     _run_phase := _run_phase d; _retry := r;
     _default_tries := _default_tries d;
     _default_retry_delay := _default_retry_delay d; _root := _root d;
     _classmap := _classmap d; _cleanup := _cleanup d; _no_act := _no_act d;
     _deps := _deps d; _objsrun := _objsrun d |}.

Definition set_classmap (c : list (string * JobClass)) (d : DoJobber)
    : DoJobber :=
  {| graph := graph d; nodestatus := nodestatus d;
     nodeexceptions := nodeexceptions d; noderesults := noderesults d;
     _run_phase := _run_phase d; _retry := _retry d;
     _default_tries := _default_tries d;
     _default_retry_delay := _default_retry_delay d; _root := _root d;
     _classmap := c; _cleanup := _cleanup d; _no_act := _no_act d;
     _deps := _deps d; _objsrun := _objsrun d |}.

Definition set_deps (x : list (string * list string)) (d : DoJobber)
    : DoJobber :=
  {| graph := graph d; nodestatus := nodestatus d;
     nodeexceptions := nodeexceptions d; noderesults := noderesults d;
     _run_phase := _run_phase d; _retry := _retry d;
     _default_tries := _default_tries d;
     _default_retry_delay := _default_retry_delay d; _root := _root d;
     _classmap := _classmap d; _cleanup := _cleanup d; _no_act := _no_act d;
     _deps := x; _objsrun := _objsrun d |}.

Definition set_objsrun (l : list (Job * JobClass)) (d : DoJobber) : DoJobber :=
  {| graph := graph d; nodestatus := nodestatus d;
     nodeexceptions := nodeexceptions d; noderesults := noderesults d;
     _run_phase := _run_phase d; _retry := _retry d;
     _default_tries := _default_tries d;
     _default_retry_delay := _default_retry_delay d; _root := _root d;
     _classmap := _classmap d; _cleanup := _cleanup d; _no_act := _no_act d;
     _deps := _deps d; _objsrun := l |}.

(** The calls the engine makes into job code, in the order it makes them.
    The engine keeps no such list: it is the history the theorems speak
    about.  [EvAttempt] marks the point where the retry bookkeeping of a node
    is done and its job is about to be constructed; it carries the phase and
    the status dictionary of that moment. *)
Inductive Event :=
| EvAttempt (nodename : string) (phase : Z) (seen : gmap string (option bool))
| EvInit (nodename : string) (ok : bool)
| EvCheck (nodename : string) (phase : string) (ok : bool)
| EvRun (nodename : string) (ok : bool)
| EvCleanup (id : nat) (type : string) (ok : bool).

(** The engine together with the outside and the history of calls. *)
Record State := {
  dj : DoJobber;
  env : Env;
  calls : list Event
}.

Definition upd_dj (f : DoJobber → DoJobber) (s : State) : State :=
  {| dj := f (dj s); env := env s; calls := calls s |}.

Definition set_env (e : Env) (s : State) : State :=
  {| dj := dj s; env := e; calls := calls s |}.

Definition log (ev : Event) (s : State) : State :=
  {| dj := dj s; env := env s; calls := calls s ++ [ev] |}.

(** How a call of the engine ends: it returns, an exception escapes, or the
    bound on the depth of the model's recursion was reached. *)
Inductive Flag :=
| Normal
| Raise (e : exn)
| OutOfFuel.

(** ** Status bookkeeping *)

(** [_node_failed] *)
Definition _node_failed (nodename : string) (err : exn) (d : DoJobber)
    : DoJobber :=
  let g := pygraph.add_node_attribute nodename ("style", "filled") (graph d) in
  let g := pygraph.add_node_attribute nodename ("color", "red") g in
  let d := set_graph g d in
  let d := set_nodestatus (<[nodename := Some false]> (nodestatus d)) d in
  set_nodeexceptions (<[nodename := err]> (nodeexceptions d)) d.

(** [_node_succeeded] *)
Definition _node_succeeded (nodename : string) (results : Val) (d : DoJobber)
    : DoJobber :=
  let d := set_nodestatus (<[nodename := Some true]> (nodestatus d)) d in
  let g := pygraph.add_node_attribute nodename ("style", "filled") (graph d) in
  let g := pygraph.add_node_attribute nodename ("color", "green") g in
  let d := set_graph g d in
  set_noderesults (<[nodename := results]> (noderesults d)) d.

(** [_node_eventually_succeeded] *)
Definition _node_eventually_succeeded (nodename : string) (results : Val)
    (d : DoJobber) : DoJobber :=
  let d := set_nodestatus (<[nodename := Some true]> (nodestatus d)) d in
  let g := pygraph.add_node_attribute nodename ("style", "filled") (graph d) in
  let g := pygraph.add_node_attribute nodename ("color", "darkgreen") g in
  let d := set_graph g d in
  set_noderesults (<[nodename := results]> (noderesults d)) d.

(** [_node_untested] *)
Definition _node_untested (nodename : string) (d : DoJobber) : DoJobber :=
  set_nodestatus (<[nodename := None]> (nodestatus d)) d.

(** The truth value of [self.nodestatus.get(node)]. *)
Definition status_true (d : DoJobber) (n : string) : bool :=
  match nodestatus d !! n with
  | Some (Some true) => true
  | _ => false
  end.

(** The colour the graph export shows for a node: the last [color]
    attribute added to it. *)
Definition node_color (d : DoJobber) (n : string) : option string :=
  snd <$> last (filter (λ a, a.1 = "color")
                       (default [] (pygraph.node_attr (graph d) !! n))).

(** The four statuses of the specification, as the engine records them: the
    status dictionary tells success from failure from untested, the colour
    tells a first-try success from a success after [Run]. *)
Inductive Status :=
| untested
| succeeded
| eventually_succeeded
| failed.

Definition status_of (d : DoJobber) (n : string) : Status :=
  match nodestatus d !! n with
  | Some (Some true) =>
      if decide (node_color d n = Some "darkgreen")
      then eventually_succeeded else succeeded
  | Some (Some false) => failed
  | _ => untested
  end.

(** [partial_success], [success] and [failure], as truth values. *)
Definition partial_success (d : DoJobber) : bool :=
  bool_decide (nodestatus d ≠ ∅) &&
  bool_decide (map_Exists (λ _ v, v = Some true) (nodestatus d)).

Definition success (d : DoJobber) : bool :=
  bool_decide (nodestatus d ≠ ∅) &&
  bool_decide (map_Forall (λ _ v, v = Some true) (nodestatus d)).

Definition failure (d : DoJobber) : bool := negb (success d).

(** ** The Cleanup pass *)

(** The loop of [cleanup] over [reversed(self._objsrun)]. *)
Fixpoint cleanup_loop (objs : list (Job * JobClass)) (s : State)
    : State * Flag :=
  match objs with
  | [] => (s, Normal)
  | (obj, cls) :: rest =>
      match Cleanup cls with
      | None => cleanup_loop rest s
      | Some body =>
          let '(e1, r) := body obj (env s) in
          let s1 := set_env e1 s in
          match r with
          | None =>
              cleanup_loop rest (log (EvCleanup (job_id obj) (job_type obj) true) s1)
          | Some err =>
              (log (EvCleanup (job_id obj) (job_type obj) false) s1,
               Raise (JobError err))
          end
      end
  end.

Definition cleanup (s : State) : State * Flag :=
  cleanup_loop (reverse (_objsrun (dj s))) s.

(** ** One attempt of a node: construct, check, run, recheck *)

(** [self._objsrun.append(obj)].  The list holds the instance itself, so the
    attributes the engine assigns to it during the attempt are seen through
    the list; no job body reads the list, and the entry is written here with
    the attributes the instance has when the attempt ends. *)
Definition ran (obj : Job) (cls : JobClass) (d : DoJobber) : DoJobber :=
  set_objsrun (_objsrun d ++ [(obj, cls)]) d.

(** The [check / run / check] part of [_checknrun], for an instance that
    was constructed. *)
Definition check_run_check (nodename : string) (cls : JobClass) (obj : Job)
    (s : State) : State :=
  let obj := set_check_phase "check" obj in
  let '(e1, r1) := Check cls obj (env s) in
  let s := log (EvCheck nodename "check" (passed r1)) (set_env e1 s) in
  match r1 with
  | Returns v =>
      let obj := set_check_results v obj in
      upd_dj (λ d, _node_succeeded nodename v (ran obj cls d)) s
  | Raises err =>
      let obj := set_check_exception err obj in
      if _no_act (dj s)
      then upd_dj (λ d, _node_failed nodename (JobError err) (ran obj cls d)) s
      else
        let '(e2, r2) := Run cls obj (env s) in
        let s := log (EvRun nodename (passed r2)) (set_env e2 s) in
        let obj := match r2 with
                   | Returns v => set_run_results v obj
                   | Raises err2 => set_run_exception err2 obj
                   end in
        let obj := set_check_phase "recheck" obj in
        let '(e3, r3) := Check cls obj (env s) in
        let s := log (EvCheck nodename "recheck" (passed r3)) (set_env e3 s) in
        match r3 with
        | Returns v =>
            let obj := set_recheck_results v obj in
            upd_dj (λ d, _node_eventually_succeeded nodename v (ran obj cls d)) s
        | Raises err3 =>
            let obj := set_recheck_exception err3 obj in
            upd_dj (λ d, _node_failed nodename (JobError err3) (ran obj cls d)) s
        end
  end.

(** From [obj = self._classmap[nodename]()] to the end of [_checknrun]. *)
Definition run_job (nodename : string) (s : State) : State :=
  match odict.get nodename (_classmap (dj s)) with
  | None => upd_dj (_node_failed nodename (KeyError nodename)) s
  | Some cls =>
      let '(e1, r) := __init__ cls (env s) in
      match r with
      | Some err =>
          upd_dj (_node_failed nodename (JobError err))
                 (log (EvInit nodename false) (set_env e1 s))
      | None =>
          let obj := new_job (length (_objsrun (dj s))) (__name__ cls) in
          check_run_check nodename cls obj
            (log (EvInit nodename true) (set_env e1 s))
      end
  end.

(** The retry bookkeeping of a permitted attempt: wait for [nexttry], then
    set [nexttry], [lastphase] and [tries]. *)
Definition wait_for (r : Retry) (e : Env) : Env :=
  let sleeptime := (nexttry r - clock e)%Z in
  if (0 <? sleeptime)%Z then sleep sleeptime e else e.

Definition charge (phase : Z) (now : Z) (r : Retry) : Retry :=
  {| tries := (tries r - 1)%Z; retry_delay := retry_delay r;
     nexttry := (now + retry_delay r)%Z; lastphase := phase |}.

(** The [if not blocked:] part of [_checknrun]. *)
Definition attempt (nodename : string) (s : State) : State * Flag :=
  match odict.get nodename (_retry (dj s)) with
  | None => (s, Raise (KeyError nodename))
  | Some r =>
      if negb (lastphase r <? _run_phase (dj s))%Z then (s, Normal)
      else if (tries r =? 0)%Z then (s, Normal)
      else
        let e1 := wait_for r (env s) in
        let r1 := charge (_run_phase (dj s)) (clock e1) r in
        let s1 := upd_dj (λ d, set_retry (odict.set nodename r1 (_retry d)) d)
                         (set_env e1 s) in
        let s2 := log (EvAttempt nodename (_run_phase (dj s1))
                                 (nodestatus (dj s1))) s1 in
        (run_job nodename s2, Normal)
  end.

(** ** The depth-first pass *)

(** The loop [for depnode in post] of [_checknrun]; [rec] is the recursive
    call.  The result carries [blocked]. *)
Fixpoint deps_loop (rec : string → State → State * Flag) (nodename : string)
    (post : list string) (blocked : bool) (s : State)
    : State * Flag * bool :=
  match post with
  | [] => (s, Normal, blocked)
  | depnode :: rest =>
      if decide (depnode = nodename) then deps_loop rec nodename rest blocked s
      else
        let '(s1, fl) :=
          if status_true (dj s) depnode then (s, Normal) else rec depnode s in
        match fl with
        | Normal =>
            deps_loop rec nodename rest
              (blocked || negb (status_true (dj s1) depnode)) s1
        | _ => (s1, fl, blocked)
        end
  end.

(** [if nodename not in self.nodestatus: self._node_untested(nodename)] *)
Definition mark_untested (nodename : string) (d : DoJobber) : DoJobber :=
  match nodestatus d !! nodename with
  | Some _ => d
  | None => _node_untested nodename d
  end.

(** [_checknrun(nodename)] for a node given by name; [fuel] bounds the
    depth of the recursion. *)
Fixpoint _checknrun_at (fuel : nat) (nodename : string) (s : State)
    : State * Flag :=
  match fuel with
  | O => (s, OutOfFuel)
  | S f =>
      match pygraph.depth_first_search (graph (dj s)) nodename with
      | None => (s, Raise (KeyError nodename))
      | Some post =>
          let '(s1, fl, blocked) :=
            deps_loop (_checknrun_at f) nodename post false s in
          match fl with
          | Normal =>
              let s2 := upd_dj (mark_untested nodename) s1 in
              if blocked then (s2, Normal) else attempt nodename s2
          | _ => (s1, fl)
          end
      end
  end.

(** [if not node: node = self._root]: the root is taken when no node is
    given and when the node given is falsy, which for a name is the empty
    string. *)
Definition given (node : option string) : option string :=
  match node with
  | Some nodename => if decide (nodename = "") then None else Some nodename
  | None => None
  end.

(** [_checknrun(node)] *)
Definition _checknrun (fuel : nat) (node : option string) (s : State)
    : State * Flag :=
  match given node with
  | Some nodename => _checknrun_at fuel nodename s
  | None =>
      match _root (dj s) with
      | Some root => _checknrun_at fuel (__name__ root) s
      | None => (s, Raise (AttributeError "__name__"))
      end
  end.

(** ** The convergence loop *)

(** The list [retriable] of [checknrun]: [inl x] is the [KeyError] of
    [self.nodestatus[x]]. *)
Fixpoint retriable_of (status : gmap string (option bool))
    (retry : list (string * Retry)) : string + list string :=
  match retry with
  | [] => inr []
  | (x, r) :: rest =>
      match status !! x with
      | None => inl x
      | Some v =>
          match retriable_of status rest with
          | inl k => inl k
          | inr xs =>
              inr (if bool_decide (v = Some false) && (0 <? tries r)%Z
                   then x :: xs else xs)
          end
      end
  end.

Definition retriable (d : DoJobber) : string + list string :=
  retriable_of (nodestatus d) (_retry d).

(** The depth the recursion of [_checknrun] can reach on the graph. *)
Definition depth_bound (d : DoJobber) : nat :=
  S (length (pygraph.nodes (graph d))).

(** The [while True] loop of [checknrun]; [fuel] bounds the number of
    passes, and the result carries [trynum]. *)
Fixpoint checknrun_loop (fuel : nat) (node : option string) (trynum : nat)
    (s : State) : State * Flag * nat :=
  match fuel with
  | O => (s, OutOfFuel, trynum)
  | S f =>
      let '(s1, fl) := _checknrun (depth_bound (dj s)) node s in
      match fl with
      | Normal =>
          if success (dj s1) then (s1, Normal, trynum)
          else
            let s2 := upd_dj (λ d, set_run_phase (_run_phase d + 1)%Z d) s1 in
            match retriable (dj s2) with
            | inl x => (s2, Raise (KeyError x), trynum)
            | inr [] => (s2, Normal, trynum)
            | inr (_ :: _) =>
                if _no_act (dj s2) then (s2, Normal, trynum)
                else checknrun_loop f node (S trynum) s2
            end
      | _ => (s1, fl, trynum)
      end
  end.

(** What [checknrun] does before the loop. *)
Definition begin_run (s : State) : State :=
  upd_dj (set_nodestatus ∅) s.

(** [checknrun(node)] *)
Definition checknrun (fuel : nat) (node : option string) (s : State)
    : State * Flag :=
  let '(s1, fl, _) := checknrun_loop fuel node 0 (begin_run s) in
  match fl with
  | Normal => if _cleanup (dj s1) then cleanup s1 else (s1, Normal)
  | _ => (s1, fl)
  end.

(** ** Configuration *)

(** The errors [configure] ends with.  The first four are raised by the
    engine itself ([RuntimeError] for a negative [RETRY_DELAY], for [TRIES]
    below one and for a cyclic graph, the [TypeError] of [iter(deps)]);
    [AdditionError] is the graph library refusing a node or an edge it
    already has; [OtherError] stands for the interpreter's own errors on
    states [configure] does not produce. *)
Inductive ConfigError :=
| NegativeRetryDelay (delay : Z)
| TriesBelowOne (tries : Z)
| DepsNotIterable (classname : string)
| GraphCycle (cycle : list string)
| AdditionError (u v : string)
| OtherError (kind detail : string).

Inductive Configured :=
| CfgOk
| CfgError (e : ConfigError)
| CfgOutOfFuel.

(** The classes of the program, by which the names in [DEPS] are resolved. *)
Variable classes : list JobClass.

Fixpoint class_named (name : string) (cs : list JobClass) : option JobClass :=
  match cs with
  | [] => None
  | c :: rest => if decide (__name__ c = name) then Some c else class_named name rest
  end.

Definition find_class (name : string) : option JobClass :=
  class_named name classes.

(** [getattr(theclass, 'TRIES') if ... is not None else self._default_tries]
    and the same for [RETRY_DELAY]. *)
Definition resolved (own default : option Z) : option Z :=
  match own with
  | Some v => Some v
  | None => default
  end.

(** The loop [for dep in deps: self._init_deps(dep)]; [rec] is the
    recursive call. *)
Fixpoint init_deps_loop (rec : JobClass → DoJobber → DoJobber * Configured)
    (deps : list string) (d : DoJobber) : DoJobber * Configured :=
  match deps with
  | [] => (d, CfgOk)
  | dep :: rest =>
      match find_class dep with
      | None => (d, CfgError (OtherError "NameError" dep))
      | Some c =>
          let '(d1, r) := rec c d in
          match r with
          | CfgOk => init_deps_loop rec rest d1
          | _ => (d1, r)
          end
      end
  end.

(** [_init_deps(theclass)]; [now] is [time.time()], [fuel] bounds the depth
    of the recursion. *)
Fixpoint _init_deps (fuel : nat) (now : Z) (theclass : JobClass)
    (d : DoJobber) : DoJobber * Configured :=
  match fuel with
  | O => (d, CfgOutOfFuel)
  | S f =>
      let classname := __name__ theclass in
      if odict.mem classname (_classmap d) then (d, CfgOk)
      else
        let d := set_classmap (odict.set classname theclass (_classmap d)) d in
        match pygraph.add_node classname (graph d) with
        | None => (d, CfgError (AdditionError classname classname))
        | Some g =>
            let d := set_graph g d in
            match resolved (RETRY_DELAY theclass) (_default_retry_delay d),
                  resolved (TRIES theclass) (_default_tries d) with
            | Some delay, Some tries_ =>
                if (delay <? 0)%Z then (d, CfgError (NegativeRetryDelay delay))
                else if (tries_ <? 1)%Z then (d, CfgError (TriesBelowOne tries_))
                else
                  let d :=
                    set_retry
                      (odict.set classname
                         {| tries := tries_; retry_delay := delay;
                            nexttry := now; lastphase := (-1)%Z |}
                         (_retry d)) d in
                  match DEPS theclass with
                  | None => (d, CfgError (DepsNotIterable classname))
                  | Some deps =>
                      let '(d1, r) := init_deps_loop (_init_deps f now) deps d in
                      match r with
                      | CfgOk =>
                          (set_deps (odict.set classname deps (_deps d1)) d1, CfgOk)
                      | _ => (d1, r)
                      end
                  end
            | _, _ => (d, CfgError (OtherError "TypeError" classname))
            end
        end
  end.

(** The edges of one class in [_init_graph]: the graph as the loop leaves
    it, and the error of the edge the library refused, if any. *)
Fixpoint add_edges (classname : string) (deps : list string)
    (g : pygraph.digraph) : pygraph.digraph * option ConfigError :=
  match deps with
  | [] => (g, None)
  | dep :: rest =>
      match pygraph.add_edge classname dep g with
      | None => (g, Some (AdditionError classname dep))
      | Some g1 => add_edges classname rest g1
      end
  end.

(** The loop [for classname in self._classmap] of [_init_graph]. *)
Fixpoint init_graph_loop (deps : list (string * list string))
    (names : list string) (g : pygraph.digraph)
    : pygraph.digraph * option ConfigError :=
  match names with
  | [] => (g, None)
  | classname :: rest =>
      match odict.get classname deps with
      | None => (g, Some (OtherError "KeyError" classname))
      | Some ds =>
          match add_edges classname ds g with
          | (g1, None) => init_graph_loop deps rest g1
          | (g1, Some e) => (g1, Some e)
          end
      end
  end.

(** [_init_graph]: the edges added before an error stay in the graph. *)
Definition _init_graph (d : DoJobber) : DoJobber * Configured :=
  match init_graph_loop (_deps d) (odict.keys (_classmap d)) (graph d) with
  | (g, Some e) => (set_graph g d, CfgError e)
  | (g, None) =>
      let d := set_graph g d in
      match pygraph.find_cycle g with
      | [] => (d, CfgOk)
      | c :: cs => (d, CfgError (GraphCycle (c :: cs)))
      end
  end.

(** [_load_class] *)
Definition _load_class (now : Z) (d : DoJobber) : DoJobber * Configured :=
  match _root d with
  | None => (d, CfgError (OtherError "AttributeError" "__name__"))
  | Some root =>
      let '(d1, r) := _init_deps (S (length classes)) now root d in
      match r with
      | CfgOk => _init_graph d1
      | _ => (d1, r)
      end
  end.

(** [configure(root, no_act, verbose, debug, cleanup, default_tries,
    default_retry_delay)]; the two logging switches are left out. *)
Definition configure (now : Z) (root : JobClass) (no_act cleanup_ : bool)
    (default_tries default_retry_delay : Z) (d : DoJobber)
    : DoJobber * Configured :=
  _load_class now
    {| graph := graph d; nodestatus := nodestatus d;
       nodeexceptions := nodeexceptions d; noderesults := noderesults d;
       _run_phase := _run_phase d; _retry := _retry d;
       _default_tries := Some default_tries;
       _default_retry_delay := Some default_retry_delay;
       _root := Some root;
       _classmap := _classmap d; _cleanup := cleanup_; _no_act := no_act;
       _deps := _deps d; _objsrun := _objsrun d |}.

End Engine.

(** ** Vocabulary of the statements *)

Section Vocabulary.
Context {W Val Exc : Type}.

(** The calls made between two states of one execution. *)
Definition since (s s' : @State W Val Exc) : list Event :=
  drop (length (calls s)) (calls s').

(** An instance whose type defines a callable [Cleanup]. *)
Definition has_cleanup (oc : @Job Val Exc * @JobClass W Val Exc) : Prop :=
  is_Some (Cleanup oc.2).

#[global] Instance has_cleanup_dec
    (oc : @Job Val Exc * @JobClass W Val Exc) : Decision (has_cleanup oc).
Proof. unfold has_cleanup. apply _. Defined.

Definition cleanup_event (ok : bool)
    (oc : @Job Val Exc * @JobClass W Val Exc) : Event :=
  EvCleanup (job_id oc.1) (job_type oc.1) ok.

(** What a run never changes, or only extends. *)
Record frame (s s' : @State W Val Exc) : Prop := {
  fr_neighbors :
    pygraph.node_neighbors (graph (dj s'))
    = pygraph.node_neighbors (graph (dj s));
  fr_classmap : _classmap (dj s') = _classmap (dj s);
  fr_no_act : _no_act (dj s') = _no_act (dj s);
  fr_cleanup : _cleanup (dj s') = _cleanup (dj s);
  fr_root : _root (dj s') = _root (dj s);
  fr_deps : _deps (dj s') = _deps (dj s);
  fr_default_tries : _default_tries (dj s') = _default_tries (dj s);
  fr_default_retry_delay :
    _default_retry_delay (dj s') = _default_retry_delay (dj s);
  fr_retry_keys : odict.keys (_retry (dj s')) = odict.keys (_retry (dj s));
  fr_objsrun : ∃ new, _objsrun (dj s') = _objsrun (dj s) ++ new;
  fr_calls : ∃ evs, calls s' = calls s ++ evs;
  fr_results :
    ∀ n, is_Some (noderesults (dj s) !! n) → is_Some (noderesults (dj s') !! n);
  fr_exceptions :
    ∀ n, is_Some (nodeexceptions (dj s) !! n)
         → is_Some (nodeexceptions (dj s') !! n)
}.

(** The state in which the job of a permitted attempt is constructed: the
    wait is over, the retry record is charged and the attempt is on the
    history. *)
Definition charged (nodename : string) (r : Retry) (s : @State W Val Exc)
    : @State W Val Exc :=
  let e1 := wait_for r (env s) in
  let r1 := charge (_run_phase (dj s)) (clock e1) r in
  let s1 := upd_dj (λ d, set_retry (odict.set nodename r1 (_retry d)) d)
                   (set_env e1 s) in
  log (EvAttempt nodename (_run_phase (dj s1)) (nodestatus (dj s1))) s1.

(** The calls a run in no-act mode may make, in the phase it starts in. *)
Definition no_act_event (phase : Z) (ev : Event) : Prop :=
  match ev with
  | EvRun _ _ => False
  | EvCheck _ ph _ => ph = "check"
  | EvAttempt _ p _ => p = phase
  | _ => True
  end.

(** Counting the attempts of a node on a history: all of them, and those of
    one phase. *)
Definition is_attempt_of (n : string) (ev : Event) : bool :=
  match ev with
  | EvAttempt m _ _ => bool_decide (m = n)
  | _ => false
  end.

Definition is_attempt_at (n : string) (p : Z) (ev : Event) : bool :=
  match ev with
  | EvAttempt m q _ => bool_decide (m = n) && bool_decide (q = p)
  | _ => false
  end.

Definition attempts_of (n : string) (evs : list Event) : nat :=
  length (List.filter (is_attempt_of n) evs).

Definition attempts_at (n : string) (p : Z) (evs : list Event) : nat :=
  length (List.filter (is_attempt_at n p) evs).

(** The resolved max-tries of a node: its class's [TRIES], or the default
    of the configuration. *)
Definition max_tries (d : @DoJobber W Val Exc) (n : string) : option Z :=
  match odict.get n (_classmap d) with
  | Some cls => resolved (TRIES cls) (_default_tries d)
  | None => None
  end.

(** Every retry record holds between zero and the resolved max-tries of
    its node. *)
Definition retry_sane (d : @DoJobber W Val Exc) : bool :=
  forallb (λ nr : string * Retry,
             match max_tries d nr.1 with
             | Some t => (0 <=? tries nr.2)%Z && (tries nr.2 <=? t)%Z
             | None => false
             end) (_retry d).

(** The dependency relation of a graph and what it reaches. *)
Definition edge (g : pygraph.digraph) (u v : string) : Prop :=
  v ∈ pygraph.neighbors g u.

Definition reach (g : pygraph.digraph) : string → string → Prop :=
  rtc (edge g).

(** Every successor of a node is a node, as [add_edge] sees to. *)
Definition graph_closed (g : pygraph.digraph) : bool :=
  forallb (λ n, forallb (pygraph.has_node g) (pygraph.neighbors g n))
          (pygraph.nodes g).

(** A graph without cycles: no edge leads to a node that reaches the
    edge's origin. *)
Definition acyclic (g : pygraph.digraph) : Prop :=
  ∀ x y, edge g x y → ¬ reach g y x.

(** The retry record of a node says it was last attempted in phase [p]. *)
Definition lastphase_is (d : @DoJobber W Val Exc) (m : string) (p : Z) : Prop :=
  ∃ r, odict.get m (_retry d) = Some r ∧ lastphase r = p.

(** How the statuses move within one phase: a successful node stays
    successful, and a node that becomes successful was attempted in this
    phase. *)
Record pass_step (s s' : @State W Val Exc) : Prop := {
  ps_phase : _run_phase (dj s') = _run_phase (dj s);
  ps_neighbors :
    pygraph.node_neighbors (graph (dj s'))
    = pygraph.node_neighbors (graph (dj s));
  ps_kept : ∀ m, status_true (dj s) m = true → status_true (dj s') m = true;
  ps_new :
    ∀ m, status_true (dj s') m = true →
         status_true (dj s) m = true ∨
         lastphase_is (dj s') m (_run_phase (dj s));
  ps_last :
    ∀ m, lastphase_is (dj s) m (_run_phase (dj s)) →
         lastphase_is (dj s') m (_run_phase (dj s));
  ps_dom :
    ∀ m, is_Some (nodestatus (dj s) !! m) → is_Some (nodestatus (dj s') !! m)
}.

(** Every attempt on a history was made with all the nodes its node
    depends on, directly or not, successful. *)
Definition attempts_unblocked (g : pygraph.digraph) (evs : list Event) : Prop :=
  ∀ n p seen, EvAttempt n p seen ∈ evs →
    ∀ d, reach g n d → d ≠ n → seen !! d = Some (Some true).

(** A successful node depends only on successful nodes. *)
Definition success_closed (g : pygraph.digraph) (d : @DoJobber W Val Exc)
    : Prop :=
  ∀ n m, status_true d n = true → reach g n m → status_true d m = true.

(** The status dictionary holds only nodes the target of the run reaches. *)
Definition status_within (g : pygraph.digraph) (top : string)
    (d : @DoJobber W Val Exc) : Prop :=
  ∀ n, is_Some (nodestatus d !! n) → reach g top n.

(** The node a run is aimed at: the one given, or the root when none (or
    the empty name) is given. *)
Definition target (d : @DoJobber W Val Exc) (node : option string)
    : option string :=
  match given node with
  | Some n => Some n
  | None => __name__ <$> _root d
  end.

(** A check that the graph has no cycle, by searching from the end of
    every edge for its origin. *)
Definition acyclicb (g : pygraph.digraph) : bool :=
  forallb (λ n,
             forallb (λ m,
                        negb (bool_decide
                                (n ∈ default [] (pygraph.depth_first_search g m))))
                     (pygraph.neighbors g n))
          (pygraph.nodes g).

(** The engine as [configure] leaves it, as far as a run relies on it:
    successors are nodes, there is no cycle, and every node has its retry
    record. *)
Definition engine_ok (d : @DoJobber W Val Exc) : bool :=
  graph_closed (graph d) && acyclicb (graph d) &&
  forallb (λ n, odict.mem n (_retry d)) (pygraph.nodes (graph d)).

(** The number of nodes a node reaches. *)
Definition weight (g : pygraph.digraph) (x : string) : nat :=
  size (list_to_set (default [] (pygraph.depth_first_search g x)) : gset string).

(** The status dictionary only gains keys. *)
Definition dom_le (s s' : @State W Val Exc) : Prop :=
  ∀ m, is_Some (nodestatus (dj s) !! m) → is_Some (nodestatus (dj s') !! m).

(** A state whose graph is [g] up to attributes and in which every node of
    [g] has a retry record. *)
Definition provided (g : pygraph.digraph) (s : @State W Val Exc) : Prop :=
  pygraph.node_neighbors (graph (dj s)) = pygraph.node_neighbors g ∧
  ∀ n, n ∈ pygraph.nodes g → n ∈ odict.keys (_retry (dj s)).

(** A list of nodes each of which has an edge to the next, and a cycle: such
    a list whose last node has an edge to the first. *)
Fixpoint path_in (R : string → string → Prop) (l : list string) : Prop :=
  match l with
  | a :: (b :: _) as tl => R a b ∧ path_in R tl
  | _ => True
  end.

Definition cycle_in (R : string → string → Prop) (c : list string) : Prop :=
  ∃ a z, head c = Some a ∧ last c = Some z ∧ path_in R c ∧ R z a.

(** The stack of the open calls of a search: each node was entered from the
    one below it. *)
Fixpoint chain (g : pygraph.digraph) (l : list string) : Prop :=
  match l with
  | a :: (b :: _) as tl => edge g b a ∧ chain g tl
  | _ => True
  end.

(** The nodes a search has finished (visited and no longer open) have
    edges only to finished nodes, and lie on no cycle. *)
Definition fin_ok (g : pygraph.digraph) (v stack : list string) : Prop :=
  ∀ x, x ∈ v → x ∉ stack →
       ∀ y, edge g x y → y ∈ v ∧ (y ∉ stack) ∧ ¬ reach g y x.

(** *** Configuration *)

(** The dependency relation the classes declare, on class names: the
    entries of [DEPS] of the class of that name. *)
Definition class_deps (classes : list (@JobClass W Val Exc)) (n : string)
    : list string :=
  match find_class classes n with
  | Some c => default [] (DEPS c)
  | None => []
  end.

Definition depends (classes : list (@JobClass W Val Exc)) (a b : string)
    : Prop :=
  b ∈ class_deps classes a.

(** The jobs a root needs: the root and, transitively, the dependencies. *)
Definition needed (classes : list (@JobClass W Val Exc))
    (root : @JobClass W Val Exc) (n : string) : Prop :=
  rtc (depends classes) (__name__ root) n.

(** Every name in a [DEPS] list is the name of a class of the program. *)
Definition program_closed (classes : list (@JobClass W Val Exc)) : bool :=
  forallb (λ c, forallb (λ x, bool_decide (is_Some (find_class classes x)))
                        (default [] (DEPS c)))
          classes.

(** The retry record [_init_deps] writes for a class. *)
Definition fresh_retry (now default_tries default_delay : Z)
    (c : @JobClass W Val Exc) : Retry :=
  {| tries := default default_tries (TRIES c);
     retry_delay := default default_delay (RETRY_DELAY c);
     nexttry := now; lastphase := (-1)%Z |}.

(** What [configure] accepts: every needed job has at least one try, a
    delay that is not negative and a [DEPS] list without a repeated entry,
    and no needed job depends on a job that needs it. *)
Definition class_ok (default_tries default_delay : Z)
    (c : @JobClass W Val Exc) : Prop :=
  (1 ≤ default default_tries (TRIES c))%Z ∧
  (0 ≤ default default_delay (RETRY_DELAY c))%Z ∧
  ∃ deps, DEPS c = Some deps ∧ NoDup deps.

Definition program_ok (classes : list (@JobClass W Val Exc))
    (root : @JobClass W Val Exc) (default_tries default_delay : Z) : Prop :=
  (∀ n c, needed classes root n → find_class classes n = Some c →
          class_ok default_tries default_delay c) ∧
  (∀ n m, needed classes root n → depends classes n m →
          ¬ rtc (depends classes) m n).

(** What is wrong with the program when [configure] ends with an error.
    The checks come in an order: the numbers and the [DEPS] of the classes
    while they are registered, then the edges, then the cycles; the later
    errors say that the earlier checks passed. *)
Definition offending (classes : list (@JobClass W Val Exc))
    (root : @JobClass W Val Exc) (default_tries default_delay : Z)
    (e : ConfigError) : Prop :=
  match e with
  | NegativeRetryDelay delay =>
      ∃ n c, needed classes root n ∧ find_class classes n = Some c ∧
             default default_delay (RETRY_DELAY c) = delay ∧ (delay < 0)%Z
  | TriesBelowOne t =>
      ∃ n c, needed classes root n ∧ find_class classes n = Some c ∧
             default default_tries (TRIES c) = t ∧ (t < 1)%Z
  | DepsNotIterable n =>
      ∃ c, needed classes root n ∧ find_class classes n = Some c ∧
           DEPS c = None
  | GraphCycle cycle =>
      cycle_in (depends classes) cycle ∧
      (∀ x, x ∈ cycle → needed classes root x) ∧
      (∀ n c, needed classes root n → find_class classes n = Some c →
              class_ok default_tries default_delay c)
  | AdditionError u v =>
      needed classes root u ∧
      (∃ pre post, class_deps classes u = pre ++ v :: post ∧
                   NoDup pre ∧ v ∈ pre) ∧
      (∀ n c, needed classes root n → find_class classes n = Some c →
              (1 ≤ default default_tries (TRIES c))%Z ∧
              (0 ≤ default default_delay (RETRY_DELAY c))%Z ∧
              is_Some (DEPS c))
  | OtherError _ _ => False
  end.

(** *** Termination *)







(** *** The instances a run constructs *)



(** *** The three calls of an attempt *)

(** The calls [_checknrun] makes on the instance of [cls] it constructs in
    state [s]: the first [Check], the [Run] that follows a failed first
    [Check], and the [Check] after that [Run].  Each is made on the
    instance as the calls before it left it, in the world the call before
    it left. *)
Definition first_check (cls : @JobClass W Val Exc) (s : @State W Val Exc)
    : Env * outcome :=
  Check cls
    (set_check_phase "check"
       (new_job (length (_objsrun (dj s))) (__name__ cls)))
    (__init__ cls (env s)).1.

Definition checked_job (cls : @JobClass W Val Exc) (s : @State W Val Exc)
    : Job :=
  let obj := set_check_phase "check"
               (new_job (length (_objsrun (dj s))) (__name__ cls)) in
  match (first_check cls s).2 with
  | Returns v => set_check_results v obj
  | Raises err => set_check_exception err obj
  end.

Definition the_run (cls : @JobClass W Val Exc) (s : @State W Val Exc)
    : Env * outcome :=
  Run cls (checked_job cls s) (first_check cls s).1.

Definition recheck (cls : @JobClass W Val Exc) (s : @State W Val Exc)
    : Env * outcome :=
  Check cls
    (set_check_phase "recheck"
       match (the_run cls s).2 with
       | Returns v => set_run_results v (checked_job cls s)
       | Raises err => set_run_exception err (checked_job cls s)
       end)
    (the_run cls s).1.

(** What the engine keeps of an outcome: the result under [noderesults],
    the exception under [nodeexceptions]. *)
Definition recorded (r : @outcome Val Exc) (n : string)
    (d : @DoJobber W Val Exc) : Prop :=
  match r with
  | Returns v => noderesults d !! n = Some v
  | Raises err => nodeexceptions d !! n = Some (JobError err)
  end.

(** *** The failures of configuration *)

(** The failures the specification lists: a needed job whose resolved
    [TRIES] is below one, whose resolved [RETRY_DELAY] is negative or whose
    [DEPS] is not iterable, or a cycle in the dependencies of the needed
    jobs. *)
Definition claimed_failure (classes : list (@JobClass W Val Exc))
    (root : @JobClass W Val Exc) (default_tries default_delay : Z) : Prop :=
  (∃ n c, needed classes root n ∧ find_class classes n = Some c ∧
          ((default default_tries (TRIES c) < 1)%Z ∨
           (default default_delay (RETRY_DELAY c) < 0)%Z ∨
           DEPS c = None)) ∨
  (∃ n m, needed classes root n ∧ depends classes n m ∧
          rtc (depends classes) m n).

(** The failure it does not list: a needed job whose [DEPS] names a job
    twice. *)
Definition repeated_dependency (classes : list (@JobClass W Val Exc))
    (root : @JobClass W Val Exc) : Prop :=
  ∃ n, needed classes root n ∧ ¬ NoDup (class_deps classes n).

End Vocabulary.

(** ** Example programs *)

Module Examples.

(** The world of the examples: the names of the jobs whose goal is reached. *)
Definition World : Type := list string.

Definition reached (name : string) (e : @Env World) : bool :=
  bool_decide (name ∈ world e).

Definition reach_goal (name : string) (e : @Env World) : @Env World :=
  {| clock := (clock e + 1)%Z; world := name :: world e |}.

(** A job whose [Check] passes when [sure] or once its goal is reached, and
    whose [Run] reaches the goal when [works] and raises otherwise. *)
Definition job (name : string) (deps : list string) (t : option Z)
    (sure works : bool) (cleanup_raises : option bool)
    : @JobClass World string string :=
  {| __name__ := name; DEPS := Some deps; TRIES := t; RETRY_DELAY := None;
     __init__ := λ e, (e, None);
     Check := λ _ e,
       (e, if sure || reached name e then Returns "ok" else Raises "not yet");
     Run := λ _ e,
       if works then (reach_goal name e, Returns "done")
       else (e, Raises "cannot");
     Cleanup :=
       match cleanup_raises with
       | None => None
       | Some b => Some (λ _ e, (e, if b then Some "stuck" else None))
       end |}.

(** [DummyJob]: [Check] and [Run] always pass. *)
Definition DummyJob (name : string) (deps : list string)
    : @JobClass World string string :=
  {| __name__ := name; DEPS := Some deps; TRIES := None; RETRY_DELAY := None;
     __init__ := λ e, (e, None);
     Check := λ _ e, (e, Returns "None");
     Run := λ _ e, (e, Returns "None");
     Cleanup := None |}.

(** [RunonlyJob] with a given [Run]: the inherited [Check] fails in the
    [check] phase and afterwards hands on what [Run] did. *)
Definition RunonlyJob (name : string) (deps : list string)
    (run : @Job string string → @Env World → @Env World * @outcome string string)
    : @JobClass World string string :=
  {| __name__ := name; DEPS := Some deps; TRIES := None; RETRY_DELAY := None;
     __init__ := λ e, (e, None);
     Check := λ self e,
       if decide (_check_phase self = Some "check")
       then (e, Raises "Runonly node check intentionally fails first time.")
       else match _run_exception self with
            | Some err => (e, Raises err)
            | None => (e, match _run_results self with
                          | Some v => Returns v
                          | None => Returns "None"
                          end)
            end;
     Run := run;
     Cleanup := None |}.

Definition A := job "A" [] None false true (Some false).
Definition B := job "B" [] None true true (Some false).
Definition R := DummyJob "R" ["A"; "B"].
Definition F := job "F" [] (Some 2%Z) false false (Some false).
Definition R2 := DummyJob "R2" ["A"; "F"].
Definition S1 := job "S1" [] None true true (Some true).
Definition R3 := DummyJob "R3" ["A"; "S1"; "B"].
Definition C1 := DummyJob "C1" ["C2"].
Definition C2 := DummyJob "C2" ["C1"].
Definition D := DummyJob "D" ["A"; "A"].
Definition D3 := DummyJob "D3" ["A"; "B"; "B"].
Definition Z0 := job "Z0" [] (Some 0%Z) true true None.
Definition RZ := DummyJob "RZ" ["A"; "Z0"].

Definition program : list (@JobClass World string string) :=
  [A; B; R; F; R2; S1; R3; C1; C2; D; Z0; RZ; D3].

Definition start : @Env World := {| clock := 100; world := [] |}.

(** [DoJobber().configure(root, no_act=..., cleanup=...)] with the default
    tries and delay of the signature, then the engine ready to run. *)
Definition configured (root : @JobClass World string string)
    (no_act cleanup_ : bool) : @DoJobber World string string * Configured :=
  configure program (clock start) root no_act cleanup_ 3 1 new_DoJobber.

Definition ready (root : @JobClass World string string)
    (no_act cleanup_ : bool) : @State World string string :=
  {| dj := (configured root no_act cleanup_).1; env := start; calls := [] |}.

(** An engine with one [RunonlyJob] whose [Run] reaches its goal. *)
Definition runonly_state : @State World string string :=
  {| dj := set_classmap
             [("X", RunonlyJob "X" []
                      (λ _ e, (reach_goal "X" e, Returns "done")))]
             new_DoJobber;
     env := start; calls := [] |}.

(** An engine with one job whose constructor raises. *)
Definition Broken : @JobClass World string string :=
  {| __name__ := "Broken"; DEPS := Some []; TRIES := None;
     RETRY_DELAY := None;
     __init__ := λ e, (e, Some "no such host");
     Check := λ _ e, (e, Returns "ok");
     Run := λ _ e, (e, Returns "done");
     Cleanup := Some (λ _ e, (e, None)) |}.

Definition broken_state : @State World string string :=
  {| dj := set_classmap [("Broken", Broken)] new_DoJobber;
     env := start; calls := [] |}.

(** An engine that was never configured: no root, an empty graph. *)
Definition unconfigured : @State World string string :=
  {| dj := new_DoJobber; env := start; calls := [] |}.

End Examples.

(** * Lemmas and theorems *)

(** ** Ordered dictionaries *)

Section odict_facts.
Context {V : Type}.
Implicit Types d : list (string * V).

Lemma odict_get_set_eq k v d : odict.get k (odict.set k v d) = Some v.
Proof.
  induction d as [|[k' v'] r IH]; simpl.
  - by rewrite decide_True.
  - destruct (decide (k = k')) as [->|Hne]; simpl.
    + by rewrite decide_True.
    + by rewrite decide_False.
Qed.

Lemma odict_get_set_ne k k' v d :
  k ≠ k' → odict.get k' (odict.set k v d) = odict.get k' d.
Proof.
  intros Hne. induction d as [|[k0 v0] r IH]; simpl.
  - by rewrite decide_False.
  - destruct (decide (k = k0)) as [->|Hne0]; simpl.
    + by rewrite !decide_False.
    + destruct (decide (k' = k0)); [done|apply IH].
Qed.

Lemma odict_get_set k k' v d :
  odict.get k' (odict.set k v d)
  = if decide (k = k') then Some v else odict.get k' d.
Proof.
  destruct (decide (k = k')) as [->|?];
    [apply odict_get_set_eq|by apply odict_get_set_ne].
Qed.

Lemma odict_get_Some_keys k d : is_Some (odict.get k d) ↔ k ∈ odict.keys d.
Proof.
  induction d as [|[k' v'] r IH]; simpl.
  - split; [intros [? ?]; done|intros H; inversion H].
  - destruct (decide (k = k')) as [->|Hne].
    + split; [intros _; left|eauto].
    + rewrite IH. split; [by right|].
      intros H. apply elem_of_cons in H as [?|?]; done.
Qed.

Lemma odict_get_None_keys k d : odict.get k d = None ↔ k ∉ odict.keys d.
Proof. rewrite <- odict_get_Some_keys, eq_None_not_Some. done. Qed.

Lemma odict_keys_set_in k v d :
  k ∈ odict.keys d → odict.keys (odict.set k v d) = odict.keys d.
Proof.
  induction d as [|[k' v'] r IH]; simpl.
  - intros H; inversion H.
  - intros H. destruct (decide (k = k')) as [->|Hne]; simpl; [done|].
    f_equal. apply IH. apply elem_of_cons in H as [?|?]; done.
Qed.

Lemma odict_keys_set_notin k v d :
  k ∉ odict.keys d → odict.keys (odict.set k v d) = odict.keys d ++ [k].
Proof.
  induction d as [|[k' v'] r IH]; simpl; [done|].
  intros H. apply not_elem_of_cons in H as [Hne Hr].
  rewrite decide_False by done. simpl. f_equal. by apply IH.
Qed.

Lemma odict_elem_of_keys_set k k' v d :
  k' ∈ odict.keys (odict.set k v d) ↔ k' = k ∨ k' ∈ odict.keys d.
Proof.
  destruct (decide (k ∈ odict.keys d)) as [Hin|Hnin].
  - rewrite odict_keys_set_in by done. split; [by right|].
    intros [->|?]; done.
  - rewrite odict_keys_set_notin by done.
    rewrite elem_of_app, list_elem_of_singleton. tauto.
Qed.

Lemma odict_mem_true k d : odict.mem k d = true ↔ k ∈ odict.keys d.
Proof.
  unfold odict.mem. rewrite bool_decide_eq_true. apply odict_get_Some_keys.
Qed.

Lemma odict_mem_false k d : odict.mem k d = false ↔ k ∉ odict.keys d.
Proof.
  unfold odict.mem. rewrite bool_decide_eq_false.
  by rewrite odict_get_Some_keys.
Qed.

Lemma odict_keys_set_NoDup k v d :
  NoDup (odict.keys d) → NoDup (odict.keys (odict.set k v d)).
Proof.
  intros Hnd. destruct (decide (k ∈ odict.keys d)) as [Hin|Hnin].
  - by rewrite odict_keys_set_in.
  - rewrite odict_keys_set_notin by done.
    apply NoDup_app. split; [done|]. split.
    + intros x Hx Hk. apply list_elem_of_singleton in Hk as ->. done.
    + apply NoDup_singleton.
Qed.

End odict_facts.

(** ** The Cleanup pass *)

Section CleanupFacts.
Context {W Val Exc : Type}.
Implicit Types s : @State W Val Exc.
Implicit Types objs : list (@Job Val Exc * @JobClass W Val Exc).

Lemma since_app s s' evs : calls s' = calls s ++ evs → since s s' = evs.
Proof. unfold since. intros ->. by rewrite drop_app_length. Qed.

(** What the loop of [cleanup] does on a list of instances: the ones with a
    [Cleanup] are called in the order of the list, up to and including the
    first whose [Cleanup] raises; the engine itself is left as it was. *)
Lemma cleanup_loop_spec objs s :
  ∃ visited skipped,
    filter has_cleanup objs = visited ++ skipped ∧
    dj (cleanup_loop objs s).1 = dj s ∧
    match (cleanup_loop objs s).2 with
    | Normal =>
        skipped = [] ∧
        calls (cleanup_loop objs s).1
        = calls s ++ map (cleanup_event true) visited
    | Raise e =>
        ∃ passed_ bad err,
          visited = passed_ ++ [bad] ∧ e = JobError err ∧
          calls (cleanup_loop objs s).1
          = calls s ++ map (cleanup_event true) passed_
                    ++ [cleanup_event false bad]
    | OutOfFuel => False
    end.
Proof.
  revert s. induction objs as [|[obj cls] rest IH]; intros s.
  - exists [], []. simpl. by rewrite app_nil_r.
  - simpl. destruct (Cleanup cls) as [body|] eqn:Hc.
    + rewrite filter_cons_True by (unfold has_cleanup; simpl; rewrite Hc; eauto).
      destruct (body obj (env s)) as [e1 [err|]] eqn:Hb.
      * exists [(obj, cls)], (filter has_cleanup rest). simpl.
        split; [done|]. split; [done|].
        exists [], (obj, cls), err. done.
      * set (s1 := log _ _).
        destruct (IH s1) as (vis & skip & Hf & Hd & Hm).
        exists ((obj, cls) :: vis), skip. rewrite Hf. split; [done|].
        split; [by rewrite Hd|].
        destruct (cleanup_loop rest s1).2 eqn:Hfl; [| |done].
        -- destruct Hm as [-> Hcalls]. split; [done|].
           rewrite Hcalls. subst s1. simpl. by rewrite <- app_assoc.
        -- destruct Hm as (ps & bad & err & -> & -> & Hcalls).
           exists ((obj, cls) :: ps), bad, err. split; [done|].
           split; [done|]. rewrite Hcalls. subst s1. simpl.
           by rewrite <- !app_assoc.
    + rewrite filter_cons_False
        by (unfold has_cleanup; simpl; rewrite Hc; by intros [? ?]).
      apply IH.
Qed.

End CleanupFacts.

(** ** One attempt *)

Section AttemptFacts.
Context {W Val Exc : Type}.
Implicit Types s : @State W Val Exc.
Implicit Types d : @DoJobber W Val Exc.

Lemma node_color_added d g n c :
  graph d = pygraph.add_node_attribute n ("color", c) g →
  node_color d n = Some c.
Proof.
  intros Hg. unfold node_color. rewrite Hg. simpl.
  rewrite lookup_insert_eq. simpl.
  rewrite filter_app, filter_cons_True by done.
  rewrite filter_nil, last_snoc. done.
Qed.

Lemma status_of_node_succeeded d n v :
  status_of (_node_succeeded n v d) n = succeeded.
Proof.
  unfold status_of. simpl. rewrite lookup_insert_eq.
  erewrite node_color_added by (simpl; reflexivity).
  by rewrite decide_False.
Qed.

Lemma status_of_node_eventually_succeeded d n v :
  status_of (_node_eventually_succeeded n v d) n = eventually_succeeded.
Proof.
  unfold status_of. simpl. rewrite lookup_insert_eq.
  erewrite node_color_added by (simpl; reflexivity).
  by rewrite decide_True.
Qed.

Lemma status_of_node_failed d n err :
  status_of (_node_failed n err d) n = failed.
Proof. unfold status_of. simpl. by rewrite lookup_insert_eq. Qed.

(** The four ways an attempt can go, with the calls it makes and the status
    it leaves. *)
Inductive attempt_shape (n : string) (no_act : bool)
    : list Event → Status → Prop :=
| shape_no_class : attempt_shape n no_act [] failed
| shape_not_constructed :
    attempt_shape n no_act [EvInit n false] failed
| shape_check_passed :
    attempt_shape n no_act [EvInit n true; EvCheck n "check" true] succeeded
| shape_no_act :
    no_act = true →
    attempt_shape n no_act [EvInit n true; EvCheck n "check" false] failed
| shape_recheck_passed ok :
    no_act = false →
    attempt_shape n no_act
      [EvInit n true; EvCheck n "check" false; EvRun n ok;
       EvCheck n "recheck" true] eventually_succeeded
| shape_recheck_failed ok :
    no_act = false →
    attempt_shape n no_act
      [EvInit n true; EvCheck n "check" false; EvRun n ok;
       EvCheck n "recheck" false] failed.

Lemma run_job_shape n s :
  ∃ evs, calls (run_job n s) = calls s ++ evs ∧
         attempt_shape n (_no_act (dj s)) evs (status_of (dj (run_job n s)) n).
Proof.
  unfold run_job.
  destruct (odict.get n (_classmap (dj s))) as [cls|].
  2:{ exists []. rewrite app_nil_r. split; [done|].
      simpl. rewrite status_of_node_failed. constructor. }
  destruct (__init__ cls (env s)) as [e1 [err|]].
  { exists [EvInit n false]. split; [done|].
    simpl. rewrite status_of_node_failed. constructor. }
  unfold check_run_check. simpl.
  destruct (Check cls _ e1) as [e2 [v|err]]; simpl.
  { exists [EvInit n true; EvCheck n "check" true].
    split; [by rewrite <- app_assoc|].
    rewrite status_of_node_succeeded. constructor. }
  destruct (_no_act (dj s)) eqn:Hna; simpl.
  { exists [EvInit n true; EvCheck n "check" false].
    split; [by rewrite <- app_assoc|].
    rewrite status_of_node_failed. by constructor. }
  destruct (Run cls _ e2) as [e3 r2]; simpl.
  destruct (Check cls _ e3) as [e4 [v|err3]]; simpl.
  - exists [EvInit n true; EvCheck n "check" false; EvRun n (passed r2);
            EvCheck n "recheck" true].
    split; [by rewrite <- !app_assoc|].
    rewrite status_of_node_eventually_succeeded. by constructor.
  - exists [EvInit n true; EvCheck n "check" false; EvRun n (passed r2);
            EvCheck n "recheck" false].
    split; [by rewrite <- !app_assoc|].
    rewrite status_of_node_failed. by constructor.
Qed.

(** C1.  An attempt of a node whose job class is registered and whose
    constructor returns.  The status it leaves is [succeeded] exactly when
    the first [Check] of the class passes; then the first [Check] is the
    only call made.  It is [eventually_succeeded] exactly when the first
    [Check] raises and, the engine acting, the [Check] made after [Run]
    passes.  When the first [Check] raises and the engine acts, [Run] is
    called and, whether it returns or raises, the second [Check] is called
    in the world [Run] left; the attempt ends in the world that [Check]
    left, and its outcome alone sets the status ([failed] when it raises)
    and is what the engine records for the node. *)
Theorem three_phase_protocol n s cls :
  odict.get n (_classmap (dj s)) = Some cls →
  (__init__ cls (env s)).2 = None →
  let s' := run_job n s in
  (status_of (dj s') n = succeeded ↔ passed (first_check cls s).2 = true) ∧
  (status_of (dj s') n = eventually_succeeded
   ↔ passed (first_check cls s).2 = false ∧ _no_act (dj s) = false ∧
     passed (recheck cls s).2 = true) ∧
  (passed (first_check cls s).2 = true →
     since s s' = [EvInit n true; EvCheck n "check" true] ∧
     env s' = (first_check cls s).1 ∧
     recorded (first_check cls s).2 n (dj s')) ∧
  (passed (first_check cls s).2 = false → _no_act (dj s) = false →
     since s s'
     = [EvInit n true; EvCheck n "check" false;
        EvRun n (passed (the_run cls s).2);
        EvCheck n "recheck" (passed (recheck cls s).2)] ∧
     env s' = (recheck cls s).1 ∧
     status_of (dj s') n
     = (if passed (recheck cls s).2 then eventually_succeeded else failed) ∧
     recorded (recheck cls s).2 n (dj s')).
Proof.
  intros Hcls Hinit s'. subst s'.
  unfold recheck, the_run, checked_job, first_check, run_job.
  rewrite Hcls.
  destruct (__init__ cls (env s)) as [e1 r0]. simpl in Hinit. subst r0.
  unfold check_run_check. simpl.
  destruct (Check cls _ e1) as [e2 [v|err]]; simpl.
  { rewrite status_of_node_succeeded.
    split; [done|]. split; [split; [done|by intros []]|].
    split; [|done]. intros _. split; [|split; [done|]].
    - unfold since. simpl. rewrite <- app_assoc, drop_app_length. done.
    - by rewrite lookup_insert_eq. }
  destruct (_no_act (dj s)) eqn:Hna; simpl.
  { rewrite status_of_node_failed.
    split; [done|]. split; [split; [done|by intros (_ & ? & _)]|].
    split; [done|]. done. }
  destruct (Run cls _ e2) as [e3 r2]; simpl.
  destruct (Check cls _ e3) as [e4 [v|err3]]; simpl.
  - rewrite status_of_node_eventually_succeeded.
    split; [done|]. split; [done|]. split; [done|].
    intros _ _. split; [|split; [done|split; [done|]]].
    + unfold since. simpl. rewrite <- !app_assoc, drop_app_length. done.
    + by rewrite lookup_insert_eq.
  - rewrite status_of_node_failed.
    split; [done|]. split; [split; [done|by intros (_ & _ & ?)]|].
    split; [done|].
    intros _ _. split; [|split; [done|split; [done|]]].
    + unfold since. simpl. rewrite <- !app_assoc, drop_app_length. done.
    + by rewrite lookup_insert_eq.
Qed.

End AttemptFacts.

(** ** What every step of a run preserves *)

Section FrameFacts.
Context {W Val Exc : Type}.
Implicit Types s : @State W Val Exc.
Implicit Types d : @DoJobber W Val Exc.
Implicit Types P : @State W Val Exc → Prop.

Lemma deps_loop_preserves P (rec : string → @State W Val Exc → _) :
  (∀ n s, P s → P (rec n s).1) →
  ∀ x post b s, P s → P (deps_loop rec x post b s).1.1.
Proof.
  intros Hrec x post. induction post as [|dep rest IH]; intros b s Hs; [done|].
  simpl. destruct (decide (dep = x)); [by apply IH|].
  destruct (status_true (dj s) dep).
  - by apply IH.
  - specialize (Hrec dep s Hs). destruct (rec dep s) as [s1 fl]. simpl in Hrec.
    destruct fl; [by apply IH|done|done].
Qed.

(** A property kept by the two places where [_checknrun] changes the state
    is kept by [_checknrun]. *)
Lemma _checknrun_at_preserves P :
  (∀ n s, P s → P (upd_dj (mark_untested n) s)) →
  (∀ n s, P s → P (attempt n s).1) →
  ∀ f n s, P s → P (_checknrun_at f n s).1.
Proof.
  intros Hmark Hatt f. induction f as [|f IH]; intros n s Hs; [done|].
  simpl. destruct (pygraph.depth_first_search _ n) as [post|]; [|done].
  pose proof (deps_loop_preserves P (_checknrun_at f) IH n post false s Hs) as Hl.
  destruct (deps_loop _ n post false s) as [[s1 fl] blocked]. simpl in Hl.
  destruct fl; [|done|done].
  destruct blocked; [by apply Hmark|]. by apply Hatt, Hmark.
Qed.

Lemma _checknrun_preserves P :
  (∀ n s, P s → P (upd_dj (mark_untested n) s)) →
  (∀ n s, P s → P (attempt n s).1) →
  ∀ f node s, P s → P (_checknrun f node s).1.
Proof.
  intros Hmark Hatt f node s Hs. unfold _checknrun.
  destruct (given node); [by apply _checknrun_at_preserves|].
  destruct (_root (dj s)); [by apply _checknrun_at_preserves|done].
Qed.

Lemma checknrun_loop_preserves P :
  (∀ n s, P s → P (upd_dj (mark_untested n) s)) →
  (∀ n s, P s → P (attempt n s).1) →
  (∀ s, P s → P (upd_dj (λ d, set_run_phase (_run_phase d + 1)%Z d) s)) →
  ∀ f node trynum s, P s → P (checknrun_loop f node trynum s).1.1.
Proof.
  intros Hmark Hatt Hph f. induction f as [|f IH]; intros node tn s Hs; [done|].
  simpl.
  pose proof (_checknrun_preserves P Hmark Hatt (depth_bound (dj s)) node s Hs)
    as H1.
  destruct (_checknrun _ node s) as [s1 fl]. simpl in H1.
  destruct fl; [|done|done].
  destruct (success (dj s1)); [done|].
  apply Hph in H1.
  destruct (retriable _) as [x|[|x xs]]; [done|done|].
  simpl. destruct (_no_act (dj s1)); [done|]. by apply IH.
Qed.

Lemma frame_refl s : frame s s.
Proof.
  split; try done; try (exists []; by rewrite app_nil_r).
Qed.

Lemma frame_trans s1 s2 s3 : frame s1 s2 → frame s2 s3 → frame s1 s3.
Proof.
  intros [] []. split; try congruence; try by eauto.
  - destruct fr_objsrun0 as [n1 H1], fr_objsrun1 as [n2 H2].
    exists (n1 ++ n2). by rewrite H2, H1, app_assoc.
  - destruct fr_calls0 as [n1 H1], fr_calls1 as [n2 H2].
    exists (n1 ++ n2). by rewrite H2, H1, app_assoc.
Qed.

Lemma frame_mark_untested n s : frame s (upd_dj (mark_untested n) s).
Proof.
  unfold mark_untested, upd_dj.
  destruct (nodestatus (dj s) !! n);
    split; simpl; try done; try (exists []; by rewrite app_nil_r).
Qed.

Lemma frame_phase s :
  frame s (upd_dj (λ d, set_run_phase (_run_phase d + 1)%Z d) s).
Proof. split; simpl; try done; try (exists []; by rewrite app_nil_r). Qed.

Lemma frame_begin_run s : frame s (begin_run s).
Proof. split; simpl; try done; try (exists []; by rewrite app_nil_r). Qed.

Ltac frame_extension :=
  first [ by (exists []; rewrite app_nil_r)
        | by (rewrite <- ?app_assoc; eexists) ].

Lemma frame_run_job n s : frame s (run_job n s).
Proof.
  unfold run_job, check_run_check.
  repeat (case_match; simpl in *);
    (split; simpl; try done; try frame_extension;
     try (intros m Hm; rewrite lookup_insert_is_Some;
          destruct (decide (n = m)); auto)).
Qed.

Lemma frame_attempt n s : frame s (attempt n s).1.
Proof.
  unfold attempt.
  destruct (odict.get n (_retry (dj s))) as [r|] eqn:Hr; [|apply frame_refl].
  repeat (case_match; simpl; try apply frame_refl).
  eapply frame_trans; [|apply frame_run_job].
  split; simpl; try done; try frame_extension.
  apply odict_keys_set_in, odict_get_Some_keys. by rewrite Hr.
Qed.

Lemma frame__checknrun_at f x s : frame s (_checknrun_at f x s).1.
Proof.
  apply (_checknrun_at_preserves (frame s)); [| |apply frame_refl].
  - intros n s' H. eapply frame_trans; [done|apply frame_mark_untested].
  - intros n s' H. eapply frame_trans; [done|apply frame_attempt].
Qed.

Lemma frame__checknrun f node s : frame s (_checknrun f node s).1.
Proof.
  apply (_checknrun_preserves (frame s)); [| |apply frame_refl].
  - intros n s' H. eapply frame_trans; [done|apply frame_mark_untested].
  - intros n s' H. eapply frame_trans; [done|apply frame_attempt].
Qed.

Lemma frame_checknrun_loop f node trynum s :
  frame s (checknrun_loop f node trynum s).1.1.
Proof.
  apply (checknrun_loop_preserves (frame s)); [| | |apply frame_refl].
  - intros n s' H. eapply frame_trans; [done|apply frame_mark_untested].
  - intros n s' H. eapply frame_trans; [done|apply frame_attempt].
  - intros s' H. eapply frame_trans; [done|apply frame_phase].
Qed.

Lemma frame_cleanup s : frame s (cleanup s).1.
Proof.
  unfold cleanup.
  destruct (cleanup_loop_spec (reverse (_objsrun (dj s))) s)
    as (vis & skip & _ & Hd & Hm).
  assert (∃ evs, calls (cleanup_loop (reverse (_objsrun (dj s))) s).1
                 = calls s ++ evs) as Hc.
  { destruct (cleanup_loop _ s).2; [| |done].
    - destruct Hm as [_ ->]. by eexists.
    - destruct Hm as (? & ? & ? & _ & _ & ->). by eexists. }
  split; rewrite ?Hd; try done. exists []. by rewrite app_nil_r.
Qed.

Lemma frame_checknrun f node s : frame s (checknrun f node s).1.
Proof.
  unfold checknrun.
  pose proof (frame_checknrun_loop f node 0 (begin_run s)) as Hl.
  destruct (checknrun_loop f node 0 (begin_run s)) as [[s1 fl] tn].
  simpl in Hl.
  assert (frame s s1) as Hs1
    by (eapply frame_trans; [apply frame_begin_run|done]).
  destruct fl; [|done|done].
  destruct (_cleanup (dj s1)); [|done].
  eapply frame_trans; [done|apply frame_cleanup].
Qed.

End FrameFacts.

(** ** The list of instances across runs *)

Section ObjsrunFacts.
Context {W Val Exc : Type}.
Implicit Types s : @State W Val Exc.


End ObjsrunFacts.

(** ** The effect of an attempt on the engine *)

Section EffectFacts.
Context {W Val Exc : Type}.
Implicit Types s : @State W Val Exc.
Implicit Types d : @DoJobber W Val Exc.

(** [attempt] either leaves the state as it is or runs the job from the
    charged state. *)
Lemma attempt_cases n s :
  (attempt n s).1 = s ∨
  ∃ r, odict.get n (_retry (dj s)) = Some r ∧
       (lastphase r < _run_phase (dj s))%Z ∧ tries r ≠ 0%Z ∧
       attempt n s = (run_job n (charged n r s), Normal).
Proof.
  unfold attempt.
  destruct (odict.get n (_retry (dj s))) as [r|] eqn:Hr; [|by left].
  destruct (lastphase r <? _run_phase (dj s))%Z eqn:Hph; simpl; [|by left].
  destruct (tries r =? 0)%Z eqn:Ht; [by left|].
  right. exists r. split; [done|]. split; [lia|]. split; [lia|done].
Qed.

Lemma attempt_flag n s :
  (attempt n s).2 = Normal ∨
  (odict.get n (_retry (dj s)) = None ∧ attempt n s = (s, Raise (KeyError n))).
Proof.
  unfold attempt.
  destruct (odict.get n (_retry (dj s))) as [r|]; [|by right].
  left. by repeat case_match.
Qed.

(** What [run_job] does to the dictionaries of the engine: only the entries
    of its node change. *)
Lemma run_job_effect n s :
  (∃ b, nodestatus (dj (run_job n s)) = <[n := Some b]> (nodestatus (dj s))) ∧
  _retry (dj (run_job n s)) = _retry (dj s) ∧
  _run_phase (dj (run_job n s)) = _run_phase (dj s) ∧
  (∀ m, m ≠ n →
        pygraph.node_attr (graph (dj (run_job n s))) !! m
        = pygraph.node_attr (graph (dj s)) !! m).
Proof.
  unfold run_job, check_run_check.
  repeat (case_match; simpl in *);
    (split; [by eexists|]; split; [done|]; split; [done|];
     intros m Hm; simpl; by rewrite !lookup_insert_ne).
Qed.

Lemma status_true_spec d n :
  status_true d n = true ↔ nodestatus d !! n = Some (Some true).
Proof.
  unfold status_true. destruct (nodestatus d !! n) as [[[]|]|]; naive_solver.
Qed.

Lemma status_of_true d n :
  status_true d n = true ↔
  status_of d n = succeeded ∨ status_of d n = eventually_succeeded.
Proof.
  rewrite status_true_spec. unfold status_of.
  destruct (nodestatus d !! n) as [[[]|]|]; [|naive_solver..].
  destruct (decide _); naive_solver.
Qed.

Lemma run_job_status_other n m s :
  m ≠ n →
  status_true (dj (run_job n s)) m = status_true (dj s) m ∧
  status_of (dj (run_job n s)) m = status_of (dj s) m.
Proof.
  intros Hne. destruct (run_job_effect n s) as ([b Hb] & _ & _ & Hattr).
  unfold status_true, status_of, node_color.
  rewrite Hb, lookup_insert_ne, Hattr by done. done.
Qed.

Lemma charged_effect n r s :
  dj (charged n r s)
  = set_retry (odict.set n (charge (_run_phase (dj s))
                                   (clock (wait_for r (env s))) r)
                         (_retry (dj s))) (dj s) ∧
  calls (charged n r s)
  = calls s ++ [EvAttempt n (_run_phase (dj s)) (nodestatus (dj s))].
Proof. done. Qed.

End EffectFacts.

(** ** The instances that ran *)

Section Instances.
Context {W Val Exc : Type}.
Implicit Types s : @State W Val Exc.














End Instances.

Section InstanceTheorems.
Context {W Val Exc : Type}.
Implicit Types s : @State W Val Exc.



End InstanceTheorems.

(** ** No-act mode *)

Section NoActFacts.
Context {W Val Exc : Type}.
Implicit Types s : @State W Val Exc.

(** What holds of a state [s] reached in a pass over the graph that began in
    [s0], in no-act mode. *)
Definition no_act_pass (s0 s : @State W Val Exc) : Prop :=
  _no_act (dj s) = true ∧
  _run_phase (dj s) = _run_phase (dj s0) ∧
  ∃ evs, calls s = calls s0 ++ evs ∧
         Forall (no_act_event (_run_phase (dj s0))) evs ∧
         ∀ n, status_true (dj s) n = true →
              status_true (dj s0) n = true ∨
              (status_of (dj s) n = succeeded ∧ EvCheck n "check" true ∈ evs).

Lemma no_act_pass_refl s : _no_act (dj s) = true → no_act_pass s s.
Proof.
  intros H. split; [done|]. split; [done|]. exists [].
  rewrite app_nil_r. split; [done|]. split; [constructor|]. by left.
Qed.

Lemma no_act_pass_mark_untested s0 n s :
  no_act_pass s0 s → no_act_pass s0 (upd_dj (mark_untested n) s).
Proof.
  intros (Hna & Hph & evs & Hc & Hev & Hst).
  unfold mark_untested, upd_dj.
  destruct (nodestatus (dj s) !! n) eqn:Hn; simpl;
    (split; [done|]; split; [done|]; exists evs; split; [done|];
     split; [done|]); [done|].
  intros m Hm. apply status_true_spec in Hm. simpl in Hm.
  destruct (decide (n = m)) as [->|Hne].
  { by rewrite lookup_insert_eq in Hm. }
  rewrite lookup_insert_ne in Hm by done.
  destruct (Hst m) as [?|[Hs ?]]; [by apply status_true_spec|by left|].
  right. split; [|done]. revert Hs. unfold status_of, node_color. simpl.
  by rewrite lookup_insert_ne.
Qed.

Lemma no_act_pass_attempt s0 n s :
  no_act_pass s0 s → no_act_pass s0 (attempt n s).1.
Proof.
  intros (Hna & Hph & evs & Hc & Hev & Hst).
  destruct (attempt_cases n s) as [->|(r & Hr & _ & _ & ->)].
  { split; [done|]. split; [done|]. by exists evs. }
  simpl. set (s1 := charged n r s).
  destruct (run_job_shape n s1) as (evs1 & Hc1 & Hshape).
  destruct (run_job_effect n s1) as (_ & _ & Hph1 & _).
  pose proof (frame_run_job n s1) as [].
  assert (_no_act (dj s1) = true) as Hna1 by done.
  split; [congruence|]. split; [by rewrite Hph1|].
  exists (evs ++ EvAttempt n (_run_phase (dj s)) (nodestatus (dj s)) :: evs1).
  split.
  { rewrite Hc1. subst s1. simpl. rewrite Hc, <- !app_assoc. done. }
  rewrite Hna1 in Hshape.
  split.
  { apply Forall_app. split; [done|]. constructor; [done|].
    destruct Hshape; repeat constructor; done. }
  intros m Hm. destruct (decide (m = n)) as [->|Hne].
  - right. apply status_of_true in Hm.
    destruct Hshape; destruct Hm as [Hm|Hm]; try discriminate Hm; try done.
    split; [done|]. apply elem_of_app. right.
    apply elem_of_cons. right. apply elem_of_cons. right. left.
  - destruct (run_job_status_other n m s1 Hne) as [Ht Ho].
    rewrite Ht in Hm. destruct (Hst m Hm) as [?|[Hs Hin]]; [by left|].
    right. rewrite Ho. split; [done|]. apply elem_of_app. by left.
Qed.

Lemma no_act_pass__checknrun f node s :
  _no_act (dj s) = true → no_act_pass s (_checknrun f node s).1.
Proof.
  intros H.
  apply (_checknrun_preserves (no_act_pass s)).
  - intros. by apply no_act_pass_mark_untested.
  - intros. by apply no_act_pass_attempt.
  - by apply no_act_pass_refl.
Qed.

(** In no-act mode the loop of [checknrun] never goes round: whatever the
    pass leaves, the loop ends after it. *)
Lemma checknrun_loop_no_act f node trynum s :
  _no_act (dj s) = true →
  checknrun_loop (S f) node trynum s = checknrun_loop 1 node trynum s ∧
  (checknrun_loop (S f) node trynum s).2 = trynum.
Proof.
  intros Hna. simpl.
  pose proof (frame__checknrun (depth_bound (dj s)) node s) as [].
  destruct (_checknrun _ node s) as [s1 fl]. simpl in *.
  destruct fl; [|done|done].
  destruct (success (dj s1)); [done|].
  destruct (retriable _) as [x|[|x xs]]; [done|done|].
  simpl. rewrite fr_no_act0, Hna. done.
Qed.

End NoActFacts.

Section NoActTheorem.
Context {W Val Exc : Type}.
Implicit Types s : @State W Val Exc.

Lemma checknrun_loop_no_act_result f node trynum s :
  _no_act (dj s) = true →
  ∃ s1, no_act_pass s s1 ∧
        nodestatus (dj (checknrun_loop (S f) node trynum s).1.1)
        = nodestatus (dj s1) ∧
        graph (dj (checknrun_loop (S f) node trynum s).1.1) = graph (dj s1) ∧
        calls (checknrun_loop (S f) node trynum s).1.1 = calls s1.
Proof.
  intros Hna.
  destruct (checknrun_loop_no_act f node trynum s Hna) as [-> _].
  pose proof (no_act_pass__checknrun (depth_bound (dj s)) node s Hna) as Hp.
  simpl. destruct (_checknrun _ node s) as [s1 fl]. simpl in Hp.
  exists s1. split; [done|].
  destruct fl; [|done..].
  destruct (success (dj s1)); [done|].
  destruct (retriable _) as [x|[|x xs]]; simpl; try done.
  by destruct (_no_act (dj s1)).
Qed.

(** C5.  A run in no-act mode: the loop of [checknrun] makes one pass and
    stops, whatever the pass leaves; the run calls no [Run] and no
    re-[Check], and every attempt is made in the phase the run started in;
    a node that ends the run successful is [succeeded], never
    [eventually_succeeded], and its first [Check] passed; an attempt whose
    [Check] fails makes no further call and leaves the node [failed]. *)
Theorem no_act_mode fuel node s :
  _no_act (dj s) = true →
  checknrun_loop (S fuel) node 0 (begin_run s)
  = checknrun_loop 1 node 0 (begin_run s) ∧
  Forall (no_act_event (_run_phase (dj s)))
         (since s (checknrun (S fuel) node s).1) ∧
  (∀ n, status_true (dj (checknrun (S fuel) node s).1) n = true →
        status_of (dj (checknrun (S fuel) node s).1) n = succeeded ∧
        EvCheck n "check" true ∈ since s (checknrun (S fuel) node s).1) ∧
  (∀ n s1, _no_act (dj s1) = true →
           EvCheck n "check" false ∈ since s1 (run_job n s1) →
           since s1 (run_job n s1) = [EvInit n true; EvCheck n "check" false] ∧
           status_of (dj (run_job n s1)) n = failed).
Proof.
  intros Hna.
  assert (_no_act (dj (begin_run s)) = true) as Hna0 by done.
  split; [by apply checknrun_loop_no_act|].
  assert (∃ s2 evs,
            calls (checknrun (S fuel) node s).1 = calls s ++ evs ∧
            Forall (no_act_event (_run_phase (dj s))) evs ∧
            (∀ n, status_true (dj s2) n = true →
                  status_of (dj s2) n = succeeded ∧
                  EvCheck n "check" true ∈ evs) ∧
            nodestatus (dj (checknrun (S fuel) node s).1) = nodestatus (dj s2) ∧
            graph (dj (checknrun (S fuel) node s).1) = graph (dj s2))
    as (s2 & evs & Hcalls & Hev & Hst & Hns & Hg).
  { destruct (checknrun_loop_no_act_result fuel node 0 (begin_run s) Hna0)
      as (s1 & Hp & Hns & Hg & Hc).
    destruct Hp as (_ & _ & evs & Hc1 & Hev & Hst).
    assert (∀ n, status_true (dj s1) n = true →
                 status_of (dj s1) n = succeeded ∧
                 EvCheck n "check" true ∈ evs) as Hst'.
    { intros n Hn. destruct (Hst n Hn) as [Hb|?]; [|done].
      apply status_true_spec in Hb. simpl in Hb.
      by rewrite lookup_empty in Hb. }
    unfold checknrun.
    destruct (checknrun_loop (S fuel) node 0 (begin_run s)) as [[s3 fl] tn].
    simpl in *.
    assert (∃ xs, calls (match fl with
                         | Normal => if _cleanup (dj s3) then cleanup s3
                                     else (s3, Normal)
                         | _ => (s3, fl)
                         end).1 = calls s3 ++ xs ∧
                  Forall (no_act_event (_run_phase (dj s))) xs ∧
                  dj (match fl with
                      | Normal => if _cleanup (dj s3) then cleanup s3
                                  else (s3, Normal)
                      | _ => (s3, fl)
                      end).1 = dj s3) as (xs & Hxs & Hfx & Hdx).
    { assert (∃ xs : list Event, calls s3 = calls s3 ++ xs ∧
                Forall (no_act_event (_run_phase (dj s))) xs ∧ dj s3 = dj s3)
        as Hnil by (exists []; by rewrite app_nil_r).
      destruct fl; [|done|done].
      destruct (_cleanup (dj s3)); [|done].
      unfold cleanup.
      destruct (cleanup_loop_spec (reverse (_objsrun (dj s3))) s3)
        as (vis & skip & _ & Hd & Hm).
      destruct (cleanup_loop _ s3).2; [| |done].
      - destruct Hm as [_ Hm]. eexists. split; [done|]. split; [|done].
        apply Forall_forall. intros ev Hin.
        apply list_elem_of_In, in_map_iff in Hin as (oc & <- & _). done.
      - destruct Hm as (ps & bad & err & _ & _ & Hm).
        eexists. split; [done|]. split; [|done].
        apply Forall_app. split; [|by repeat constructor].
        apply Forall_forall. intros ev Hin.
        apply list_elem_of_In, in_map_iff in Hin as (oc & <- & _). done. }
    exists s1, (evs ++ xs). rewrite Hxs, Hc, Hc1, <- app_assoc.
    split; [done|]. split; [by apply Forall_app|].
    split; [|by rewrite Hdx].
    intros n Hn. destruct (Hst' n Hn). split; [done|].
    apply elem_of_app. by left. }
  rewrite (since_app _ _ _ Hcalls).
  split; [done|]. split.
  - intros n Hn.
    assert (status_true (dj s2) n = true) as Hn2.
    { apply status_true_spec. rewrite <- Hns. by apply status_true_spec. }
    destruct (Hst n Hn2) as [Hs ?]. split; [|done].
    revert Hs. unfold status_of, node_color. by rewrite Hns, Hg.
  - intros n s1 Hna1 Hin.
    destruct (run_job_shape n s1) as (evs1 & Hc1 & Hshape).
    rewrite (since_app _ _ _ Hc1) in *. rewrite Hna1 in Hshape.
    destruct Hshape; try done;
      repeat (apply elem_of_cons in Hin as [Hin|Hin]; try done);
      by apply elem_of_nil in Hin.
Qed.

End NoActTheorem.

(** ** Counting attempts *)

Section CountFacts.
Context {W Val Exc : Type}.
Implicit Types s : @State W Val Exc.
Implicit Types d : @DoJobber W Val Exc.

Lemma attempts_of_app n evs evs' :
  attempts_of n (evs ++ evs') = attempts_of n evs + attempts_of n evs'.
Proof. unfold attempts_of. by rewrite List.filter_app, length_app. Qed.

Lemma attempts_at_app n p evs evs' :
  attempts_at n p (evs ++ evs') = attempts_at n p evs + attempts_at n p evs'.
Proof. unfold attempts_at. by rewrite List.filter_app, length_app. Qed.

Lemma attempts_at_le_of n p evs : attempts_at n p evs ≤ attempts_of n evs.
Proof.
  unfold attempts_at, attempts_of.
  induction evs as [|ev evs IH]; simpl; [done|].
  destruct ev; simpl; try done.
  destruct (bool_decide (nodename = n)); simpl; [|done].
  destruct (bool_decide (phase = p)); simpl; lia.
Qed.

Lemma shape_no_attempts n b evs st m :
  attempt_shape n b evs st → attempts_of m evs = 0.
Proof. by destruct 1. Qed.

Lemma odict_get_elem_of {V} k (v : V) dd :
  odict.get k dd = Some v → (k, v) ∈ dd.
Proof.
  induction dd as [|[k' v'] r IH]; simpl; [done|].
  destruct (decide (k = k')) as [->|?].
  - intros [= ->]. left.
  - intros H. right. by apply IH.
Qed.

Lemma odict_set_Forall {V} (P : string * V → Prop) k v dd :
  Forall P dd → P (k, v) → is_Some (odict.get k dd) →
  Forall P (odict.set k v dd).
Proof.
  intros HF HP. induction dd as [|[k' v'] r IH]; simpl; [by intros [? ?]|].
  apply Forall_cons in HF as [H1 H2].
  destruct (decide (k = k')) as [->|?]; intros Hs.
  - by constructor.
  - constructor; [done|]. by apply IH.
Qed.

Lemma retry_sane_spec d :
  retry_sane d = true ↔
  Forall (λ nr : string * Retry,
            ∃ t, max_tries d nr.1 = Some t ∧ (0 ≤ tries nr.2 ≤ t)%Z) (_retry d).
Proof.
  unfold retry_sane. rewrite forallb_forall, Forall_forall.
  split; intros H nr Hin.
  - specialize (H nr (proj1 (list_elem_of_In _ _) Hin)).
    destruct (max_tries d nr.1) as [t|]; [|done].
    exists t. split; [done|]. lia.
  - destruct (H nr (proj2 (list_elem_of_In _ _) Hin)) as (t & -> & ?).
    apply andb_true_iff. split; lia.
Qed.

Lemma retry_sane_get d n r :
  retry_sane d = true → odict.get n (_retry d) = Some r →
  ∃ t, max_tries d n = Some t ∧ (0 ≤ tries r ≤ t)%Z.
Proof.
  intros Hs Hg. apply retry_sane_spec in Hs.
  rewrite Forall_forall in Hs. apply (Hs (n, r)). by apply odict_get_elem_of.
Qed.

(** The accounting of a run that began in [s0] and has reached [s]: what
    the retry records lost is what the history gained. *)
Definition accounted (s0 s : @State W Val Exc) : Prop :=
  ∃ evs, calls s = calls s0 ++ evs ∧
    (∀ n, match odict.get n (_retry (dj s0)), odict.get n (_retry (dj s)) with
          | Some r0, Some r =>
              (tries r0 - tries r = Z.of_nat (attempts_of n evs))%Z ∧
              ((0 ≤ tries r0)%Z → (0 ≤ tries r)%Z)
          | None, None => attempts_of n evs = 0
          | _, _ => False
          end) ∧
    (∀ n p, attempts_at n p evs ≤ 1) ∧
    (∀ n p, 0 < attempts_at n p evs →
            ∃ r, odict.get n (_retry (dj s)) = Some r ∧ (p ≤ lastphase r)%Z).

Lemma accounted_refl s : accounted s s.
Proof.
  exists []. rewrite app_nil_r. split; [done|]. split.
  - intros n. destruct (odict.get n _); [|done]. split; [|done].
    unfold attempts_of. simpl. lia.
  - split; [intros; unfold attempts_at; simpl; lia|].
    intros n p H. unfold attempts_at in H. simpl in H. lia.
Qed.

Lemma accounted_same s0 s s' :
  calls s' = calls s → _retry (dj s') = _retry (dj s) →
  accounted s0 s → accounted s0 s'.
Proof. intros Hc Hr (evs & H). exists evs. by rewrite Hc, Hr. Qed.

Lemma accounted_attempt s0 n s :
  accounted s0 s → accounted s0 (attempt n s).1.
Proof.
  intros Hacc.
  destruct (attempt_cases n s) as [->|(r & Hr & Hph & Ht & ->)]; [done|].
  destruct Hacc as (evs & Hc & Htr & Hone & Hlast).
  simpl. set (s1 := charged n r s).
  destruct (run_job_shape n s1) as (evs1 & Hc1 & Hshape).
  destruct (run_job_effect n s1) as (_ & Hretry & _ & _).
  exists (evs ++ EvAttempt n (_run_phase (dj s)) (nodestatus (dj s)) :: evs1).
  split.
  { rewrite Hc1. subst s1. simpl. rewrite Hc, <- !app_assoc. done. }
  rewrite Hretry. subst s1. simpl.
  assert (∀ m, attempts_of m
                 (evs ++ EvAttempt n (_run_phase (dj s)) (nodestatus (dj s))
                      :: evs1)
               = attempts_of m evs + (if decide (n = m) then 1 else 0))
    as Hof.
  { intros m. rewrite attempts_of_app.
    change (EvAttempt n ?p ?x :: evs1) with ([EvAttempt n p x] ++ evs1).
    rewrite attempts_of_app, (shape_no_attempts _ _ _ _ m Hshape).
    unfold attempts_of. simpl.
    destruct (decide (n = m)) as [->|?].
    - rewrite bool_decide_eq_true_2 by done. simpl. lia.
    - rewrite bool_decide_eq_false_2 by done. simpl. lia. }
  assert (∀ m p, attempts_at m p
                   (evs ++ EvAttempt n (_run_phase (dj s)) (nodestatus (dj s))
                        :: evs1)
                 = attempts_at m p evs
                   + (if decide (n = m ∧ _run_phase (dj s) = p)
                      then 1 else 0))
    as Hat.
  { intros m p. rewrite attempts_at_app.
    change (EvAttempt n ?q ?x :: evs1) with ([EvAttempt n q x] ++ evs1).
    rewrite attempts_at_app.
    assert (attempts_at m p evs1 = 0) as ->.
    { pose proof (attempts_at_le_of m p evs1).
      rewrite (shape_no_attempts _ _ _ _ m Hshape) in H. lia. }
    unfold attempts_at. simpl.
    destruct (decide (n = m ∧ _run_phase (dj s) = p)) as [[-> ->]|Hn].
    - rewrite !bool_decide_eq_true_2 by done. simpl. lia.
    - destruct (bool_decide (n = m)) eqn:H1; simpl; [|lia].
      destruct (bool_decide (_run_phase (dj s) = p)) eqn:H2; simpl; [|lia].
      apply bool_decide_eq_true in H1, H2. tauto. }
  split; [|split].
  - intros m. specialize (Htr m). rewrite Hof, odict_get_set.
    destruct (decide (n = m)) as [<-|Hne].
    + rewrite Hr in Htr. destruct (odict.get n (_retry (dj s0))); [|done].
      simpl. lia.
    + destruct (odict.get m (_retry (dj s0))), (odict.get m (_retry (dj s)));
        try done; lia.
  - intros m p. rewrite Hat. specialize (Hone m p).
    destruct (decide _) as [[<- <-]|?]; [|lia].
    destruct (decide (0 < attempts_at n (_run_phase (dj s)) evs)) as [Hpos|?];
      [|lia].
    destruct (Hlast _ _ Hpos) as (r' & Hr' & Hle). rewrite Hr in Hr'.
    injection Hr' as <-. lia.
  - intros m p. rewrite Hat, odict_get_set. intros Hpos.
    destruct (decide (n = m)) as [<-|Hne].
    + eexists. split; [done|]. simpl.
      destruct (decide (n = n ∧ _run_phase (dj s) = p)) as [[_ <-]|?]; [lia|].
      destruct (Hlast n p) as (r' & Hr' & Hle); [lia|].
      rewrite Hr in Hr'. injection Hr' as <-. lia.
    + destruct (decide (n = m ∧ _ = p)) as [[? _]|_]; [done|].
      apply Hlast. lia.
Qed.

Lemma accounted_checknrun_loop f node trynum s :
  accounted s (checknrun_loop f node trynum s).1.1.
Proof.
  apply (checknrun_loop_preserves (accounted s)); [| | |apply accounted_refl].
  - intros n s' H. unfold mark_untested, upd_dj.
    destruct (nodestatus (dj s') !! n); by eapply accounted_same.
  - intros. by apply accounted_attempt.
  - intros s' H. by eapply accounted_same.
Qed.

End CountFacts.

Section BoundedAttempts.
Context {W Val Exc : Type}.
Implicit Types s : @State W Val Exc.
Implicit Types d : @DoJobber W Val Exc.

Lemma retry_sane_ext d d' :
  _retry d' = _retry d → _classmap d' = _classmap d →
  _default_tries d' = _default_tries d →
  retry_sane d' = retry_sane d.
Proof.
  intros H1 H2 H3. unfold retry_sane, max_tries. by rewrite H1, H2, H3.
Qed.

Lemma retry_sane_attempt n s :
  retry_sane (dj s) = true → retry_sane (dj (attempt n s).1) = true.
Proof.
  intros Hs.
  destruct (attempt_cases n s) as [->|(r & Hr & Hph & Ht & ->)]; [done|].
  simpl. set (s1 := charged n r s).
  destruct (run_job_effect n s1) as (_ & Hretry & _ & _).
  pose proof (frame_run_job n s1) as [].
  apply retry_sane_spec. rewrite Hretry. subst s1. simpl in *.
  destruct (retry_sane_get _ _ _ Hs Hr) as (t & Hmax & Hb).
  apply odict_set_Forall.
  - apply retry_sane_spec in Hs. eapply Forall_impl; [exact Hs|].
    intros [m rm] (t' & Hm & ?). exists t'. split; [|done].
    revert Hm. unfold max_tries. simpl. by rewrite fr_classmap0, fr_default_tries0.
  - exists t. split; [|simpl; lia].
    revert Hmax. unfold max_tries. simpl. by rewrite fr_classmap0, fr_default_tries0.
  - by rewrite Hr.
Qed.

Lemma retry_sane_checknrun_loop f node trynum s :
  retry_sane (dj s) = true →
  retry_sane (dj (checknrun_loop f node trynum s).1.1) = true.
Proof.
  apply (checknrun_loop_preserves (λ s, retry_sane (dj s) = true)).
  - intros n s' H. rewrite <- H. unfold mark_untested, upd_dj.
    by destruct (nodestatus (dj s') !! n).
  - intros. by apply retry_sane_attempt.
  - intros s' H. by rewrite <- H.
Qed.

Lemma cleanup_no_attempts s :
  dj (cleanup s).1 = dj s ∧
  ∃ xs, calls (cleanup s).1 = calls s ++ xs ∧ ∀ n, attempts_of n xs = 0.
Proof.
  unfold cleanup.
  destruct (cleanup_loop_spec (reverse (_objsrun (dj s))) s)
    as (vis & skip & _ & Hd & Hm).
  split; [done|].
  assert (∀ (b : bool) n (l : list (@Job Val Exc * @JobClass W Val Exc)),
            attempts_of n (map (cleanup_event b) l) = 0)
    as Hmap by (intros b n l; by induction l).
  destruct (cleanup_loop _ s).2; [| |done].
  - destruct Hm as [_ Hm]. eexists. split; [done|]. intros n. apply Hmap.
  - destruct Hm as (ps & bad & err & _ & _ & Hm).
    eexists. split; [done|]. intros n.
    rewrite attempts_of_app, Hmap. done.
Qed.

Lemma accounted_extend s0 s s' xs :
  accounted s0 s → calls s' = calls s ++ xs → (∀ n, attempts_of n xs = 0) →
  _retry (dj s') = _retry (dj s) →
  accounted s0 s'.
Proof.
  intros (evs & Hc & Htr & Hone & Hlast) Hc' Hxs Hr.
  assert (∀ n p, attempts_at n p (evs ++ xs) = attempts_at n p evs) as Hat.
  { intros n p. rewrite attempts_at_app.
    pose proof (attempts_at_le_of n p xs) as H. rewrite Hxs in H. lia. }
  exists (evs ++ xs). rewrite Hc', Hc, app_assoc, Hr. split; [done|].
  split; [|split].
  - intros n. specialize (Htr n). by rewrite attempts_of_app, Hxs, Nat.add_0_r.
  - intros n p. by rewrite Hat.
  - intros n p. rewrite Hat. apply Hlast.
Qed.

Lemma accounted_checknrun fuel node s :
  accounted s (checknrun fuel node s).1 ∧
  (retry_sane (dj s) = true → retry_sane (dj (checknrun fuel node s).1) = true).
Proof.
  unfold checknrun.
  pose proof (accounted_checknrun_loop fuel node 0 (begin_run s)) as Hacc.
  pose proof (retry_sane_checknrun_loop fuel node 0 (begin_run s)) as Hsane.
  destruct (checknrun_loop fuel node 0 (begin_run s)) as [[s1 fl] tn].
  simpl in Hacc, Hsane.
  assert (accounted s s1) as Hacc1.
  { destruct Hacc as (evs & H). by exists evs. }
  assert (accounted s (cleanup s1).1 ∧
          (retry_sane (dj s) = true → retry_sane (dj (cleanup s1).1) = true))
    as Hcl.
  { destruct (cleanup_no_attempts s1) as (Hd & xs & Hxs & Hno).
    split; [|by rewrite Hd].
    eapply accounted_extend; [done..|by rewrite Hd]. }
  destruct fl; [|done..].
  by destruct (_cleanup (dj s1)).
Qed.

(** C2.  In one run, a node is attempted no more often than its retry
    record held tries when the run began, and that is at most its resolved
    max-tries; within one phase it is attempted at most once.  An attempt
    takes place only when the phase counter is above the node's
    [lastphase] and tries are left; it takes one try, records the phase
    and sets [nexttry] to the time after the wait plus [retry_delay], all
    before the job is constructed, and the job leaves the record alone. *)
Theorem attempts_bounded fuel node s :
  retry_sane (dj s) = true →
  (∀ n r, odict.get n (_retry (dj s)) = Some r →
     ∃ t, max_tries (dj s) n = Some t ∧
          (Z.of_nat (attempts_of n (since s (checknrun fuel node s).1))
           ≤ tries r ≤ t)%Z) ∧
  (∀ n, odict.get n (_retry (dj s)) = None →
        attempts_of n (since s (checknrun fuel node s).1) = 0) ∧
  (∀ n p, attempts_at n p (since s (checknrun fuel node s).1) ≤ 1) ∧
  retry_sane (dj (checknrun fuel node s).1) = true ∧
  (∀ n s1, retry_sane (dj s1) = true → since s1 (attempt n s1).1 ≠ [] →
     ∃ r, odict.get n (_retry (dj s1)) = Some r ∧
          (lastphase r < _run_phase (dj s1))%Z ∧ (0 < tries r)%Z ∧
          attempt n s1 = (run_job n (charged n r s1), Normal) ∧
          odict.get n (_retry (dj (charged n r s1)))
          = Some {| tries := tries r - 1; retry_delay := retry_delay r;
                    nexttry := clock (env (charged n r s1)) + retry_delay r;
                    lastphase := _run_phase (dj s1) |} ∧
          _retry (dj (attempt n s1).1) = _retry (dj (charged n r s1))).
Proof.
  intros Hsane.
  destruct (accounted_checknrun fuel node s) as [(evs & Hc & Htr & Hone & _) Hs'].
  rewrite (since_app _ _ _ Hc).
  split; [|split; [|split; [|split]]].
  - intros n r Hr. destruct (retry_sane_get _ _ _ Hsane Hr) as (t & Ht & Hb).
    exists t. split; [done|]. specialize (Htr n). rewrite Hr in Htr.
    destruct (odict.get n _) as [r'|]; [|done]. lia.
  - intros n Hr. specialize (Htr n). rewrite Hr in Htr.
    by destruct (odict.get n _).
  - done.
  - by apply Hs'.
  - intros n s1 Hs1 Hne.
    destruct (attempt_cases n s1) as [Hsame|(r & Hr & Hph & Ht & Hatt)].
    { exfalso. apply Hne. rewrite Hsame. unfold since. by rewrite drop_all. }
    exists r. destruct (retry_sane_get _ _ _ Hs1 Hr) as (t & _ & Hb).
    split; [done|]. split; [done|]. split; [lia|]. split; [done|].
    split.
    + simpl. by rewrite odict_get_set_eq.
    + rewrite Hatt. simpl. by destruct (run_job_effect n (charged n r s1)) as (_ & -> & _).
Qed.

End BoundedAttempts.

(** ** What a new run keeps of the earlier ones *)

Section KeptFacts.
Context {W Val Exc : Type}.
Implicit Types s : @State W Val Exc.

Lemma run_job_results_other n m s :
  m ≠ n →
  noderesults (dj (run_job n s)) !! m = noderesults (dj s) !! m ∧
  nodeexceptions (dj (run_job n s)) !! m = nodeexceptions (dj s) !! m.
Proof.
  intros Hne. unfold run_job, check_run_check.
  repeat (case_match; simpl in *); by rewrite ?lookup_insert_ne.
Qed.

(** The captured result and failure of a node stay as they were as long as
    the node is not attempted. *)
Definition kept (s0 s : @State W Val Exc) : Prop :=
  ∃ evs, calls s = calls s0 ++ evs ∧
    ∀ n, attempts_of n evs = 0 →
         noderesults (dj s) !! n = noderesults (dj s0) !! n ∧
         nodeexceptions (dj s) !! n = nodeexceptions (dj s0) !! n.

Lemma kept_refl s : kept s s.
Proof. exists []. by rewrite app_nil_r. Qed.

Lemma kept_same s0 s s' :
  calls s' = calls s → noderesults (dj s') = noderesults (dj s) →
  nodeexceptions (dj s') = nodeexceptions (dj s) →
  kept s0 s → kept s0 s'.
Proof. intros Hc Hr He (evs & H). exists evs. by rewrite Hc, Hr, He. Qed.

Lemma kept_attempt s0 n s : kept s0 s → kept s0 (attempt n s).1.
Proof.
  intros Hk.
  destruct (attempt_cases n s) as [->|(r & Hr & Hph & Ht & ->)]; [done|].
  destruct Hk as (evs & Hc & Hkeep).
  simpl. set (s1 := charged n r s).
  destruct (run_job_shape n s1) as (evs1 & Hc1 & Hshape).
  exists (evs ++ EvAttempt n (_run_phase (dj s)) (nodestatus (dj s)) :: evs1).
  split.
  { rewrite Hc1. subst s1. simpl. rewrite Hc, <- !app_assoc. done. }
  intros m Hm. rewrite attempts_of_app in Hm.
  assert (m ≠ n) as Hne.
  { intros ->. unfold attempts_of in Hm. simpl in Hm.
    rewrite bool_decide_eq_true_2 in Hm by done. simpl in Hm. lia. }
  destruct (run_job_results_other n m s1 Hne) as [-> ->].
  subst s1. simpl. apply Hkeep. lia.
Qed.

Lemma kept_checknrun fuel node s : kept s (checknrun fuel node s).1.
Proof.
  unfold checknrun.
  assert (kept s (checknrun_loop fuel node 0 (begin_run s)).1.1) as Hl.
  { apply (checknrun_loop_preserves (kept s)).
    - intros n s' H. unfold mark_untested, upd_dj.
      destruct (nodestatus (dj s') !! n); by eapply kept_same.
    - intros. by apply kept_attempt.
    - intros s' H. by eapply kept_same.
    - eapply kept_same; [..|apply kept_refl]; done. }
  destruct (checknrun_loop fuel node 0 (begin_run s)) as [[s1 fl] tn].
  simpl in Hl. destruct fl; [|done..].
  destruct (_cleanup (dj s1)); [|done].
  destruct (cleanup_no_attempts s1) as (Hd & xs & Hxs & Hno).
  destruct Hl as (evs & Hc & Hkeep).
  exists (evs ++ xs). rewrite Hxs, Hc, app_assoc, Hd. split; [done|].
  intros n Hn. rewrite attempts_of_app in Hn. apply Hkeep. lia.
Qed.

(** C9, as amended.  At the start of a run only the status dictionary is
    emptied; the captured results and failures are left as they are, and
    the run changes those of a node only by attempting it: what an earlier
    run captured for a node the new run does not attempt is still there when
    the new run is over. *)
Theorem only_status_is_reset fuel node s :
  nodestatus (dj (begin_run s)) = ∅ ∧
  noderesults (dj (begin_run s)) = noderesults (dj s) ∧
  nodeexceptions (dj (begin_run s)) = nodeexceptions (dj s) ∧
  graph (dj (begin_run s)) = graph (dj s) ∧
  ∀ n, attempts_of n (since s (checknrun fuel node s).1) = 0 →
       noderesults (dj (checknrun fuel node s).1) !! n
       = noderesults (dj s) !! n ∧
       nodeexceptions (dj (checknrun fuel node s).1) !! n
       = nodeexceptions (dj s) !! n.
Proof.
  repeat (split; [done|]).
  destruct (kept_checknrun fuel node s) as (evs & Hc & Hkeep).
  by rewrite (since_app _ _ _ Hc).
Qed.

End KeptFacts.

(** ** Depth-first search *)

Section DfsFacts.
Variable g : pygraph.digraph.
Hypothesis closed : graph_closed g = true.

#[local] Abbreviation N := (pygraph.nodes g).
#[local] Abbreviation unvisited v := (length (filter (λ x, x ∉ v) N)).

Lemma has_node_spec n : pygraph.has_node g n = true ↔ n ∈ N.
Proof. apply odict_mem_true. Qed.

Lemma edge_nodes u v : edge g u v → u ∈ N ∧ v ∈ N.
Proof.
  unfold edge, pygraph.neighbors. intros Hv.
  assert (u ∈ N) as Hu.
  { apply odict_get_Some_keys.
    destruct (odict.get u (pygraph.node_neighbors g)); [eauto|].
    by apply elem_of_nil in Hv. }
  split; [done|].
  unfold graph_closed in closed. rewrite forallb_forall in closed.
  specialize (closed u (proj1 (list_elem_of_In _ _) Hu)).
  rewrite forallb_forall in closed. apply has_node_spec, closed.
  by apply list_elem_of_In.
Qed.

Lemma unvisited_mono (v v' : list string) (l : list string) :
  (∀ x, x ∈ v → x ∈ v') →
  length (filter (λ x, x ∉ v') l) ≤ length (filter (λ x, x ∉ v) l).
Proof.
  intros Hsub. induction l as [|a l IH]; [done|].
  rewrite !filter_cons.
  destruct (decide (a ∉ v')) as [Ha'|Ha'], (decide (a ∉ v)) as [Ha|Ha];
    simpl; try lia.
  exfalso. apply Ha. intros ?. apply Ha'. by apply Hsub.
Qed.

Lemma unvisited_cons (v l : list string) x :
  x ∈ l → x ∉ v →
  length (filter (λ y, y ∉ x :: v) l) < length (filter (λ y, y ∉ v) l).
Proof.
  intros Hx Hv. induction l as [|a l IH]; [by apply elem_of_nil in Hx|].
  assert (length (filter (λ y, y ∉ x :: v) l)
          ≤ length (filter (λ y, y ∉ v) l)) as Hle.
  { apply unvisited_mono. intros. by right. }
  rewrite !filter_cons.
  apply elem_of_cons in Hx as [<-|Hx].
  - rewrite decide_False by (intros H; apply H; left).
    rewrite decide_True by done. simpl. lia.
  - specialize (IH Hx).
    destruct (decide (a ∉ x :: v)) as [Ha'|Ha'], (decide (a ∉ v)) as [Ha|Ha];
      simpl; try lia.
    exfalso. apply Ha. intros ?. apply Ha'. by right.
Qed.

(** What one call of the inner [dfs] adds: a block [new] of the
    postordering, made of the nodes it visits; they are reached from the
    node, and every successor of one of them is visited when the call
    returns. *)
Definition dfs_adds (start : list string) (v p v' p' : list string) : Prop :=
  ∃ new, p' = p ++ new ∧
         (∀ x, x ∈ v' ↔ x ∈ v ∨ x ∈ new) ∧
         (∀ x, x ∈ new → ∀ y, edge g x y → y ∈ v') ∧
         (∀ x, x ∈ new → ∃ y, y ∈ start ∧ reach g y x).

Lemma dfs_fold_adds f (ns : list string) v p :
  (∀ node v p, node ∈ N → node ∉ v → unvisited v ≤ f →
     dfs_adds [node] v p (pygraph.dfs f g node (v, p)).1
              (pygraph.dfs f g node (v, p)).2 ∧
     node ∈ (pygraph.dfs f g node (v, p)).1) →
  (∀ y, y ∈ ns → y ∈ N) → unvisited v ≤ f →
  let acc := fold_left (λ acc each,
                          if bool_decide (each ∈ acc.1) then acc
                          else pygraph.dfs f g each acc) ns (v, p) in
  dfs_adds ns v p acc.1 acc.2 ∧ ∀ y, y ∈ ns → y ∈ acc.1.
Proof.
  intros IH. revert v p. induction ns as [|n ns IHns]; intros v p Hns Hf.
  { simpl. split; [|by intros y H; apply elem_of_nil in H].
    exists []. rewrite app_nil_r. split; [done|].
    split; [intros x; rewrite elem_of_nil; tauto|].
    split; intros x Hx; by apply elem_of_nil in Hx. }
  simpl. destruct (bool_decide (n ∈ v)) eqn:Hn.
  - apply bool_decide_eq_true in Hn. simpl.
    destruct (IHns v p) as [(new & Hp & Hv & Hcl & Hre) Hin];
      [intros; apply Hns; by right|done|].
    split.
    + exists new. split; [done|]. split; [done|]. split; [done|].
      intros x Hx. destruct (Hre x Hx) as (y & Hy & ?). exists y.
      split; [by right|done].
    + intros y Hy. apply elem_of_cons in Hy as [->|Hy]; [|by apply Hin].
      apply Hv. by left.
  - apply bool_decide_eq_false in Hn.
    destruct (IH n v p) as [(new1 & Hp1 & Hv1 & Hcl1 & Hre1) Hin1];
      [apply Hns; left|done|done|].
    destruct (pygraph.dfs f g n (v, p)) as [v1 p1] eqn:Hd. simpl in *.
    destruct (IHns v1 p1) as [(new2 & Hp2 & Hv2 & Hcl2 & Hre2) Hin2].
    { intros; apply Hns; by right. }
    { etrans; [|exact Hf]. apply unvisited_mono. intros x Hx.
      apply Hv1. by left. }
    split.
    + exists (new1 ++ new2). split; [by rewrite Hp2, Hp1, app_assoc|].
      split.
      { intros x. rewrite Hv2, Hv1, elem_of_app. tauto. }
      split.
      * intros x Hx y Hxy. apply elem_of_app in Hx as [Hx|Hx].
        -- apply Hv2. left. by eapply Hcl1.
        -- by eapply Hcl2.
      * intros x Hx. apply elem_of_app in Hx as [Hx|Hx].
        -- destruct (Hre1 x Hx) as (y & Hy & ?).
           apply list_elem_of_singleton in Hy as ->. exists n.
           split; [left|done].
        -- destruct (Hre2 x Hx) as (y & Hy & ?). exists y.
           split; [by right|done].
    + intros y Hy. apply elem_of_cons in Hy as [->|Hy]; [|by apply Hin2].
      apply Hv2. by left.
Qed.

Lemma dfs_adds_node f : ∀ node v p,
  node ∈ N → node ∉ v → unvisited v ≤ f →
  dfs_adds [node] v p (pygraph.dfs f g node (v, p)).1
           (pygraph.dfs f g node (v, p)).2 ∧
  node ∈ (pygraph.dfs f g node (v, p)).1.
Proof.
  induction f as [|f IH]; intros node v p HN Hv Hf.
  { pose proof (unvisited_cons v N node HN Hv). lia. }
  simpl.
  destruct (dfs_fold_adds f (pygraph.neighbors g node) (node :: v) p IH)
    as [(new & Hp & Hvis & Hcl & Hre) Hin].
  { intros y Hy. by apply (edge_nodes node y). }
  { pose proof (unvisited_cons v N node HN Hv). lia. }
  set (acc := fold_left _ _ _) in *.
  split; [|apply Hvis; left; left].
  exists (new ++ [node]). split; [by rewrite Hp, app_assoc|].
  split.
  { intros x. rewrite Hvis, elem_of_app, elem_of_cons, list_elem_of_singleton.
    tauto. }
  split.
  - intros x Hx y Hxy. apply elem_of_app in Hx as [Hx|Hx]; [by eapply Hcl|].
    apply list_elem_of_singleton in Hx as ->. by apply Hin.
  - intros x Hx. exists node. split; [left|].
    apply elem_of_app in Hx as [Hx|Hx].
    + destruct (Hre x Hx) as (y & Hy & Hyx).
      eapply rtc_l; [exact Hy|exact Hyx].
    + apply list_elem_of_singleton in Hx as ->. apply rtc_refl.
Qed.

Lemma depth_first_search_None root :
  pygraph.depth_first_search g root = None ↔ root ∉ N.
Proof.
  unfold pygraph.depth_first_search.
  destruct (pygraph.has_node g root) eqn:H.
  - apply has_node_spec in H. split; [done|tauto].
  - split; [|done]. intros _ Hin. apply has_node_spec in Hin. congruence.
Qed.

(** The postordering of [depth_first_search] from a node lists what the
    node reaches. *)
Lemma depth_first_search_reach root post :
  pygraph.depth_first_search g root = Some post →
  root ∈ N ∧ ∀ y, y ∈ post ↔ reach g root y.
Proof.
  unfold pygraph.depth_first_search.
  destruct (pygraph.has_node g root) eqn:H; [|done].
  apply has_node_spec in H. intros [= <-]. split; [done|].
  destruct (dfs_adds_node (length N) root [] [] H)
    as [(new & Hp & Hvis & Hcl & Hre) Hin].
  { apply not_elem_of_nil. }
  { apply length_filter. }
  simpl in Hp. rewrite Hp. intros y. split.
  - intros Hy. destruct (Hre y Hy) as (r & Hr & ?).
    by apply list_elem_of_singleton in Hr as ->.
  - intros Hr.
    assert (root ∈ new) as Hroot.
    { apply Hvis in Hin as [Hin|Hin]; [by apply elem_of_nil in Hin|done]. }
    assert (∀ x z, reach g x z → x ∈ new → z ∈ new) as Hall; [|by eauto].
    clear Hr Hroot y. intros x z Hr.
    induction Hr as [x|x y z Hxy Hyz IH]; [done|].
    intros Hx. apply IH. specialize (Hcl x Hx y Hxy).
    apply Hvis in Hcl as [Hcl|Hcl]; [by apply elem_of_nil in Hcl|done].
Qed.

End DfsFacts.

(** ** One pass over the graph *)

Section PassFacts.
Context {W Val Exc : Type}.
Implicit Types s : @State W Val Exc.
Implicit Types d : @DoJobber W Val Exc.

Lemma dfs_ext g g' :
  pygraph.node_neighbors g' = pygraph.node_neighbors g →
  ∀ f node vp, pygraph.dfs f g' node vp = pygraph.dfs f g node vp.
Proof.
  intros H f. induction f as [|f IH]; intros node vp; [done|].
  simpl. unfold pygraph.neighbors. rewrite H.
  generalize (default [] (odict.get node (pygraph.node_neighbors g))).
  intros l. generalize (node :: vp.1, vp.2). 
  induction l as [|a l IHl]; intros acc; simpl; [done|].
  rewrite IH. by rewrite IHl.
Qed.

Lemma depth_first_search_ext g g' :
  pygraph.node_neighbors g' = pygraph.node_neighbors g →
  ∀ n, pygraph.depth_first_search g' n = pygraph.depth_first_search g n.
Proof.
  intros H n. unfold pygraph.depth_first_search, pygraph.has_node, pygraph.nodes.
  rewrite H. destruct (odict.mem _ _); [|done]. by rewrite (dfs_ext g g' H).
Qed.

Lemma pass_step_refl s : pass_step s s.
Proof. split; auto. Qed.

Lemma pass_step_trans s1 s2 s3 :
  pass_step s1 s2 → pass_step s2 s3 → pass_step s1 s3.
Proof.
  intros [] []. split; try congruence; auto.
  - intros m Hm. destruct (ps_new1 m Hm) as [H|H].
    + destruct (ps_new0 m H) as [?|?]; [by left|right].
      rewrite <- ps_phase0. apply ps_last1. by rewrite ps_phase0.
    + right. by rewrite <- ps_phase0.
  - intros m Hm. rewrite <- ps_phase0. apply ps_last1.
    rewrite ps_phase0. by apply ps_last0.
Qed.

Lemma status_true_mark_untested n m d :
  status_true (mark_untested n d) m = status_true d m.
Proof.
  unfold mark_untested. destruct (nodestatus d !! n) eqn:Hn; [done|].
  unfold status_true. simpl. destruct (decide (n = m)) as [->|?].
  - by rewrite lookup_insert_eq, Hn.
  - by rewrite lookup_insert_ne.
Qed.

Lemma pass_step_mark_untested n s : pass_step s (upd_dj (mark_untested n) s).
Proof.
  split; simpl.
  - unfold mark_untested. by destruct (nodestatus (dj s) !! n).
  - unfold mark_untested. by destruct (nodestatus (dj s) !! n).
  - intros m. by rewrite status_true_mark_untested.
  - intros m. rewrite status_true_mark_untested. by left.
  - intros m. unfold mark_untested, lastphase_is.
    by destruct (nodestatus (dj s) !! n).
  - intros m. unfold mark_untested.
    destruct (nodestatus (dj s) !! n) eqn:Hn; [done|]. simpl.
    rewrite lookup_insert_is_Some. destruct (decide (n = m)); auto.
Qed.

(** An attempt of a node that is not successful, or that was already
    attempted in this phase, is a step of the phase. *)
Lemma pass_step_attempt n s :
  status_true (dj s) n = false ∨ lastphase_is (dj s) n (_run_phase (dj s)) →
  pass_step s (attempt n s).1.
Proof.
  intros Hn.
  destruct (attempt_cases n s) as [->|(r & Hr & Hph & Ht & ->)];
    [apply pass_step_refl|].
  destruct Hn as [Hn|(r' & Hr' & Hl)]; [|rewrite Hr in Hr'; injection Hr' as <-; lia].
  simpl. set (s1 := charged n r s).
  destruct (run_job_effect n s1) as ([b Hb] & Hretry & Hphase & _).
  pose proof (frame_run_job n s1) as [].
  assert (∀ m, m ≠ n → status_true (dj (run_job n s1)) m = status_true (dj s) m)
    as Hother.
  { intros m Hm. by destruct (run_job_status_other n m s1 Hm) as [-> _]. }
  split.
  - by rewrite Hphase.
  - by rewrite fr_neighbors0.
  - intros m Hm. rewrite Hother; [done|]. intros ->. congruence.
  - intros m Hm. destruct (decide (m = n)) as [->|Hne].
    + right. unfold lastphase_is. rewrite Hretry. subst s1. simpl. eexists.
      rewrite odict_get_set_eq. done.
    + left. by rewrite <- Hother.
  - intros m (rm & Hrm & Hlm). unfold lastphase_is. rewrite Hretry.
    subst s1. simpl.
    destruct (decide (n = m)) as [<-|Hne].
    + eexists. by rewrite odict_get_set_eq.
    + exists rm. by rewrite odict_get_set_ne.
  - intros m Hm. rewrite Hb. subst s1. simpl.
    rewrite lookup_insert_is_Some. destruct (decide (n = m)); auto.
Qed.

End PassFacts.

Section PassStep.
Context {W Val Exc : Type}.
Implicit Types s : @State W Val Exc.
Implicit Types P : @State W Val Exc → Prop.

(** The loop over the dependencies calls [_checknrun] only on nodes that
    are not successful: a property kept by such calls is kept by the loop. *)
Lemma deps_loop_preserves_cond P (rec : string → @State W Val Exc → _) x post :
  (∀ d s, d ∈ post → d ≠ x → P s → status_true (dj s) d = false →
          P (rec d s).1) →
  ∀ b s, P s → P (deps_loop rec x post b s).1.1.
Proof.
  induction post as [|dep rest IH]; intros Hrec b s Hs; [done|].
  simpl. destruct (decide (dep = x)) as [->|Hne].
  { apply IH; [|done]. intros d s' Hd. apply Hrec. by right. }
  destruct (status_true (dj s) dep) eqn:Hst.
  - apply IH; [|done]. intros d s' Hd. apply Hrec. by right.
  - specialize (Hrec dep s (list_elem_of_here _ _) Hne Hs Hst) as H1.
    destruct (rec dep s) as [s1 fl]. simpl in H1.
    destruct fl; [|done..].
    apply IH; [|done]. intros d s' Hd. apply Hrec. by right.
Qed.

(** When the loop ends normally and the node is not blocked, every
    dependency is successful at the end of the loop. *)
Lemma deps_loop_unblocked (rec : string → @State W Val Exc → _) x post :
  (∀ d s, status_true (dj s) d = false →
          ∀ m, status_true (dj s) m = true →
               status_true (dj (rec d s).1) m = true) →
  ∀ b s,
    (deps_loop rec x post b s).1.2 = Normal →
    (deps_loop rec x post b s).2 = false →
    b = false ∧
    ∀ d, d ∈ post → d ≠ x →
         status_true (dj (deps_loop rec x post b s).1.1) d = true.
Proof.
  intros Hrec.
  assert (∀ post b s m,
            status_true (dj s) m = true →
            status_true (dj (deps_loop rec x post b s).1.1) m = true) as Hkeep.
  { intros post' b s m. apply (deps_loop_preserves_cond
      (λ s', status_true (dj s') m = true)).
    intros d s' _ _ Hm Hd. by apply Hrec. }
  induction post as [|dep rest IH]; intros b s Hfl Hb.
  { simpl in *. split; [done|]. intros d Hd. by apply elem_of_nil in Hd. }
  simpl in *. destruct (decide (dep = x)) as [->|Hne].
  { destruct (IH b s Hfl Hb) as [-> Hall]. split; [done|].
    intros d Hd Hdx. apply elem_of_cons in Hd as [->|Hd]; [done|].
    by apply Hall. }
  destruct (status_true (dj s) dep) eqn:Hst.
  - simpl in *. rewrite Hst in *. simpl in *. rewrite orb_false_r in *.
    destruct (IH b s Hfl Hb) as [-> Hall]. split; [done|].
    intros d Hd Hdx. apply elem_of_cons in Hd as [->|Hd]; [|by apply Hall].
    by apply Hkeep.
  - destruct (rec dep s) as [s1 fl] eqn:Hr.
    destruct fl; [|done..].
    destruct (IH _ s1 Hfl Hb) as [Hor Hall].
    apply orb_false_iff in Hor as [-> Hdep]. split; [done|].
    apply negb_false_iff in Hdep.
    intros d Hd Hdx. apply elem_of_cons in Hd as [->|Hd]; [|by apply Hall].
    by apply Hkeep.
Qed.

(** A call of [_checknrun] on a node that is not successful is a step of
    the phase. *)
Lemma pass_step__checknrun_at f : ∀ x s,
  status_true (dj s) x = false → pass_step s (_checknrun_at f x s).1.
Proof.
  induction f as [|f IH]; intros x s Hx; [apply pass_step_refl|].
  simpl. destruct (pygraph.depth_first_search _ x) as [post|];
    [|apply pass_step_refl].
  assert (pass_step s (deps_loop (_checknrun_at f) x post false s).1.1) as Hl.
  { apply (deps_loop_preserves_cond (pass_step s)); [|apply pass_step_refl].
    intros d s' _ _ Hs' Hd. eapply pass_step_trans; [done|]. by apply IH. }
  destruct (deps_loop _ x post false s) as [[s1 fl] blocked]. simpl in Hl.
  destruct fl; [|done..].
  assert (pass_step s (upd_dj (mark_untested x) s1)) as Hm
    by (eapply pass_step_trans; [done|apply pass_step_mark_untested]).
  destruct blocked; [done|].
  eapply pass_step_trans; [done|]. apply pass_step_attempt.
  destruct (status_true (dj (upd_dj (mark_untested x) s1)) x) eqn:Hx2;
    [|by left].
  right. destruct (ps_new _ _ Hm x Hx2) as [?|Hlast]; [congruence|].
  by rewrite (ps_phase _ _ Hm).
Qed.

End PassStep.

Section PassInvariant.
Context {W Val Exc : Type}.
Implicit Types s : @State W Val Exc.
Variable g : pygraph.digraph.
Hypothesis closed : graph_closed g = true.
Variable top : string.

(** The state of a run on the graph [g] aimed at [top]. *)
Definition good (s : @State W Val Exc) : Prop :=
  pygraph.node_neighbors (graph (dj s)) = pygraph.node_neighbors g ∧
  success_closed g (dj s) ∧ status_within g top (dj s).

Definition run_step (s s' : @State W Val Exc) : Prop :=
  good s' ∧ ∃ evs, calls s' = calls s ++ evs ∧ attempts_unblocked g evs.

Lemma attempts_unblocked_nil : attempts_unblocked g [].
Proof. intros n p seen H. by apply elem_of_nil in H. Qed.

Lemma attempts_unblocked_app evs evs' :
  attempts_unblocked g evs → attempts_unblocked g evs' →
  attempts_unblocked g (evs ++ evs').
Proof.
  intros H1 H2 n p seen Hin. apply elem_of_app in Hin as [?|?]; eauto.
Qed.

Lemma shape_no_attempt_events n b evs st m p seen :
  attempt_shape n b evs st → EvAttempt m p seen ∉ evs.
Proof.
  intros Hs Hin. destruct Hs;
    repeat (apply elem_of_cons in Hin as [Hin|Hin]; [discriminate Hin|]);
    by apply elem_of_nil in Hin.
Qed.

Lemma run_step_refl s : good s → run_step s s.
Proof.
  intros H. split; [done|]. exists []. rewrite app_nil_r.
  split; [done|apply attempts_unblocked_nil].
Qed.

Lemma run_step_trans s1 s2 s3 :
  run_step s1 s2 → run_step s2 s3 → run_step s1 s3.
Proof.
  intros [_ (e1 & H1 & U1)] [G3 (e2 & H2 & U2)]. split; [done|].
  exists (e1 ++ e2). rewrite H2, H1, app_assoc. split; [done|].
  by apply attempts_unblocked_app.
Qed.

Lemma good_post s x post :
  good s → pygraph.depth_first_search (graph (dj s)) x = Some post →
  ∀ y, y ∈ post ↔ reach g x y.
Proof.
  intros (Hn & _) Hd. rewrite (depth_first_search_ext g _ Hn) in Hd.
  by destruct (depth_first_search_reach g closed x post Hd).
Qed.

Lemma good_mark_untested x s :
  good s → reach g top x → good (upd_dj (mark_untested x) s).
Proof.
  intros (Hn & Hc & Hw) Hx. split; [|split].
  - simpl. unfold mark_untested. by destruct (nodestatus (dj s) !! x).
  - intros n m. simpl. rewrite !status_true_mark_untested. apply Hc.
  - intros n. simpl. unfold mark_untested.
    destruct (nodestatus (dj s) !! x) eqn:Hxs; [apply Hw|]. simpl.
    rewrite lookup_insert_is_Some. intros [<-|[_ ?]]; [done|by apply Hw].
Qed.

(** The attempt of a node all of whose dependencies are successful. *)
Lemma run_step_attempt x s :
  good s → reach g top x →
  status_true (dj s) x = false ∨ lastphase_is (dj s) x (_run_phase (dj s)) →
  (∀ d, reach g x d → d ≠ x → status_true (dj s) d = true) →
  run_step s (attempt x s).1.
Proof.
  intros Hgood Hx Hfalse Hdeps.
  destruct (attempt_cases x s) as [->|(r & Hr & Hph & Ht & ->)];
    [by apply run_step_refl|].
  destruct Hfalse as [Hfalse|(r' & Hr' & Hl)];
    [|rewrite Hr in Hr'; injection Hr' as <-; lia].
  destruct Hgood as (Hn & Hc & Hw).
  simpl. set (s1 := charged x r s).
  destruct (run_job_shape x s1) as (evs1 & Hc1 & Hshape).
  destruct (run_job_effect x s1) as ([b Hb] & _).
  pose proof (frame_run_job x s1) as [].
  assert (∀ m, m ≠ x → status_true (dj (run_job x s1)) m = status_true (dj s) m)
    as Hother.
  { intros m Hm. by destruct (run_job_status_other x m s1 Hm) as [-> _]. }
  split; [split; [|split]|].
  - by rewrite fr_neighbors0.
  - intros n m Hnt Hnm. destruct (decide (m = x)) as [->|Hmx].
    + destruct (decide (n = x)) as [->|Hnx]; [done|].
      rewrite Hother in Hnt by done.
      pose proof (Hc n x Hnt Hnm). congruence.
    + rewrite Hother by done.
      destruct (decide (n = x)) as [->|Hnx]; [by apply Hdeps|].
      rewrite Hother in Hnt by done. by eapply Hc.
  - intros n. rewrite Hb. subst s1. simpl. rewrite lookup_insert_is_Some.
    intros [<-|[_ ?]]; [done|by apply Hw].
  - exists (EvAttempt x (_run_phase (dj s)) (nodestatus (dj s)) :: evs1).
    split.
    { rewrite Hc1. subst s1. simpl. by rewrite <- app_assoc. }
    intros n p seen Hin d Hnd Hne.
    apply elem_of_cons in Hin as [Hin|Hin].
    + injection Hin as -> -> ->. apply status_true_spec. by apply Hdeps.
    + by apply (shape_no_attempt_events _ _ _ _ n p seen Hshape) in Hin.
Qed.

(** A call of [_checknrun] on a node that the target reaches and that is
    not successful keeps the state good, and the attempts it makes are
    unblocked. *)
Lemma run_step__checknrun_at f : ∀ x s,
  good s → status_true (dj s) x = false → reach g top x →
  run_step s (_checknrun_at f x s).1.
Proof.
  induction f as [|f IH]; intros x s Hgood Hx Hreach;
    [by apply run_step_refl|].
  simpl. destruct (pygraph.depth_first_search _ x) as [post|] eqn:Hdfs;
    [|by apply run_step_refl].
  pose proof (good_post s x post Hgood Hdfs) as Hpost.
  assert (run_step s (deps_loop (_checknrun_at f) x post false s).1.1) as Hl.
  { apply (deps_loop_preserves_cond (run_step s)); [|by apply run_step_refl].
    intros d s' Hd _ Hs' Hdf. eapply run_step_trans; [done|].
    apply IH; [by destruct Hs'|done|].
    etrans; [exact Hreach|]. by apply Hpost. }
  assert (pass_step s (deps_loop (_checknrun_at f) x post false s).1.1) as Hp.
  { apply (deps_loop_preserves_cond (pass_step s)); [|apply pass_step_refl].
    intros d s' _ _ Hs' Hd. eapply pass_step_trans; [done|].
    by apply pass_step__checknrun_at. }
  pose proof (deps_loop_unblocked (W:=W) (Val:=Val) (Exc:=Exc)
                (_checknrun_at f) x post
                (λ d s' Hd, ps_kept _ _ (pass_step__checknrun_at f d s' Hd))
                false s) as Hun.
  destruct (deps_loop _ x post false s) as [[s1 fl] blocked].
  simpl in Hl, Hp, Hun.
  destruct fl; [|done..].
  assert (run_step s (upd_dj (mark_untested x) s1)) as Hm.
  { eapply run_step_trans; [done|]. split.
    - apply good_mark_untested; [by destruct Hl|done].
    - exists []. simpl. rewrite app_nil_r.
      split; [done|apply attempts_unblocked_nil]. }
  assert (pass_step s (upd_dj (mark_untested x) s1)) as Hpm
    by (eapply pass_step_trans; [done|apply pass_step_mark_untested]).
  destruct blocked; [done|].
  eapply run_step_trans; [done|].
  apply run_step_attempt; [by destruct Hm|done| |].
  - destruct (status_true (dj (upd_dj (mark_untested x) s1)) x) eqn:Hx2;
      [|by left].
    right. destruct (ps_new _ _ Hpm x Hx2) as [?|Hlast]; [congruence|].
    by rewrite (ps_phase _ _ Hpm).
  - intros d Hd Hne. simpl. rewrite status_true_mark_untested.
    destruct Hun as [_ Hall]; [done..|]. apply Hall; [|done]. by apply Hpost.
Qed.

(** A successful target means overall success. *)
Lemma good_success s :
  good s → status_true (dj s) top = true → success (dj s) = true.
Proof.
  intros (_ & Hc & Hw) Ht. unfold success.
  apply andb_true_iff. split; apply bool_decide_eq_true.
  - intros Hempty. apply status_true_spec in Ht.
    by rewrite Hempty, lookup_empty in Ht.
  - intros n v Hn.
    assert (status_true (dj s) n = true) as Hs.
    { eapply Hc; [exact Ht|]. apply Hw. by rewrite Hn. }
    apply status_true_spec in Hs. congruence.
Qed.

(** The loop of [checknrun] on a run aimed at [top]. *)
Lemma run_step_checknrun_loop f : ∀ node trynum s,
  target (dj s) node = Some top →
  good s → status_true (dj s) top = false →
  run_step s (checknrun_loop f node trynum s).1.1.
Proof.
  induction f as [|f IH]; intros node tn s Htop Hgood Hfalse;
    [by apply run_step_refl|].
  simpl.
  assert (run_step s (_checknrun (depth_bound (dj s)) node s).1) as H1.
  { unfold _checknrun, target in *. destruct (given node) as [n|].
    - injection Htop as ->.
      apply run_step__checknrun_at; [done|done|apply rtc_refl].
    - destruct (_root (dj s)) as [root|]; [|by apply run_step_refl].
      simpl in Htop. injection Htop as Hname. rewrite Hname.
      apply run_step__checknrun_at; [done|done|apply rtc_refl]. }
  pose proof (frame__checknrun (depth_bound (dj s)) node s) as Hfr.
  destruct (_checknrun _ node s) as [s1 fl]. simpl in H1, Hfr.
  destruct fl; [|done..].
  destruct (success (dj s1)) eqn:Hsucc; [done|].
  set (s2 := upd_dj _ s1).
  assert (good s2) as Hg2 by (by destruct H1).
  assert (run_step s s2) as H2.
  { destruct H1 as [_ (evs & ? & ?)]. split; [done|]. by exists evs. }
  destruct (retriable _) as [x|[|x xs]]; [exact H2|exact H2|].
  destruct (_no_act (dj s1)); [exact H2|].
  eapply run_step_trans; [exact H2|]. apply IH; [|done|].
  - unfold target in *. destruct (given node); [done|]. simpl.
    by rewrite (fr_root _ _ Hfr).
  - destruct (status_true (dj s2) top) eqn:Ht; [|done].
    destruct H1 as [Hg1 _]. pose proof (good_success s1 Hg1 Ht). congruence.
Qed.

End PassInvariant.

Section BlockedTheorem.
Context {W Val Exc : Type}.
Implicit Types s : @State W Val Exc.

Lemma attempts_of_pos n p seen evs :
  EvAttempt n p seen ∈ evs → 0 < attempts_of n evs.
Proof.
  intros Hin. apply list_elem_of_split in Hin as (l1 & l2 & ->).
  rewrite attempts_of_app. unfold attempts_of at 2. simpl.
  rewrite bool_decide_eq_true_2 by done. simpl. lia.
Qed.

Lemma good_begin_run g top s :
  pygraph.node_neighbors (graph (dj s)) = pygraph.node_neighbors g →
  good g top (begin_run s) ∧ ∀ n, status_true (dj (begin_run s)) n = false.
Proof.
  intros Hn.
  assert (∀ n, status_true (dj (begin_run s)) n = false) as Hf.
  { intros n. unfold status_true. simpl. by rewrite lookup_empty. }
  split; [|done]. split; [done|]. split.
  - intros n m Hnt. by rewrite Hf in Hnt.
  - intros n. simpl. rewrite lookup_empty. by intros [? ?].
Qed.

(** What a whole run keeps: the state is good for the target and the
    attempts were unblocked. *)
Lemma run_step_checknrun fuel node s top :
  graph_closed (graph (dj s)) = true →
  target (dj s) node = Some top →
  run_step (graph (dj s)) top s (checknrun fuel node s).1.
Proof.
  intros Hcl Htop. set (g := graph (dj s)).
  destruct (good_begin_run g top s eq_refl) as [Hg0 Hf0].
  pose proof (run_step_checknrun_loop g Hcl top fuel node 0 (begin_run s)
                Htop Hg0 (Hf0 top)) as Hl.
  unfold checknrun.
  destruct (checknrun_loop fuel node 0 (begin_run s)) as [[s1 fl] tn].
  simpl in Hl.
  assert (run_step g top s s1) as Hs1.
  { destruct Hl as [? (evs & ? & ?)]. split; [done|]. by exists evs. }
  destruct fl; [|done..]. destruct (_cleanup (dj s1)); [|done].
  destruct (cleanup_no_attempts s1) as (Hd & xs & Hxs & Hno).
  destruct Hs1 as [Hg1 (evs & Hc & Hun)]. split.
  - destruct Hg1 as (? & ? & ?). unfold good, success_closed, status_within.
    unfold status_true. by rewrite Hd.
  - exists (evs ++ xs). rewrite Hxs, Hc, app_assoc. split; [done|].
    apply attempts_unblocked_app; [done|].
    intros n p seen Hin. apply attempts_of_pos in Hin. rewrite Hno in Hin. lia.
Qed.

(** C3.  In a run, every attempt of a node is made at a moment when all
    the nodes it depends on, directly or through others, are successful;
    when the run is over, a successful node depends only on successful
    nodes.  In [_checknrun], when the loop over the dependencies ends with
    one of them not successful, the node is not attempted: it is marked
    untested if it has no status yet and otherwise keeps the status it
    has. *)
Theorem blocked_nodes_are_not_attempted fuel node s :
  graph_closed (graph (dj s)) = true →
  attempts_unblocked (graph (dj s)) (since s (checknrun fuel node s).1) ∧
  success_closed (graph (dj s)) (dj (checknrun fuel node s).1) ∧
  (∀ f x (s1 : @State W Val Exc) post,
     pygraph.depth_first_search (graph (dj s1)) x = Some post →
     (deps_loop (_checknrun_at f) x post false s1).1.2 = Normal →
     (∃ d, d ∈ post ∧ d ≠ x ∧
           status_true (dj (deps_loop (_checknrun_at f) x post false s1).1.1) d
           = false) →
     _checknrun_at (S f) x s1
     = (upd_dj (mark_untested x)
               (deps_loop (_checknrun_at f) x post false s1).1.1, Normal) ∧
     nodestatus (dj (_checknrun_at (S f) x s1).1) !! x
     = Some (default None
               (nodestatus
                  (dj (deps_loop (_checknrun_at f) x post false s1).1.1) !! x)) ∧
     calls (_checknrun_at (S f) x s1).1
     = calls (deps_loop (_checknrun_at f) x post false s1).1.1).
Proof.
  intros Hcl. split; [|split].
  - destruct (target (dj s) node) as [top|] eqn:Htop.
    + destruct (run_step_checknrun fuel node s top Hcl Htop)
        as [_ (evs & Hc & Hun)].
      by rewrite (since_app _ _ _ Hc).
    + unfold target in Htop. destruct (given node) eqn:Hgiven; [done|].
      destruct (_root (dj s)) eqn:Hroot; [done|].
      unfold checknrun. destruct fuel; simpl; unfold _checknrun;
        rewrite ?Hgiven; simpl; rewrite ?Hroot; simpl;
        unfold since; simpl; rewrite drop_all;
        intros n p seen H; by apply elem_of_nil in H.
  - destruct (target (dj s) node) as [top|] eqn:Htop.
    + by destruct (run_step_checknrun fuel node s top Hcl Htop)
        as [(_ & ? & _) _].
    + unfold target in Htop. destruct (given node) eqn:Hgiven; [done|].
      destruct (_root (dj s)) eqn:Hroot; [done|].
      intros n m Hn. exfalso. revert Hn.
      unfold checknrun. destruct fuel; simpl; unfold _checknrun;
        rewrite ?Hgiven; simpl; rewrite ?Hroot; simpl;
        unfold status_true; simpl; by rewrite lookup_empty.
  - intros f x s1 post Hdfs Hfl (d & Hd & Hdx & Hdf).
    pose proof (deps_loop_unblocked (W:=W) (Val:=Val) (Exc:=Exc)
                  (_checknrun_at f) x post
                  (λ d s' Hd, ps_kept _ _ (pass_step__checknrun_at f d s' Hd))
                  false s1 Hfl) as Hun.
    simpl. rewrite Hdfs.
    destruct (deps_loop (_checknrun_at f) x post false s1)
      as [[s2 fl] blocked]. simpl in *. subst fl.
    destruct blocked.
    2:{ destruct Hun as [_ Hall]; [done|]. rewrite Hall in Hdf; done. }
    split; [done|]. simpl. split; [|done].
    unfold mark_untested. destruct (nodestatus (dj s2) !! x) eqn:Hx; simpl.
    + by rewrite Hx.
    + by rewrite lookup_insert_eq.
Qed.

End BlockedTheorem.

(** ** Acyclic graphs and the depth of the recursion *)

Section WeightFacts.
Variable g : pygraph.digraph.
Hypothesis closed : graph_closed g = true.

Lemma acyclicb_acyclic : acyclicb g = true → acyclic g.
Proof.
  unfold acyclicb. rewrite forallb_forall. intros Hall x y Hxy Hyx.
  destruct (edge_nodes g closed x y Hxy) as [Hx Hy].
  specialize (Hall x (proj1 (list_elem_of_In _ _) Hx)).
  rewrite forallb_forall in Hall.
  specialize (Hall y (proj1 (list_elem_of_In _ _) Hxy)).
  apply negb_true_iff, bool_decide_eq_false in Hall. apply Hall.
  destruct (pygraph.depth_first_search g y) as [post|] eqn:Hd.
  - simpl. by apply (depth_first_search_reach g closed y post Hd).
  - by apply depth_first_search_None in Hd.
Qed.

Lemma reach_nodes x y : reach g x y → x ∈ pygraph.nodes g → y ∈ pygraph.nodes g.
Proof.
  induction 1 as [|x y z Hxy _ IH]; [done|].
  intros _. apply IH. by destruct (edge_nodes g closed x y Hxy).
Qed.

Lemma depth_first_search_Some x :
  x ∈ pygraph.nodes g → ∃ post, pygraph.depth_first_search g x = Some post.
Proof.
  intros Hx. destruct (pygraph.depth_first_search g x) eqn:Hd; [eauto|].
  by apply depth_first_search_None in Hd.
Qed.

Lemma weight_pos x : x ∈ pygraph.nodes g → 0 < weight g x.
Proof.
  intros Hx. destruct (depth_first_search_Some x Hx) as [post Hd].
  unfold weight. rewrite Hd. simpl.
  assert (x ∈ (list_to_set post : gset string)) as Hin.
  { apply elem_of_list_to_set.
    apply (depth_first_search_reach g closed x post Hd). apply rtc_refl. }
  destruct (decide (size (list_to_set post : gset string) = 0)) as [H0|]; [|lia].
  apply size_empty_inv in H0. by apply H0 in Hin.
Qed.

Lemma weight_lt x d :
  acyclic g → x ∈ pygraph.nodes g → reach g x d → d ≠ x →
  weight g d < weight g x.
Proof.
  intros Hac Hx Hxd Hne.
  pose proof (reach_nodes x d Hxd Hx) as Hd.
  destruct (depth_first_search_Some x Hx) as [px Hpx].
  destruct (depth_first_search_Some d Hd) as [pd Hpd].
  unfold weight. rewrite Hpx, Hpd. simpl.
  destruct (depth_first_search_reach g closed x px Hpx) as [_ Hrx].
  destruct (depth_first_search_reach g closed d pd Hpd) as [_ Hrd].
  apply subset_size. split.
  - intros y. rewrite !elem_of_list_to_set, Hrx, Hrd. intros Hdy.
    by etrans.
  - intros Hsub.
    assert (x ∈ (list_to_set pd : gset string)) as Hin.
    { apply Hsub, elem_of_list_to_set, Hrx, rtc_refl. }
    apply elem_of_list_to_set, Hrd in Hin.
    apply rtc_inv in Hxd as [->|(y & Hxy & Hyd)]; [done|].
    apply (Hac x y Hxy). by etrans.
Qed.

Lemma weight_le x : weight g x ≤ length (pygraph.nodes g).
Proof.
  unfold weight. destruct (pygraph.depth_first_search g x) as [post|] eqn:Hd.
  2:{ simpl. change (size (∅ : gset string) ≤ length (pygraph.nodes g)).
      rewrite size_empty. lia. }
  simpl. unfold size, set_size. simpl.
  apply submseteq_length, NoDup_submseteq; [apply NoDup_elements|].
  intros y Hy. apply elem_of_elements, elem_of_list_to_set in Hy.
  destruct (depth_first_search_reach g closed x post Hd) as [Hx Hr].
  apply Hr in Hy. by eapply reach_nodes.
Qed.

End WeightFacts.

(** ** What a pass covers *)

Section CoverFacts.
Context {W Val Exc : Type}.
Implicit Types s : @State W Val Exc.

Lemma dom_le_refl s : dom_le s s.
Proof. by intros m. Qed.

Lemma dom_le_trans s1 s2 s3 : dom_le s1 s2 → dom_le s2 s3 → dom_le s1 s3.
Proof. intros H1 H2 m Hm. by apply H2, H1. Qed.

Lemma dom_le_mark_untested n s : dom_le s (upd_dj (mark_untested n) s).
Proof. exact (ps_dom _ _ (pass_step_mark_untested n s)). Qed.

Lemma dom_le_attempt n s : dom_le s (attempt n s).1.
Proof.
  destruct (attempt_cases n s) as [->|(r & _ & _ & _ & ->)];
    [apply dom_le_refl|].
  simpl. destruct (run_job_effect n (charged n r s)) as ([b Hb] & _).
  intros m Hm. rewrite Hb. simpl. rewrite lookup_insert_is_Some.
  destruct (decide (n = m)); auto.
Qed.

Lemma dom_le__checknrun_at f x s : dom_le s (_checknrun_at f x s).1.
Proof.
  apply (_checknrun_at_preserves (dom_le s)); [| |apply dom_le_refl].
  - intros n s' H. eapply dom_le_trans; [done|apply dom_le_mark_untested].
  - intros n s' H. eapply dom_le_trans; [done|apply dom_le_attempt].
Qed.

Lemma dom_le_checknrun_loop f node trynum s :
  dom_le s (checknrun_loop f node trynum s).1.1.
Proof.
  apply (checknrun_loop_preserves (dom_le s)); [| | |apply dom_le_refl].
  - intros n s' H. eapply dom_le_trans; [done|apply dom_le_mark_untested].
  - intros n s' H. eapply dom_le_trans; [done|apply dom_le_attempt].
  - intros s' H. done.
Qed.

(** A call of [_checknrun] that returns leaves its node with a status. *)
Lemma _checknrun_at_marks f x s :
  (_checknrun_at f x s).2 = Normal →
  is_Some (nodestatus (dj (_checknrun_at f x s).1) !! x).
Proof.
  destruct f as [|f]; [done|]. simpl.
  destruct (pygraph.depth_first_search _ x) as [post|]; [|done].
  destruct (deps_loop _ x post false s) as [[s1 fl] blocked].
  destruct fl; [|done..].
  assert (is_Some (nodestatus (dj (upd_dj (mark_untested x) s1)) !! x)) as Hm.
  { simpl. unfold mark_untested.
    destruct (nodestatus (dj s1) !! x) eqn:Hx; simpl.
    - by rewrite Hx.
    - by rewrite lookup_insert_eq. }
  destruct blocked; [done|]. intros _. by apply dom_le_attempt.
Qed.

Lemma deps_loop_marks f x post : ∀ b s,
  (deps_loop (_checknrun_at f) x post b s).1.2 = Normal →
  ∀ d, d ∈ post → d ≠ x →
       is_Some (nodestatus (dj (deps_loop (_checknrun_at f) x post b s).1.1) !! d).
Proof.
  assert (∀ post b s, dom_le s (deps_loop (_checknrun_at f) x post b s).1.1)
    as Hmono.
  { intros post' b s. apply (deps_loop_preserves (dom_le s));
      [|apply dom_le_refl].
    intros n s' H. eapply dom_le_trans; [done|apply dom_le__checknrun_at]. }
  induction post as [|dep rest IH]; intros b s Hfl d Hd Hdx.
  { by apply elem_of_nil in Hd. }
  simpl in *. destruct (decide (dep = x)) as [->|Hne].
  { apply elem_of_cons in Hd as [->|Hd]; [done|]. by apply IH. }
  destruct (status_true (dj s) dep) eqn:Hst.
  - apply elem_of_cons in Hd as [->|Hd]; [|by apply IH].
    apply Hmono. apply status_true_spec in Hst. by rewrite Hst.
  - pose proof (_checknrun_at_marks f dep s) as Hmark.
    destruct (_checknrun_at f dep s) as [s1 fl]. destruct fl; [|done..].
    apply elem_of_cons in Hd as [->|Hd]; [|by apply IH].
    apply Hmono. by apply Hmark.
Qed.

(** A call of [_checknrun] that returns leaves every node of the
    postordering with a status. *)
Lemma _checknrun_at_covers f x s post :
  pygraph.depth_first_search (graph (dj s)) x = Some post →
  (_checknrun_at f x s).2 = Normal →
  ∀ d, d ∈ post → is_Some (nodestatus (dj (_checknrun_at f x s).1) !! d).
Proof.
  intros Hdfs Hfl d Hd. destruct (decide (d = x)) as [->|Hne].
  { by apply _checknrun_at_marks. }
  destruct f as [|f]; [done|]. simpl in *. rewrite Hdfs in *.
  pose proof (deps_loop_marks f x post false s) as Hl.
  destruct (deps_loop _ x post false s) as [[s1 fl] blocked].
  destruct fl; [|done..]. simpl in Hl.
  assert (is_Some (nodestatus (dj (upd_dj (mark_untested x) s1)) !! d)) as Hm.
  { apply dom_le_mark_untested. by apply Hl. }
  destruct blocked; [done|]. by apply dom_le_attempt.
Qed.

End CoverFacts.

Section NormalFacts.
Context {W Val Exc : Type}.
Implicit Types s : @State W Val Exc.
Variable g : pygraph.digraph.
Hypothesis closed : graph_closed g = true.
Hypothesis no_cycle : acyclic g.

Lemma provided_frame s s' : frame s s' → provided g s → provided g s'.
Proof.
  intros [] [Hn Hr]. split; [congruence|]. intros n Hn'.
  rewrite fr_retry_keys0. by apply Hr.
Qed.

Lemma deps_loop_normal (rec : string → @State W Val Exc → _) x post :
  (∀ d s, d ∈ post → d ≠ x → provided g s →
          (rec d s).2 = Normal ∧ provided g (rec d s).1) →
  ∀ b s, provided g s →
         (deps_loop rec x post b s).1.2 = Normal ∧
         provided g (deps_loop rec x post b s).1.1.
Proof.
  induction post as [|dep rest IH]; intros Hrec b s Hs; [done|].
  simpl. destruct (decide (dep = x)) as [->|Hne].
  { apply IH; [|done]. intros d s' Hd. apply Hrec. by right. }
  destruct (status_true (dj s) dep).
  - apply IH; [|done]. intros d s' Hd. apply Hrec. by right.
  - destruct (Hrec dep s (list_elem_of_here _ _) Hne Hs) as [Hfl Hp].
    destruct (rec dep s) as [s1 fl]. simpl in *. subst fl.
    apply IH; [|done]. intros d s' Hd. apply Hrec. by right.
Qed.

(** On an acyclic graph the recursion of [_checknrun] is no deeper than the
    number of nodes its node reaches, and no exception escapes it. *)
Lemma _checknrun_at_normal f : ∀ x s,
  provided g s → x ∈ pygraph.nodes g → weight g x ≤ f →
  (_checknrun_at f x s).2 = Normal.
Proof.
  induction f as [|f IH]; intros x s Hs Hx Hw.
  { pose proof (weight_pos g closed x Hx). lia. }
  simpl. destruct Hs as [Hn Hr].
  rewrite (depth_first_search_ext g _ Hn).
  destruct (depth_first_search_Some g x Hx) as [post Hd]. rewrite Hd.
  destruct (depth_first_search_reach g closed x post Hd) as [_ Hpost].
  destruct (deps_loop_normal (_checknrun_at f) x post) with (b := false) (s := s)
    as [Hfl Hp]; [|done|].
  { intros d s' Hd' Hne Hs'. split.
    - apply IH; [done| |].
      + eapply reach_nodes; [done| |done]. by apply Hpost.
      + pose proof (weight_lt g closed x d no_cycle Hx) as Hlt.
        specialize (Hlt (proj1 (Hpost d) Hd') Hne). lia.
    - eapply provided_frame; [|done].
      apply (frame__checknrun_at f d s'). }
  destruct (deps_loop _ x post false s) as [[s1 fl] blocked].
  simpl in *. subst fl. destruct blocked; [done|].
  destruct (attempt_flag x (upd_dj (mark_untested x) s1)) as [?|[Hnone _]];
    [done|].
  exfalso. apply odict_get_None_keys in Hnone. apply Hnone.
  destruct Hp as [_ Hr1]. specialize (Hr1 x Hx). revert Hr1. simpl.
  unfold mark_untested. by destruct (nodestatus (dj s1) !! x).
Qed.

End NormalFacts.

(** ** Overall success *)

Section SuccessTheorem.
Context {W Val Exc : Type}.
Implicit Types s : @State W Val Exc.
Implicit Types d : @DoJobber W Val Exc.

Lemma engine_ok_spec d :
  engine_ok d = true →
  graph_closed (graph d) = true ∧ acyclic (graph d) ∧
  ∀ n, n ∈ pygraph.nodes (graph d) → n ∈ odict.keys (_retry d).
Proof.
  unfold engine_ok. rewrite !andb_true_iff. intros [[Hc Ha] Hr].
  split; [done|]. split; [by apply acyclicb_acyclic|].
  intros n Hn. rewrite forallb_forall in Hr.
  apply odict_mem_true, Hr. by apply list_elem_of_In.
Qed.

Lemma checknrun_loop_S f node trynum s :
  checknrun_loop (S f) node trynum s
  = let '(s1, fl) := _checknrun (depth_bound (dj s)) node s in
    match fl with
    | Normal =>
        if success (dj s1) then (s1, Normal, trynum)
        else
          let s2 := upd_dj (λ d, set_run_phase (_run_phase d + 1)%Z d) s1 in
          match retriable (dj s2) with
          | inl x => (s2, Raise (KeyError x), trynum)
          | inr [] => (s2, Normal, trynum)
          | inr (_ :: _) =>
              if _no_act (dj s2) then (s2, Normal, trynum)
              else checknrun_loop f node (S trynum) s2
          end
    | _ => (s1, fl, trynum)
    end.
Proof. done. Qed.

(** After a run of at least one pass on a configured engine, every node
    the target reaches has a status. *)
Lemma checknrun_covers fuel node s top :
  engine_ok (dj s) = true → target (dj s) node = Some top →
  top ∈ pygraph.nodes (graph (dj s)) → fuel ≠ 0 →
  ∀ n, reach (graph (dj s)) top n →
       is_Some (nodestatus (dj (checknrun fuel node s).1) !! n).
Proof.
  intros Hok Htop Hin Hfuel n Hn.
  destruct (engine_ok_spec _ Hok) as (Hcl & Hac & Hretry).
  set (g := graph (dj s)) in *.
  assert (provided g (begin_run s)) as Hprov by done.
  destruct fuel as [|f]; [done|].
  assert (is_Some (nodestatus
            (dj (checknrun_loop (S f) node 0 (begin_run s)).1.1) !! n)) as Hl.
  { rewrite checknrun_loop_S.
    assert (_checknrun (depth_bound (dj (begin_run s))) node (begin_run s)
            = _checknrun_at (depth_bound (dj (begin_run s))) top (begin_run s))
      as ->.
    { unfold _checknrun, target in *. destruct (given node) as [x|].
      - by injection Htop as ->.
      - simpl. destruct (_root (dj s)); [|done]. simpl in Htop.
        by injection Htop as ->. }
    assert (weight g top ≤ depth_bound (dj (begin_run s))) as Hw.
    { unfold depth_bound. simpl. pose proof (weight_le g Hcl top). fold g. lia. }
    pose proof (_checknrun_at_normal g Hcl Hac (depth_bound (dj (begin_run s)))
                  top (begin_run s) Hprov Hin Hw) as Hfl.
    destruct (depth_first_search_Some g top Hin) as [post Hd].
    pose proof (_checknrun_at_covers (depth_bound (dj (begin_run s))) top
                  (begin_run s) post Hd Hfl) as Hcov.
    destruct (depth_first_search_reach g Hcl top post Hd) as [_ Hpost].
    specialize (Hcov n (proj2 (Hpost n) Hn)).
    destruct (_checknrun_at _ top (begin_run s)) as [s1 fl]. simpl in Hfl.
    subst fl. simpl in Hcov.
    destruct (success (dj s1)); [done|]. cbv zeta.
    destruct (retriable _) as [x|[|x xs]]; [done|done|].
    destruct (_no_act _); [done|].
    by apply dom_le_checknrun_loop. }
  unfold checknrun.
  destruct (checknrun_loop (S f) node 0 (begin_run s)) as [[s1 fl] tn].
  simpl in Hl. destruct fl; [|done..].
  destruct (_cleanup (dj s1)); [|done].
  destruct (cleanup_no_attempts s1) as (-> & _). done.
Qed.

(** C7.  After a run of a configured engine: [success] is true exactly
    when every node the target reaches is [succeeded] or
    [eventually_succeeded]; [failure] is its negation; [partial_success]
    is true exactly when some node is [succeeded] or
    [eventually_succeeded]. *)
Theorem success_reflects_statuses fuel node s top :
  engine_ok (dj s) = true → target (dj s) node = Some top →
  top ∈ pygraph.nodes (graph (dj s)) → fuel ≠ 0 →
  (success (dj (checknrun fuel node s).1) = true ↔
   ∀ n, reach (graph (dj s)) top n →
        status_of (dj (checknrun fuel node s).1) n = succeeded ∨
        status_of (dj (checknrun fuel node s).1) n = eventually_succeeded) ∧
  failure (dj (checknrun fuel node s).1)
  = negb (success (dj (checknrun fuel node s).1)) ∧
  (partial_success (dj (checknrun fuel node s).1) = true ↔
   ∃ n, status_of (dj (checknrun fuel node s).1) n = succeeded ∨
        status_of (dj (checknrun fuel node s).1) n = eventually_succeeded).
Proof.
  intros Hok Htop Hin Hfuel.
  pose proof (checknrun_covers fuel node s top Hok Htop Hin Hfuel) as Hcov.
  destruct (engine_ok_spec _ Hok) as (Hcl & _ & _).
  destruct (run_step_checknrun fuel node s top Hcl Htop)
    as [(_ & Hclosed & Hwithin) _].
  set (d' := dj (checknrun fuel node s).1) in *.
  split; [|split; [done|]].
  - unfold success. rewrite andb_true_iff, !bool_decide_eq_true. split.
    + intros [_ Hall] n Hn. apply status_of_true, status_true_spec.
      destruct (Hcov n Hn) as [v Hv]. by rewrite Hv, (Hall n v Hv).
    + intros Hall. split.
      * intros Hempty. destruct (Hcov top (rtc_refl _ _)) as [v Hv].
        by rewrite Hempty, lookup_empty in Hv.
      * intros n v Hv.
        assert (status_true d' n = true) as Hs.
        { apply status_of_true, Hall, Hwithin. by rewrite Hv. }
        apply status_true_spec in Hs. congruence.
  - unfold partial_success. rewrite andb_true_iff, !bool_decide_eq_true.
    split.
    + intros [_ (n & v & Hv & ->)]. exists n.
      by apply status_of_true, status_true_spec.
    + intros (n & Hn). apply status_of_true, status_true_spec in Hn. split.
      * intros Hempty. by rewrite Hempty, lookup_empty in Hn.
      * by exists n, (Some true).
Qed.

End SuccessTheorem.

(** ** Cycle detection *)

Section CycleFacts.
Variable g : pygraph.digraph.
Hypothesis closed : graph_closed g = true.

#[local] Abbreviation N := (pygraph.nodes g).
#[local] Abbreviation unvisited v := (length (filter (λ x, x ∉ v) N)).

Lemma path_snoc l a :
  path_in (edge g) l → (∀ z, last l = Some z → edge g z a) → path_in (edge g) (l ++ [a]).
Proof.
  induction l as [|x l IH]; [done|].
  destruct l as [|y l]; simpl.
  - intros _ H. split; [by apply H|done].
  - intros [Hxy Hp] H. split; [done|]. apply IH; [done|].
    intros z Hz. apply H. done.
Qed.

Lemma chain_rev_path l : chain g l → path_in (edge g) (rev l).
Proof.
  induction l as [|a l IH]; [done|]. simpl. intros Hc.
  destruct l as [|b l]; [done|]. destruct Hc as [Hba Hc].
  apply path_snoc; [by apply IH|].
  intros z Hz. simpl in Hz. rewrite last_snoc in Hz. by injection Hz as <-.
Qed.

Lemma chain_app_l l1 l2 : chain g (l1 ++ l2) → chain g l1.
Proof.
  induction l1 as [|a l1 IH]; [done|].
  destruct l1 as [|b l1]; [done|]. simpl. intros [H1 H2].
  split; [done|]. by apply IH.
Qed.

Lemma path_reach l a z :
  path_in (edge g) (a :: l) → last (a :: l) = Some z → reach g a z.
Proof.
  revert a. induction l as [|b l IH]; intros a Hp Hl.
  - simpl in Hl. injection Hl as <-. apply rtc_refl.
  - destruct Hp as [Hab Hp]. eapply rtc_l; [exact Hab|].
    apply IH; [done|]. by rewrite last_cons_cons in Hl.
Qed.

Lemma is_cycle_not_acyclic c : cycle_in (edge g) c → ¬ acyclic g.
Proof.
  intros (a & z & Ha & Hz & Hp & Hza) Hac.
  destruct c as [|a' l]; [done|]. simpl in Ha. injection Ha as ->.
  apply (Hac z a Hza). by eapply path_reach.
Qed.

Lemma path_to_ancestor_in stack anc acc :
  anc ∈ stack →
  ∃ pre post, stack = pre ++ anc :: post ∧
              pygraph.path_to_ancestor stack anc acc = anc :: rev pre ++ acc.
Proof.
  revert acc. induction stack as [|n up IH]; intros acc Hin.
  { by apply elem_of_nil in Hin. }
  simpl. destruct (decide (n = anc)) as [->|Hne].
  - by exists [], up.
  - apply elem_of_cons in Hin as [?|Hin]; [congruence|].
    destruct (IH (n :: acc) Hin) as (pre & post & -> & ->).
    exists (n :: pre), post. split; [done|]. simpl.
    by rewrite <- app_assoc.
Qed.

Lemma path_to_ancestor_notin stack anc acc :
  anc ∉ stack → pygraph.path_to_ancestor stack anc acc = [].
Proof.
  revert acc. induction stack as [|n up IH]; intros acc Hin; [done|].
  simpl. apply not_elem_of_cons in Hin as [? ?].
  rewrite decide_False by done. by apply IH.
Qed.

(** The path [find_cycle_to_ancestor] returns for a successor of the top of
    the stack that is on the stack is a cycle. *)
Lemma find_cycle_to_ancestor_cycle node stack each :
  chain g (node :: stack) → edge g node each → each ∈ node :: stack →
  cycle_in (edge g) (pygraph.find_cycle_to_ancestor (node :: stack) each).
Proof.
  intros Hch Hedge Hin. unfold pygraph.find_cycle_to_ancestor.
  destruct (path_to_ancestor_in _ each [] Hin) as (pre & post & Hst & ->).
  rewrite app_nil_r. exists each, node. split; [done|].
  rewrite Hst in Hch. split; [|split; [|done]].
  - destruct pre as [|p pre]; simpl in *.
    + injection Hst as Hn _. by rewrite Hn.
    + injection Hst as Hn _. subst p.
      change (each :: rev pre ++ [node]) with ((each :: rev pre) ++ [node]).
      by rewrite last_snoc.
  - replace (each :: rev pre) with (rev (pre ++ [each]))
      by (by rewrite rev_app_distr).
    apply chain_rev_path.
    replace (pre ++ each :: post) with ((pre ++ [each]) ++ post) in Hch
      by (by rewrite <- app_assoc).
    by eapply chain_app_l.
Qed.

(** What one call of the inner [dfs] of [find_cycle] leaves. *)
Definition cycle_dfs_post (stack v : list string) (node : string)
    (r : list string * list string) : Prop :=
  (∀ x, x ∈ v → x ∈ r.1) ∧ node ∈ r.1 ∧
  match r.2 with
  | [] => fin_ok g r.1 stack
  | c => cycle_in (edge g) c
  end.

Lemma cycle_fold_stops f node stack ns (v c : list string) :
  c ≠ [] →
  fold_left (λ acc each,
               match acc.2 with
               | _ :: _ => acc
               | [] =>
                   if bool_decide (each ∈ acc.1)
                   then (acc.1, pygraph.find_cycle_to_ancestor (node :: stack) each)
                   else pygraph.cycle_dfs f g each (node :: stack) acc
               end) ns (v, c) = (v, c).
Proof.
  intros Hc. induction ns as [|n ns IH]; [done|]. simpl.
  destruct c; [done|]. apply IH.
Qed.

Lemma cycle_fold_spec f node stack :
  (∀ n st v, n ∈ N → n ∉ v → unvisited v ≤ f → (∀ x, x ∈ st → x ∈ v) →
             chain g (n :: st) → fin_ok g v st →
             cycle_dfs_post st v n (pygraph.cycle_dfs f g n st (v, []))) →
  chain g (node :: stack) →
  ∀ ns v,
    (∀ y, y ∈ ns → edge g node y) → unvisited v ≤ f →
    (∀ x, x ∈ node :: stack → x ∈ v) → fin_ok g v (node :: stack) →
    let r := fold_left (λ acc each,
               match acc.2 with
               | _ :: _ => acc
               | [] =>
                   if bool_decide (each ∈ acc.1)
                   then (acc.1, pygraph.find_cycle_to_ancestor (node :: stack) each)
                   else pygraph.cycle_dfs f g each (node :: stack) acc
               end) ns (v, []) in
    (∀ x, x ∈ v → x ∈ r.1) ∧
    match r.2 with
    | [] => fin_ok g r.1 (node :: stack) ∧
            ∀ y, y ∈ ns → y ∈ r.1 ∧ y ∉ node :: stack
    | c => cycle_in (edge g) c
    end.
Proof.
  intros IHf Hch. induction ns as [|n ns IH]; intros v Hns Hf Hst Hfin.
  { simpl. split; [done|]. split; [done|].
    intros y Hy. by apply elem_of_nil in Hy. }
  assert (edge g node n) as Hedge by (apply Hns; left).
  simpl. destruct (bool_decide (n ∈ v)) eqn:Hn.
  - apply bool_decide_eq_true in Hn.
    destruct (decide (n ∈ node :: stack)) as [Hon|Hoff].
    + pose proof (find_cycle_to_ancestor_cycle node stack n Hch Hedge Hon)
        as Hcyc.
      destruct (pygraph.find_cycle_to_ancestor (node :: stack) n) as [|c0 c]
        eqn:Hfc.
      { by destruct Hcyc as (? & ? & ? & _). }
      rewrite cycle_fold_stops by done. simpl. done.
    + unfold pygraph.find_cycle_to_ancestor.
      rewrite path_to_ancestor_notin by done.
      destruct (IH v) as [Hsub Hres]; [intros; apply Hns; by right|done..|].
      split; [done|]. destruct (fold_left _ ns (v, [])).2; [|done].
      destruct Hres as [Hfin' Hall]. split; [done|].
      intros y Hy. apply elem_of_cons in Hy as [->|Hy]; [|by apply Hall].
      split; [by apply Hsub|done].
  - apply bool_decide_eq_false in Hn.
    destruct (IHf n (node :: stack) v) as (Hsub1 & Hin1 & Hres1); try done.
    { by destruct (edge_nodes g closed node n Hedge). }
    destruct (pygraph.cycle_dfs f g n (node :: stack) (v, [])) as [v1 c1].
    simpl in *. destruct c1 as [|c0 c1].
    + destruct (IH v1) as [Hsub Hres]; [intros; apply Hns; by right| | |done|].
      { etrans; [|exact Hf]. by apply unvisited_mono. }
      { intros x Hx. by apply Hsub1, Hst. }
      split; [intros x Hx; by apply Hsub, Hsub1|].
      destruct (fold_left _ ns (v1, [])).2; [|done].
      destruct Hres as [Hfin' Hall]. split; [done|].
      intros y Hy. apply elem_of_cons in Hy as [->|Hy]; [|by apply Hall].
      split; [by apply Hsub|]. intros Hon. apply Hn. by apply Hst.
    + rewrite cycle_fold_stops by done. simpl. by split.
Qed.

Lemma cycle_dfs_spec f : ∀ node stack v,
  node ∈ N → node ∉ v → unvisited v ≤ f → (∀ x, x ∈ stack → x ∈ v) →
  chain g (node :: stack) → fin_ok g v stack →
  cycle_dfs_post stack v node (pygraph.cycle_dfs f g node stack (v, [])).
Proof.
  induction f as [|f IH]; intros node stack v HN Hv Hf Hst Hch Hfin.
  { pose proof (unvisited_cons v N node HN Hv). lia. }
  simpl.
  destruct (cycle_fold_spec f node stack IH Hch (pygraph.neighbors g node)
              (node :: v)) as [Hsub Hres].
  { done. }
  { pose proof (unvisited_cons v N node HN Hv). lia. }
  { intros x Hx. apply elem_of_cons in Hx as [->|Hx]; [left|right; by apply Hst]. }
  { intros x Hx Hoff y Hxy.
    apply elem_of_cons in Hx as [->|Hx]; [exfalso; apply Hoff; left|].
    destruct (Hfin x Hx) with (y := y) as (Hy & Hys & Hr); [|done|].
    { intros ?. apply Hoff. by right. }
    split; [by right|]. split; [|done].
    intros Hy'. apply elem_of_cons in Hy' as [->|?]; done. }
  set (r := fold_left _ _ _) in *.
  split; [intros x Hx; apply Hsub; by right|].
  split; [apply Hsub; left|].
  destruct r.2 as [|c0 c]; [|done].
  destruct Hres as [Hfin' Hall].
  assert (node ∉ stack) as Hns by (intros ?; by apply Hv, Hst).
  assert (∀ y z, y ∈ r.1 → y ∉ node :: stack → reach g y z →
                 z ∈ r.1 ∧ z ∉ node :: stack) as Hclosed.
  { intros y z Hy Hoff Hr. induction Hr as [y|y w z Hyw _ IHr]; [done|].
    destruct (Hfin' y Hy Hoff w Hyw) as (? & ? & _). by apply IHr. }
  intros x Hx Hoff y Hxy.
  destruct (decide (x = node)) as [->|Hne].
  - destruct (Hall y Hxy) as [Hy Hyoff].
    split; [done|]. split; [intros ?; apply Hyoff; by right|].
    intros Hr. destruct (Hclosed y node Hy Hyoff Hr) as [_ Hbad].
    apply Hbad. left.
  - destruct (Hfin' x Hx) with (y := y) as (Hy & Hyoff & Hr); [|done|].
    { intros Hon. apply elem_of_cons in Hon as [?|?]; done. }
    split; [done|]. split; [|done]. intros ?. apply Hyoff. by right.
Qed.

Lemma find_cycle_from_spec : ∀ todo v,
  (∀ x, x ∈ todo → x ∈ N) → fin_ok g v [] →
  match pygraph.find_cycle_from g todo v with
  | [] => ∃ v', fin_ok g v' [] ∧ ∀ x, x ∈ v ∨ x ∈ todo → x ∈ v'
  | c => cycle_in (edge g) c
  end.
Proof.
  induction todo as [|n todo IH]; intros v Htodo Hfin.
  { simpl. exists v. split; [done|]. intros x [?|Hx]; [done|].
    by apply elem_of_nil in Hx. }
  simpl. destruct (bool_decide (n ∈ v)) eqn:Hn.
  - apply bool_decide_eq_true in Hn.
    specialize (IH v (λ x Hx, Htodo x (list_elem_of_further _ _ _ Hx)) Hfin).
    destruct (pygraph.find_cycle_from g todo v); [|done].
    destruct IH as (v' & Hf' & Hsub). exists v'. split; [done|].
    intros x [?|Hx]; [by apply Hsub; left|].
    apply elem_of_cons in Hx as [->|?]; apply Hsub; [by left|by right].
  - apply bool_decide_eq_false in Hn.
    destruct (cycle_dfs_spec (length N) n [] v) as (Hsub1 & Hin1 & Hres1);
      try done.
    { apply Htodo. left. }
    { apply length_filter. }
    { intros x Hx. by apply elem_of_nil in Hx. }
    destruct (pygraph.cycle_dfs (length N) g n [] (v, [])) as [v1 c1].
    simpl in *. destruct c1 as [|c0 c1]; [|done].
    specialize (IH v1 (λ x Hx, Htodo x (list_elem_of_further _ _ _ Hx)) Hres1).
    destruct (pygraph.find_cycle_from g todo v1); [|done].
    destruct IH as (v' & Hf' & Hsub). exists v'. split; [done|].
    intros x [?|Hx]; [apply Hsub; left; by apply Hsub1|].
    apply elem_of_cons in Hx as [->|?]; apply Hsub; [by left|by right].
Qed.

(** [find_cycle] returns a cycle of the graph when there is one and the
    empty list when there is none. *)
Lemma find_cycle_spec :
  match pygraph.find_cycle g with
  | [] => acyclic g
  | c => cycle_in (edge g) c
  end.
Proof.
  unfold pygraph.find_cycle.
  pose proof (find_cycle_from_spec N [] (λ x Hx, Hx)) as H.
  destruct (pygraph.find_cycle_from g N []); [|apply H].
  2:{ intros x Hx. by apply elem_of_nil in Hx. }
  destruct H as (v' & Hfin & Hsub).
  { intros x Hx. by apply elem_of_nil in Hx. }
  intros x y Hxy. destruct (edge_nodes g closed x y Hxy) as [Hx _].
  destruct (Hfin x) with (y := y) as (_ & _ & ?); try done.
  - apply Hsub. by right.
  - apply not_elem_of_nil.
Qed.

End CycleFacts.

(** ** Paths and cycles of a relation *)

Section PathFacts.
Variable R : string → string → Prop.

Lemma path_in_rtc l a z :
  path_in R (a :: l) → last (a :: l) = Some z → rtc R a z.
Proof.
  revert a. induction l as [|b l IH]; intros a Hp Hl.
  - simpl in Hl. injection Hl as <-. apply rtc_refl.
  - destruct Hp as [Hab Hp]. eapply rtc_l; [exact Hab|].
    apply IH; [done|]. by rewrite last_cons_cons in Hl.
Qed.

(** Every node of a cycle has a successor. *)
Lemma cycle_in_successor c x : cycle_in R c → x ∈ c → ∃ y, R x y.
Proof.
  intros (a & z & _ & Hz & Hp & Hza) Hx.
  induction c as [|b c IH]; [by apply elem_of_nil in Hx|].
  destruct c as [|b' c].
  - apply list_elem_of_singleton in Hx as ->. simpl in Hz.
    injection Hz as ->. by exists a.
  - destruct Hp as [Hbb Hp].
    apply elem_of_cons in Hx as [->|Hx]; [by exists b'|].
    apply IH; [by rewrite last_cons_cons in Hz|done..].
Qed.

Lemma path_in_ext (R' : string → string → Prop) l :
  (∀ x y, x ∈ l → R x y → R' x y) → path_in R l → path_in R' l.
Proof.
  induction l as [|a l IH]; [done|]. destruct l as [|b l]; [done|].
  intros Hext [Hab Hp]. split; [apply Hext; [left|done]|].
  apply IH; [|done]. intros x y Hx. apply Hext. by right.
Qed.

End PathFacts.

Lemma cycle_in_ext (R R' : string → string → Prop) c :
  (∀ x y, x ∈ c → R x y → R' x y) → cycle_in R c → cycle_in R' c.
Proof.
  intros Hext (a & z & Ha & Hz & Hp & Hza). exists a, z.
  split; [done|]. split; [done|]. split; [by eapply path_in_ext|].
  apply Hext; [|done]. destruct c as [|b c]; [done|].
  clear -Hz. revert b Hz. induction c as [|b' c IH]; intros b Hz.
  - simpl in Hz. injection Hz as ->. left.
  - right. apply IH. by rewrite last_cons_cons in Hz.
Qed.

(** ** Registration of the classes: [_init_deps] *)

Section InitDeps.
Context {W Val Exc : Type}.
Variable classes : list (@JobClass W Val Exc).
Variable root : @JobClass W Val Exc.
Variables now dt dd : Z.
Hypothesis closed : program_closed classes = true.

#[local] Abbreviation names := (__name__ <$> classes).
#[local] Abbreviation unregistered d :=
  (length (filter (λ x, x ∉ odict.keys (_classmap d)) names)).

Lemma class_named_Some n cs (c : @JobClass W Val Exc) :
  class_named n cs = Some c → __name__ c = n ∧ c ∈ cs.
Proof.
  induction cs as [|c' cs IH]; [done|]. simpl.
  destruct (decide (__name__ c' = n)) as [Hn|Hn].
  - intros [= ->]. split; [done|left].
  - intros H. destruct (IH H). split; [done|by right].
Qed.

Lemma find_class_name n c :
  find_class classes n = Some c → __name__ c = n ∧ n ∈ names.
Proof.
  intros H. destruct (class_named_Some _ _ _ H) as [<- Hin].
  split; [done|]. by apply list_elem_of_fmap_2.
Qed.

Lemma closed_deps n c ds x :
  find_class classes n = Some c → DEPS c = Some ds → x ∈ ds →
  is_Some (find_class classes x).
Proof.
  intros Hc Hds Hx. destruct (class_named_Some _ _ _ Hc) as [_ Hin].
  unfold program_closed in closed. rewrite forallb_forall in closed.
  specialize (closed c (proj1 (list_elem_of_In _ _) Hin)).
  rewrite Hds in closed. simpl in closed. rewrite forallb_forall in closed.
  specialize (closed x (proj1 (list_elem_of_In _ _) Hx)).
  by apply bool_decide_eq_true in closed.
Qed.

Lemma depends_intro n c ds x :
  find_class classes n = Some c → DEPS c = Some ds → x ∈ ds →
  depends classes n x.
Proof.
  intros Hc Hds Hx. unfold depends, class_deps. by rewrite Hc, Hds.
Qed.

Lemma depends_inv n x :
  depends classes n x →
  ∃ c ds, find_class classes n = Some c ∧ DEPS c = Some ds ∧ x ∈ ds.
Proof.
  unfold depends, class_deps. destruct (find_class classes n) as [c|].
  - destruct (DEPS c) as [ds|] eqn:Hds; simpl.
    + intros Hx. by exists c, ds.
    + intros Hx. by apply elem_of_nil in Hx.
  - intros Hx. by apply elem_of_nil in Hx.
Qed.

(** What holds of the engine between two registrations. *)
Record cfg_inv (d : @DoJobber W Val Exc) : Prop := {
  ci_tries : _default_tries d = Some dt;
  ci_delay : _default_retry_delay d = Some dd;
  ci_nodes : pygraph.nodes (graph d) = odict.keys (_classmap d);
  ci_nodup : NoDup (odict.keys (_classmap d));
  ci_class :
    ∀ n c, odict.get n (_classmap d) = Some c →
           find_class classes n = Some c ∧ needed classes root n ∧
           (1 ≤ default dt (TRIES c))%Z ∧ (0 ≤ default dd (RETRY_DELAY c))%Z ∧
           odict.get n (_retry d) = Some (fresh_retry now dt dd c);
  ci_retry_keys :
    ∀ n, n ∈ odict.keys (_retry d) → n ∈ odict.keys (_classmap d);
  ci_noedges : ∀ n, pygraph.neighbors (graph d) n = [];
  ci_deps :
    ∀ n ds, odict.get n (_deps d) = Some ds →
            ∃ c, odict.get n (_classmap d) = Some c ∧ DEPS c = Some ds ∧
                 ∀ x, x ∈ ds → x ∈ odict.keys (_classmap d);
  ci_retry_nodup : NoDup (odict.keys (_retry d));
  ci_root : _root d = Some root
}.

(** What a registration of [targets] leaves, started on [d]. *)
Definition init_post (d : @DoJobber W Val Exc) (targets : list string)
    (res : @DoJobber W Val Exc * Configured) : Prop :=
  match res.2 with
  | CfgOk =>
      cfg_inv res.1 ∧
      (∀ n c, odict.get n (_classmap d) = Some c →
              odict.get n (_classmap res.1) = Some c) ∧
      (∀ n ds, odict.get n (_deps d) = Some ds →
               odict.get n (_deps res.1) = Some ds) ∧
      (∀ x, x ∈ targets → x ∈ odict.keys (_classmap res.1)) ∧
      (∀ n, n ∈ odict.keys (_classmap res.1) →
            n ∉ odict.keys (_classmap d) → n ∈ odict.keys (_deps res.1))
  | CfgError e => offending classes root dt dd e
  | CfgOutOfFuel => False
  end.

Lemma keys_mono (d d' : @DoJobber W Val Exc) :
  (∀ n c, odict.get n (_classmap d) = Some c →
          odict.get n (_classmap d') = Some c) →
  ∀ n, n ∈ odict.keys (_classmap d) → n ∈ odict.keys (_classmap d').
Proof.
  intros Hm n Hn. apply odict_get_Some_keys in Hn as [c Hc].
  apply odict_get_Some_keys. exists c. by apply Hm.
Qed.

Lemma init_deps_loop_spec f :
  (∀ c d, cfg_inv d → find_class classes (__name__ c) = Some c →
          needed classes root (__name__ c) → unregistered d < f →
          init_post d [__name__ c] (_init_deps classes f now c d)) →
  ∀ deps d,
    cfg_inv d → (∀ x, x ∈ deps → needed classes root x) →
    (∀ x, x ∈ deps → is_Some (find_class classes x)) →
    unregistered d < f →
    init_post d deps (init_deps_loop classes (_init_deps classes f now) deps d).
Proof.
  intros IHf. induction deps as [|dep rest IH]; intros d Hinv Hneed Hfind Hf.
  { unfold init_post. simpl. split; [done|]. split; [done|]. split; [done|].
    split; [intros x Hx; by apply elem_of_nil in Hx|done]. }
  simpl. destruct (Hfind dep) as [c Hc]; [left|]. rewrite Hc.
  destruct (find_class_name _ _ Hc) as [Hname _].
  specialize (IHf c d Hinv). rewrite Hname in IHf.
  specialize (IHf Hc (Hneed dep ltac:(left)) Hf).
  destruct (_init_deps classes f now c d) as [d1 r]. unfold init_post in IHf.
  simpl in IHf. destruct r as [|e|]; [|done..].
  destruct IHf as (Hinv1 & Hcm1 & Hdm1 & Ht1 & Hnew1).
  specialize (IH d1 Hinv1 (λ x Hx, Hneed x (list_elem_of_further _ _ _ Hx))
                 (λ x Hx, Hfind x (list_elem_of_further _ _ _ Hx))).
  assert (unregistered d1 < f) as Hf1.
  { eapply Nat.le_lt_trans; [|exact Hf].
    apply unvisited_mono. by apply keys_mono. }
  specialize (IH Hf1). unfold init_post in *.
  destruct (init_deps_loop classes (_init_deps classes f now) rest d1)
    as [d2 r2]. simpl in *. destruct r2 as [|e|]; [|done..].
  destruct IH as (Hinv2 & Hcm2 & Hdm2 & Ht2 & Hnew2).
  split; [done|]. split; [intros n c' Hn; by apply Hcm2, Hcm1|].
  split; [intros n ds Hn; by apply Hdm2, Hdm1|]. split.
  - intros x Hx. apply elem_of_cons in Hx as [->|Hx]; [|by apply Ht2].
    apply (keys_mono d1 d2 Hcm2). apply Ht1. left.
  - intros n Hn Hold.
    destruct (decide (n ∈ odict.keys (_classmap d1))) as [Hin|Hout].
    + specialize (Hnew1 n Hin Hold).
      apply odict_get_Some_keys in Hnew1 as [ds Hds].
      apply odict_get_Some_keys. exists ds. by apply Hdm2.
    + by apply Hnew2.
Qed.

Lemma unregistered_set n c (d : @DoJobber W Val Exc) :
  n ∈ names → n ∉ odict.keys (_classmap d) →
  unregistered (set_classmap (odict.set n c (_classmap d)) d) < unregistered d.
Proof.
  intros Hn Hout. simpl.
  eapply Nat.le_lt_trans; [|by apply (unvisited_cons _ names n)].
  apply unvisited_mono. intros x Hx.
  apply odict_elem_of_keys_set. by apply elem_of_cons in Hx.
Qed.

(** One registration: the class and everything it needs is registered,
    with a fresh retry record each, or the error names what is wrong. *)
Lemma _init_deps_spec f : ∀ c d,
  cfg_inv d → find_class classes (__name__ c) = Some c →
  needed classes root (__name__ c) → unregistered d < f →
  init_post d [__name__ c] (_init_deps classes f now c d).
Proof.
  induction f as [|f IH]; intros c d Hinv Hc Hneed Hf; [lia|].
  simpl. destruct (odict.mem (__name__ c) (_classmap d)) eqn:Hmem.
  { apply odict_mem_true in Hmem. unfold init_post. simpl.
    split; [done|]. split; [done|]. split; [done|]. split; [|done].
    intros x Hx. by apply list_elem_of_singleton in Hx as ->. }
  apply odict_mem_false in Hmem.
  destruct (find_class_name _ _ Hc) as [_ Hnames].
  unfold pygraph.add_node, pygraph.has_node.
  replace (odict.mem (__name__ c) (pygraph.node_neighbors (graph d)))
    with false.
  2:{ symmetry. apply odict_mem_false.
      change (__name__ c ∉ pygraph.nodes (graph d)).
      by rewrite (ci_nodes d Hinv). }
  simpl. rewrite (ci_tries d Hinv), (ci_delay d Hinv).
  assert (resolved (RETRY_DELAY c) (Some dd)
          = Some (default dd (RETRY_DELAY c))) as ->
    by (by destruct (RETRY_DELAY c)).
  assert (resolved (TRIES c) (Some dt) = Some (default dt (TRIES c))) as ->
    by (by destruct (TRIES c)).
  destruct (Z.ltb_spec (default dd (RETRY_DELAY c)) 0) as [Hdl|Hdl].
  { unfold init_post. simpl. by exists (__name__ c), c. }
  destruct (Z.ltb_spec (default dt (TRIES c)) 1) as [Htr|Htr].
  { unfold init_post. simpl. by exists (__name__ c), c. }
  destruct (DEPS c) as [deps|] eqn:Hdeps.
  2:{ unfold init_post. simpl. by exists c. }
  set (d0 := set_retry _ _).
  assert (∀ n c', odict.get n (_classmap d) = Some c' →
                  n ≠ __name__ c) as Hother.
  { intros n c' Hn ->. apply Hmem. apply odict_get_Some_keys. by exists c'. }
  assert (cfg_inv d0) as Hinv0.
  { destruct Hinv as [Ht Hd Hnodes Hnd Hcls Hrk Hne Hdp Hrnd Hrt].
    split; subst d0; simpl.
    - done.
    - done.
    - unfold pygraph.nodes in *. simpl.
      rewrite !odict_keys_set_notin; [by rewrite Hnodes|done|].
      by rewrite Hnodes.
    - by apply odict_keys_set_NoDup.
    - intros n c'. rewrite !odict_get_set.
      destruct (decide (__name__ c = n)) as [<-|Hne'].
      + intros [= <-]. done.
      + apply Hcls.
    - intros n Hn. apply odict_elem_of_keys_set.
      apply odict_elem_of_keys_set in Hn as [->|Hn]; [by left|].
      right. by apply Hrk.
    - intros n. unfold pygraph.neighbors. simpl. rewrite odict_get_set.
      destruct (decide (__name__ c = n)); [done|]. apply Hne.
    - intros n ds Hn. destruct (Hdp n ds Hn) as (c' & Hc' & Hds & Hsub).
      exists c'. split.
      { rewrite odict_get_set_ne; [done|].
        intros Heq. by apply (Hother n c' Hc'). }
      split; [done|]. intros x Hx. apply odict_elem_of_keys_set.
      right. by apply Hsub.
    - by apply odict_keys_set_NoDup.
    - done. }
  assert (unregistered d0 < f) as Hf0.
  { pose proof (unregistered_set (__name__ c) c d Hnames Hmem).
    subst d0. simpl in *. lia. }
  pose proof (init_deps_loop_spec f IH deps d0 Hinv0) as Hloop.
  specialize (Hloop (λ x Hx, rtc_r _ _ _ Hneed (depends_intro _ _ _ _ Hc Hdeps Hx))
                    (λ x Hx, closed_deps _ _ _ _ Hc Hdeps Hx) Hf0).
  destruct (init_deps_loop classes (_init_deps classes f now) deps d0)
    as [d1 r]. unfold init_post in *. simpl in *.
  destruct r as [|e|]; [|done..]. simpl.
  destruct Hloop as (Hinv1 & Hcm1 & Hdm1 & Ht1 & Hnew1).
  assert (odict.get (__name__ c) (_classmap d1) = Some c) as Hc1.
  { apply Hcm1. subst d0. simpl. apply odict_get_set_eq. }
  assert (∀ n c', odict.get n (_classmap d) = Some c' →
                  odict.get n (_classmap d1) = Some c') as Hcm.
  { intros n c' Hn. apply Hcm1. subst d0. simpl.
    rewrite odict_get_set_ne; [done|]. intros Heq.
    by apply (Hother n c' Hn). }
  split; [|split; [done|split; [|split]]].
  - destruct Hinv1 as [Ht Hd Hnodes Hnd Hcls Hrk Hne Hdp Hrnd Hrt].
    split; simpl; try done.
    intros n ds. rewrite odict_get_set.
    destruct (decide (__name__ c = n)) as [<-|Hne'].
    + intros [= <-]. exists c. split; [done|]. split; [done|]. apply Ht1.
    + apply Hdp.
  - intros n ds Hn. rewrite odict_get_set_ne; [by apply Hdm1|].
    intros Heq. destruct (ci_deps d Hinv n ds Hn) as (c' & Hc' & _).
    by apply (Hother n c' Hc').
  - intros x Hx. apply list_elem_of_singleton in Hx as ->.
    apply odict_get_Some_keys. by exists c.
  - intros n Hn Hold. apply odict_elem_of_keys_set.
    destruct (decide (n = __name__ c)) as [->|Hne']; [by left|right].
    apply Hnew1; [done|]. subst d0. simpl. intros Hin.
    apply odict_elem_of_keys_set in Hin as [?|?]; done.
Qed.

End InitDeps.

(** ** The edges: [_init_graph] *)

Section InitGraph.

(** The edges of one node: all are added when the list has no entry twice;
    otherwise the loop stops at the first entry that repeats an earlier
    one, and the edges up to it are in the graph. *)
Lemma add_edges_spec u : ∀ ds g,
  u ∈ pygraph.nodes g → (∀ x, x ∈ ds → x ∈ pygraph.nodes g) →
  NoDup (pygraph.neighbors g u) →
  pygraph.nodes (add_edges u ds g).1 = pygraph.nodes g ∧
  (∀ n, n ≠ u →
        pygraph.neighbors (add_edges u ds g).1 n = pygraph.neighbors g n) ∧
  match (add_edges u ds g).2 with
  | None =>
      NoDup (pygraph.neighbors g u ++ ds) ∧
      pygraph.neighbors (add_edges u ds g).1 u = pygraph.neighbors g u ++ ds
  | Some e =>
      ∃ v pre post,
        e = AdditionError u v ∧ ds = pre ++ v :: post ∧
        NoDup (pygraph.neighbors g u ++ pre) ∧
        v ∈ pygraph.neighbors g u ++ pre ∧
        pygraph.neighbors (add_edges u ds g).1 u
        = pygraph.neighbors g u ++ pre
  end.
Proof.
  induction ds as [|v rest IH]; intros g Hu Hds Hnd.
  { simpl. rewrite app_nil_r. done. }
  simpl. unfold pygraph.add_edge, pygraph.has_node.
  assert (odict.mem u (pygraph.node_neighbors g) = true) as ->
    by (by apply odict_mem_true).
  assert (odict.mem v (pygraph.node_neighbors g) = true) as ->
    by (apply odict_mem_true, Hds; left).
  simpl. destruct (bool_decide (v ∈ pygraph.neighbors g u)) eqn:Hv.
  { apply bool_decide_eq_true in Hv. simpl. split; [done|]. split; [done|].
    exists v, [], rest. rewrite app_nil_r. done. }
  apply bool_decide_eq_false in Hv.
  set (g1 := {| pygraph.node_neighbors := _; pygraph.node_attr := _ |}).
  assert (pygraph.nodes g1 = pygraph.nodes g) as Hn1.
  { unfold pygraph.nodes, g1. simpl. by apply odict_keys_set_in. }
  assert (pygraph.neighbors g1 u = pygraph.neighbors g u ++ [v]) as Hu1.
  { unfold pygraph.neighbors at 1, g1. simpl. by rewrite odict_get_set_eq. }
  assert (∀ n, n ≠ u → pygraph.neighbors g1 n = pygraph.neighbors g n) as Ho1.
  { intros n Hn. unfold pygraph.neighbors, g1. simpl.
    by rewrite odict_get_set_ne. }
  specialize (IH g1). rewrite Hn1, Hu1 in IH.
  destruct IH as (Hnodes & Hoth & Hres); [done| |  |].
  { intros x Hx. apply Hds. by right. }
  { apply NoDup_app. split; [done|]. split; [|apply NoDup_singleton].
    intros x Hx Hx'. apply list_elem_of_singleton in Hx' as ->. done. }
  split; [done|]. split.
  { intros n Hn. rewrite Hoth by done. by apply Ho1. }
  destruct (add_edges u rest g1).2 as [e|].
  - destruct Hres as (v' & pre & post & -> & -> & Hnd' & Hin & Hnb).
    exists v', (v :: pre), post. rewrite <- app_assoc in Hnd', Hin, Hnb.
    done.
  - destruct Hres as [Hnd' Hnb]. rewrite <- app_assoc in Hnd', Hnb. done.
Qed.

Lemma init_graph_loop_spec deps : ∀ names g,
  NoDup names →
  (∀ n, n ∈ names →
        n ∈ pygraph.nodes g ∧ pygraph.neighbors g n = [] ∧
        ∃ ds, odict.get n deps = Some ds ∧ ∀ x, x ∈ ds → x ∈ pygraph.nodes g) →
  pygraph.nodes (init_graph_loop deps names g).1 = pygraph.nodes g ∧
  (∀ n, n ∉ names →
        pygraph.neighbors (init_graph_loop deps names g).1 n
        = pygraph.neighbors g n) ∧
  match (init_graph_loop deps names g).2 with
  | None =>
      ∀ n ds, n ∈ names → odict.get n deps = Some ds →
              pygraph.neighbors (init_graph_loop deps names g).1 n = ds ∧
              NoDup ds
  | Some e =>
      ∃ u v ds pre post,
        e = AdditionError u v ∧ u ∈ names ∧ odict.get u deps = Some ds ∧
        ds = pre ++ v :: post ∧ NoDup pre ∧ v ∈ pre
  end.
Proof.
  induction names as [|n rest IH]; intros g Hnd Hall.
  { simpl. split; [done|]. split; [done|].
    intros n ds Hn. by apply elem_of_nil in Hn. }
  apply NoDup_cons in Hnd as [Hn Hnd]. simpl.
  destruct (Hall n) as (Hin & Hnb & ds & Hds & Hsub); [left|].
  rewrite Hds.
  destruct (add_edges_spec n ds g Hin Hsub) as (Hnodes1 & Hoth1 & Hres1).
  { rewrite Hnb. constructor. }
  rewrite Hnb in Hres1. simpl in Hres1.
  destruct (add_edges n ds g) as [g1 [e|]]; simpl in *.
  - split; [done|]. split.
    { intros m Hm. apply not_elem_of_cons in Hm as [Hne _]. by apply Hoth1. }
    destruct Hres1 as (v & pre & post & -> & -> & Hndp & Hv & _).
    exists n, v, (pre ++ v :: post), pre, post.
    split; [done|]. split; [left|]. done.
  - destruct Hres1 as [Hnd1 Hnb1].
    destruct (IH g1 Hnd) as (Hnodes & Hoth & Hres).
    { intros m Hm. destruct (Hall m) as (Hm1 & Hm2 & ds' & Hds' & Hsub');
        [by right|].
      rewrite Hnodes1. split; [done|]. split; [|by exists ds'].
      rewrite Hoth1; [done|]. intros ->. done. }
    split; [by rewrite Hnodes|]. split.
    { intros m Hm. apply not_elem_of_cons in Hm as [Hne Hm].
      rewrite Hoth by done. by apply Hoth1. }
    destruct (init_graph_loop deps rest g1).2 as [e|].
    + destruct Hres as (u & v & ds' & pre & post & -> & Hu & Hres).
      exists u, v, ds', pre, post. split; [done|]. split; [by right|done].
    + intros m ds' Hm Hds'. apply elem_of_cons in Hm as [->|Hm].
      * rewrite Hoth by done. rewrite Hds in Hds'. injection Hds' as <-.
        done.
      * by apply Hres.
Qed.

End InitGraph.

(** ** The whole of [configure] *)

Section ConfigureFacts.
Context {W Val Exc : Type}.
Variable classes : list (@JobClass W Val Exc).
Variable root : @JobClass W Val Exc.
Variables now dt dd : Z.
Hypothesis closed : program_closed classes = true.
Hypothesis Hroot : find_class classes (__name__ root) = Some root.

(** The engine a successful [configure] leaves. *)
Record configured (d : @DoJobber W Val Exc) : Prop := {
  cf_tries : _default_tries d = Some dt;
  cf_delay : _default_retry_delay d = Some dd;
  cf_nodes : pygraph.nodes (graph d) = odict.keys (_classmap d);
  cf_needed : ∀ n, n ∈ odict.keys (_classmap d) ↔ needed classes root n;
  cf_class :
    ∀ n c, odict.get n (_classmap d) = Some c →
           find_class classes n = Some c ∧
           odict.get n (_retry d) = Some (fresh_retry now dt dd c);
  cf_retry_keys :
    ∀ n, n ∈ odict.keys (_retry d) → n ∈ odict.keys (_classmap d);
  cf_retry_nodup : NoDup (odict.keys (_retry d));
  cf_root : _root d = Some root;
  cf_neighbors :
    ∀ n, needed classes root n →
         pygraph.neighbors (graph d) n = class_deps classes n;
  cf_edge : ∀ x y, edge (graph d) x y → needed classes root x;
  cf_closed : graph_closed (graph d) = true;
  cf_acyclic : acyclic (graph d);
  cf_ok : program_ok classes root dt dd
}.

Lemma offending_not_ok e :
  offending classes root dt dd e → ¬ program_ok classes root dt dd.
Proof.
  intros Hoff [Hok Hac]. destruct e as [delay|t|n|c|u v|k dl]; simpl in Hoff.
  - destruct Hoff as (n & c & Hn & Hc & <- & Hlt).
    destruct (Hok n c Hn Hc) as (_ & ? & _). lia.
  - destruct Hoff as (n & c & Hn & Hc & <- & Hlt).
    destruct (Hok n c Hn Hc) as (? & _). lia.
  - destruct Hoff as (c & Hn & Hc & Hnone).
    destruct (Hok n c Hn Hc) as (_ & _ & ds & Hds & _). congruence.
  - destruct Hoff as ((a & z & Ha & Hz & Hp & Hza) & Hall & _).
    apply (Hac z a); [by apply Hall, last_Some_elem_of|done|].
    destruct c as [|a' l]; [done|]. simpl in Ha. injection Ha as ->.
    by eapply path_in_rtc.
  - destruct Hoff as (Hu & (pre & post & Hds & _ & Hv) & _).
    assert (depends classes u v) as Huv.
    { unfold depends. rewrite Hds. apply elem_of_app. right. left. }
    destruct (depends_inv classes u v Huv) as (c & ds & Hc & Hdeps & _).
    destruct (Hok u c Hu Hc) as (_ & _ & ds' & Hds' & Hnd).
    assert (class_deps classes u = ds') as Heq
      by (unfold class_deps; by rewrite Hc, Hds').
    rewrite Heq in Hds. subst ds'.
    apply NoDup_app in Hnd as (_ & Hdisj & _). apply (Hdisj v Hv). left.
  - done.
Qed.

Lemma _init_graph_spec (d1 : @DoJobber W Val Exc) :
  cfg_inv classes root now dt dd d1 →
  (∀ n, n ∈ odict.keys (_classmap d1) → n ∈ odict.keys (_deps d1)) →
  __name__ root ∈ odict.keys (_classmap d1) →
  match (_init_graph d1).2 with
  | CfgOk => configured (_init_graph d1).1
  | CfgError e => offending classes root dt dd e
  | CfgOutOfFuel => False
  end.
Proof.
  intros Hinv Hall Hrootin.
  assert (∀ n, n ∈ odict.keys (_classmap d1) →
               ∃ c, odict.get n (_classmap d1) = Some c ∧
                    find_class classes n = Some c ∧
                    needed classes root n ∧
                    (1 ≤ default dt (TRIES c))%Z ∧
                    (0 ≤ default dd (RETRY_DELAY c))%Z ∧
                    DEPS c = Some (class_deps classes n) ∧
                    odict.get n (_deps d1) = Some (class_deps classes n) ∧
                    ∀ x, x ∈ class_deps classes n →
                         x ∈ odict.keys (_classmap d1)) as Hreg.
  { intros n Hn. apply Hall, odict_get_Some_keys in Hn as [ds Hds].
    destruct (ci_deps _ _ _ _ _ _ Hinv n ds Hds) as (c & Hc & Hdeps & Hsub).
    destruct (ci_class _ _ _ _ _ _ Hinv n c Hc) as (Hf & Hneed & Ht & Hd & _).
    assert (class_deps classes n = ds) as ->
      by (unfold class_deps; by rewrite Hf, Hdeps).
    by exists c. }
  assert (∀ n, needed classes root n → n ∈ odict.keys (_classmap d1)) as Hcov.
  { intros n Hn. unfold needed in Hn. revert n Hn.
    apply (rtc_ind_r (λ n, n ∈ odict.keys (_classmap d1))); [done|].
    intros y z Hy Hyz IH.
    destruct (Hreg y IH) as (_ & _ & _ & _ & _ & _ & _ & _ & Hsub).
    by apply Hsub. }
  assert (∀ n c, needed classes root n → find_class classes n = Some c →
                 (1 ≤ default dt (TRIES c))%Z ∧
                 (0 ≤ default dd (RETRY_DELAY c))%Z ∧
                 DEPS c = Some (class_deps classes n)) as Hvalid.
  { intros n c Hn Hc.
    destruct (Hreg n (Hcov n Hn)) as (c' & _ & Hc' & _ & ? & ? & ? & _).
    assert (c' = c) as -> by congruence. done. }
  unfold _init_graph.
  destruct (init_graph_loop_spec (_deps d1) (odict.keys (_classmap d1))
              (graph d1) (ci_nodup _ _ _ _ _ _ Hinv))
    as (Hnodes & Hoth & Hdone).
  { intros n Hn.
    destruct (Hreg n Hn) as (c & _ & _ & _ & _ & _ & _ & Hds & Hsub).
    rewrite (ci_nodes _ _ _ _ _ _ Hinv). split; [done|].
    split; [apply (ci_noedges _ _ _ _ _ _ Hinv)|].
    by exists (class_deps classes n). }
  destruct (init_graph_loop (_deps d1) (odict.keys (_classmap d1)) (graph d1))
    as [g2 [e|]]; simpl in Hnodes, Hoth, Hdone.
  { simpl. destruct Hdone as (u & v & ds & pre & post & -> & Hu & Hds & Hpre).
    destruct (Hreg u Hu) as (c & _ & _ & Hneed & _ & _ & _ & Hds' & _).
    rewrite Hds in Hds'. injection Hds' as ->. simpl.
    split; [done|]. split; [by exists pre, post|].
    intros n c' Hn Hc'. destruct (Hvalid n c' Hn Hc') as (? & ? & ->).
    done. }
  rewrite (ci_nodes _ _ _ _ _ _ Hinv) in Hnodes.
  assert (∀ n, n ∈ odict.keys (_classmap d1) →
               pygraph.neighbors g2 n = class_deps classes n ∧
               NoDup (class_deps classes n)) as Hnb.
  { intros n Hn.
    destruct (Hreg n Hn) as (c & _ & _ & _ & _ & _ & _ & Hds & _).
    by apply Hdone. }
  assert (∀ x y, edge g2 x y →
                 x ∈ odict.keys (_classmap d1) ∧ depends classes x y) as Hedge.
  { intros x y Hxy. unfold edge in Hxy.
    destruct (decide (x ∈ odict.keys (_classmap d1))) as [Hx|Hx].
    - split; [done|]. destruct (Hnb x Hx) as [Hnx _].
      unfold depends. by rewrite <- Hnx.
    - rewrite (Hoth x Hx), (ci_noedges _ _ _ _ _ _ Hinv) in Hxy.
      by apply elem_of_nil in Hxy. }
  assert (graph_closed g2 = true) as Hclosed.
  { unfold graph_closed. apply forallb_forall. intros n Hn.
    apply list_elem_of_In in Hn. rewrite Hnodes in Hn.
    apply forallb_forall. intros m Hm. apply list_elem_of_In in Hm.
    destruct (Hnb n Hn) as [Hnn _]. rewrite Hnn in Hm.
    destruct (Hreg n Hn) as (_ & _ & _ & _ & _ & _ & _ & _ & Hsub).
    apply odict_mem_true. change (m ∈ pygraph.nodes g2).
    rewrite Hnodes. by apply Hsub. }
  pose proof (find_cycle_spec g2 Hclosed) as Hcyc.
  destruct (pygraph.find_cycle g2) as [|c0 cs]; simpl.
  2:{ split; [|split].
      - eapply cycle_in_ext; [|exact Hcyc]. intros x y _ Hxy.
        by apply Hedge.
      - intros x Hx. destruct (cycle_in_successor _ _ x Hcyc Hx) as [y Hxy].
        destruct (Hedge x y Hxy) as [Hreg' _].
        by destruct (Hreg x Hreg') as (_ & _ & _ & ? & _).
      - intros n c Hn Hc. destruct (Hvalid n c Hn Hc) as (? & ? & ?).
        split; [done|]. split; [done|]. exists (class_deps classes n).
        split; [done|]. by apply Hnb, Hcov. }
  assert (∀ x y, rtc (depends classes) x y →
                 x ∈ odict.keys (_classmap d1) → reach g2 x y) as Hreach.
  { intros x y Hxy. induction Hxy as [x|x y z Hxy _ IH]; intros Hx.
    - apply rtc_refl.
    - destruct (Hnb x Hx) as [Hnx _].
      destruct (Hreg x Hx) as (_ & _ & _ & _ & _ & _ & _ & _ & Hsub).
      eapply rtc_l; [|apply IH; by apply Hsub].
      unfold edge. by rewrite Hnx. }
  destruct Hinv as [Ht Hd Hn1 Hnd Hcls Hrk Hne Hdp Hrnd Hrt].
  split; simpl; try done.
  - intros n. split; [|apply Hcov]. intros Hn.
    by destruct (Hreg n Hn) as (_ & _ & _ & ? & _).
  - intros n c Hc. by destruct (Hcls n c Hc) as (? & _ & _ & _ & ?).
  - intros n Hn. by apply Hnb, Hcov.
  - intros x y Hxy. destruct (Hedge x y Hxy) as [Hx _].
    by destruct (Hreg x Hx) as (_ & _ & _ & ? & _).
  - split.
    + intros n c Hn Hc.
      destruct (Hreg n (Hcov n Hn)) as (c' & _ & Hc' & _ & ? & ? & ? & _).
      assert (c' = c) as -> by congruence.
      split; [done|]. split; [done|]. exists (class_deps classes n).
      split; [done|]. by apply Hnb, Hcov.
    + intros n m Hn Hnm Hmn. apply (Hcyc n m).
      * unfold edge. destruct (Hnb n (Hcov n Hn)) as [-> _]. done.
      * apply Hreach; [done|].
        destruct (Hreg n (Hcov n Hn))
          as (_ & _ & _ & _ & _ & _ & _ & _ & Hsub).
        by apply Hsub.
Qed.

Lemma _load_class_spec (d : @DoJobber W Val Exc) :
  cfg_inv classes root now dt dd d → _classmap d = [] →
  match (_load_class classes now d).2 with
  | CfgOk => configured (_load_class classes now d).1
  | CfgError e => offending classes root dt dd e
  | CfgOutOfFuel => False
  end.
Proof.
  intros Hinv Hempty. unfold _load_class.
  rewrite (ci_root _ _ _ _ _ _ Hinv).
  pose proof (_init_deps_spec classes root now dt dd closed
                (S (length classes)) root d Hinv Hroot (rtc_refl _ _)) as Hdeps.
  destruct (_init_deps classes (S (length classes)) now root d) as [d1 r].
  unfold init_post in Hdeps. simpl in Hdeps.
  assert (length (filter (λ x, x ∉ odict.keys (_classmap d))
                         (__name__ <$> classes)) < S (length classes)) as Hf.
  { pose proof (length_filter (λ x, x ∉ odict.keys (_classmap d))
                              (__name__ <$> classes)) as Hle.
    rewrite length_fmap in Hle. lia. }
  specialize (Hdeps Hf). destruct r as [|e|]; [|done..].
  destruct Hdeps as (Hinv1 & _ & _ & Ht & Hnew).
  apply _init_graph_spec; [done| |apply Ht; left].
  intros n Hn. apply Hnew; [done|]. rewrite Hempty. apply not_elem_of_nil.
Qed.

(** [configure] on a new engine. *)
Lemma configure_spec no_act cleanup_ :
  match (configure classes now root no_act cleanup_ dt dd new_DoJobber).2 with
  | CfgOk =>
      configured (configure classes now root no_act cleanup_ dt dd
                            new_DoJobber).1
  | CfgError e => offending classes root dt dd e
  | CfgOutOfFuel => False
  end.
Proof.
  unfold configure. apply _load_class_spec; [|done].
  split; simpl; try done; constructor.
Qed.

Lemma acyclic_acyclicb g :
  graph_closed g = true → acyclic g → acyclicb g = true.
Proof.
  intros Hcl Hac. unfold acyclicb. apply forallb_forall. intros n Hn.
  apply forallb_forall. intros m Hm. apply list_elem_of_In in Hn, Hm.
  apply negb_true_iff, bool_decide_eq_false. intros Hin.
  destruct (edge_nodes g Hcl n m Hm) as [_ Hmn].
  destruct (depth_first_search_Some g m Hmn) as [post Hpost].
  rewrite Hpost in Hin. simpl in Hin.
  apply (Hac n m Hm).
  by apply (depth_first_search_reach g Hcl m post Hpost).
Qed.

Lemma odict_get_elem_of_NoDup {V} k (v : V) l :
  NoDup (odict.keys l) → (k, v) ∈ l → odict.get k l = Some v.
Proof.
  induction l as [|[k' v'] l IH]; intros Hnd Hin.
  { by apply elem_of_nil in Hin. }
  simpl in *. apply NoDup_cons in Hnd as [Hk' Hnd].
  apply elem_of_cons in Hin as [[= -> ->]|Hin].
  - by rewrite decide_True.
  - rewrite decide_False; [by apply IH|]. intros ->. apply Hk'.
    apply (list_elem_of_fmap_2 fst) in Hin. done.
Qed.

(** A configured engine is one a run may start on. *)
Lemma configured_engine_ok (d : @DoJobber W Val Exc) :
  configured d → engine_ok d = true ∧ retry_sane d = true.
Proof.
  intros Hc. split.
  - unfold engine_ok. rewrite (cf_closed d Hc).
    rewrite (acyclic_acyclicb _ (cf_closed d Hc) (cf_acyclic d Hc)). simpl.
    apply forallb_forall. intros n Hn. apply list_elem_of_In in Hn.
    rewrite (cf_nodes d Hc) in Hn. apply odict_get_Some_keys in Hn as [c Hn].
    destruct (cf_class d Hc n c Hn) as [_ Hr].
    apply odict_mem_true, odict_get_Some_keys. by eexists.
  - apply retry_sane_spec, Forall_forall. intros [n r] Hin. simpl.
    assert (n ∈ odict.keys (_retry d)) as Hk
      by (by apply (list_elem_of_fmap_2 fst) in Hin).
    apply (cf_retry_keys d Hc), odict_get_Some_keys in Hk as [c Hn].
    destruct (cf_class d Hc n c Hn) as [Hf Hr].
    pose proof (odict_get_elem_of_NoDup n r _ (cf_retry_nodup d Hc) Hin) as Hr'.
    rewrite Hr in Hr'. injection Hr' as <-.
    exists (default dt (TRIES c)). unfold max_tries.
    rewrite Hn, (cf_tries d Hc). split; [by destruct (TRIES c)|]. simpl.
    assert (needed classes root n) as Hneed.
    { apply (cf_needed d Hc), odict_get_Some_keys. by eexists. }
    destruct (proj1 (cf_ok d Hc) n c Hneed Hf) as (? & _). lia.
Qed.

End ConfigureFacts.

(** ** Theorems about [configure] *)

Section ConfigureTheorems.
Context {W Val Exc : Type}.
Variable classes : list (@JobClass W Val Exc).
Variable root : @JobClass W Val Exc.
Variables now dt dd : Z.
Variables no_act cleanup_ : bool.

#[local] Abbreviation result :=
  (configure classes now root no_act cleanup_ dt dd new_DoJobber).

(** X1.  [configure] on a new engine, for a program whose [DEPS] name
    classes of the program: it succeeds exactly when every job the root
    needs has at least one try, a delay that is not negative and an iterable
    [DEPS] that names no job twice, and no needed job depends on a job that
    needs it.  The recursion of [_init_deps] over the classes always ends. *)
Theorem configure_succeeds_exactly_when :
  program_closed classes = true →
  find_class classes (__name__ root) = Some root →
  (result.2 = CfgOk ↔ program_ok classes root dt dd) ∧
  result.2 ≠ CfgOutOfFuel.
Proof.
  intros Hcl Hroot.
  pose proof (configure_spec classes root now dt dd Hcl Hroot no_act cleanup_)
    as Hspec.
  destruct result.2 as [|e|]; [|  |done].
  - split; [|done]. split; [|done]. intros _. apply (cf_ok _ _ _ _ _ _ Hspec).
  - split; [|done]. split; [done|]. intros Hok.
    by destruct (offending_not_ok classes root dt dd e Hspec).
Qed.

(** X2.  When [configure] fails, the error says what is wrong: a negative
    [RETRY_DELAY] or a [TRIES] below one is the resolved value of a needed
    job, the class named with [DepsNotIterable] is a needed job whose [DEPS]
    cannot be iterated, the edge [(u, v)] of an [AdditionError] is the first
    entry [v] of the [DEPS] of a needed job [u] that repeats an earlier
    entry, and the list of a [GraphCycle] is a cycle of needed jobs, each
    depending on the next and the last on the first.  No other error
    arises. *)
Theorem configure_error_names_the_offence e :
  program_closed classes = true →
  find_class classes (__name__ root) = Some root →
  result.2 = CfgError e →
  offending classes root dt dd e.
Proof.
  intros Hcl Hroot He.
  pose proof (configure_spec classes root now dt dd Hcl Hroot no_act cleanup_)
    as Hspec.
  by rewrite He in Hspec.
Qed.

(** X3.  After a successful [configure] the nodes of the graph are exactly
    the jobs the root needs, each registered with its class; the successors
    of a node are the entries of its [DEPS], in their order; and the root is
    the default target of a run. *)
Theorem configure_builds_the_dependency_graph :
  program_closed classes = true →
  find_class classes (__name__ root) = Some root →
  result.2 = CfgOk →
  (∀ n, n ∈ pygraph.nodes (graph result.1) ↔ needed classes root n) ∧
  (∀ n, needed classes root n →
        odict.get n (_classmap result.1) = find_class classes n ∧
        is_Some (find_class classes n) ∧
        pygraph.neighbors (graph result.1) n = class_deps classes n) ∧
  (∀ x y, edge (graph result.1) x y ↔
          needed classes root x ∧ depends classes x y) ∧
  target result.1 None = Some (__name__ root).
Proof.
  intros Hcl Hroot Hok.
  pose proof (configure_spec classes root now dt dd Hcl Hroot no_act cleanup_)
    as Hspec.
  rewrite Hok in Hspec. split; [|split; [|split]].
  - intros n. rewrite (cf_nodes _ _ _ _ _ _ Hspec).
    apply (cf_needed _ _ _ _ _ _ Hspec).
  - intros n Hn. pose proof Hn as Hk.
    apply (cf_needed _ _ _ _ _ _ Hspec), odict_get_Some_keys in Hk as [c Hc].
    destruct (cf_class _ _ _ _ _ _ Hspec n c Hc) as [Hf _].
    rewrite Hc, Hf. split; [done|]. split; [by eexists|].
    by apply (cf_neighbors _ _ _ _ _ _ Hspec).
  - intros x y. split.
    + intros Hxy. pose proof (cf_edge _ _ _ _ _ _ Hspec x y Hxy) as Hx.
      split; [done|]. unfold edge in Hxy.
      by rewrite (cf_neighbors _ _ _ _ _ _ Hspec x Hx) in Hxy.
    + intros [Hx Hxy]. unfold edge.
      by rewrite (cf_neighbors _ _ _ _ _ _ Hspec x Hx).
  - unfold target. by rewrite (cf_root _ _ _ _ _ _ Hspec).
Qed.

(** X4.  After a successful [configure] every needed job has a retry record
    with its resolved tries and delay (the class's own value, else the
    default of [configure]), the time of the configuration as the next
    moment it may be tried, and [-1] as its last phase; no other name has a
    record. *)
Theorem configure_writes_fresh_retry_records n :
  program_closed classes = true →
  find_class classes (__name__ root) = Some root →
  result.2 = CfgOk →
  (needed classes root n →
   ∃ c, find_class classes n = Some c ∧
        odict.get n (_retry result.1)
        = Some {| tries := default dt (TRIES c);
                  retry_delay := default dd (RETRY_DELAY c);
                  nexttry := now; lastphase := (-1)%Z |} ∧
        max_tries result.1 n = Some (default dt (TRIES c))) ∧
  (¬ needed classes root n → odict.get n (_retry result.1) = None).
Proof.
  intros Hcl Hroot Hok.
  pose proof (configure_spec classes root now dt dd Hcl Hroot no_act cleanup_)
    as Hspec.
  rewrite Hok in Hspec. split.
  - intros Hn.
    apply (cf_needed _ _ _ _ _ _ Hspec), odict_get_Some_keys in Hn as [c Hc].
    destruct (cf_class _ _ _ _ _ _ Hspec n c Hc) as [Hf Hr].
    exists c. split; [done|]. split; [exact Hr|].
    unfold max_tries. rewrite Hc, (cf_tries _ _ _ _ _ _ Hspec).
    by destruct (TRIES c).
  - intros Hn. apply odict_get_None_keys. intros Hk. apply Hn.
    by apply (cf_needed _ _ _ _ _ _ Hspec), (cf_retry_keys _ _ _ _ _ _ Hspec).
Qed.

(** X5.  A successful [configure] leaves an engine a run can start on: the
    successors of every node are nodes, the graph has no cycle, every node
    has a retry record, and every record holds between zero and the
    resolved tries of its node. *)
Theorem configure_leaves_a_sound_engine :
  program_closed classes = true →
  find_class classes (__name__ root) = Some root →
  result.2 = CfgOk →
  engine_ok result.1 = true ∧ retry_sane result.1 = true ∧
  acyclic (graph result.1).
Proof.
  intros Hcl Hroot Hok.
  pose proof (configure_spec classes root now dt dd Hcl Hroot no_act cleanup_)
    as Hspec.
  rewrite Hok in Hspec.
  destruct (configured_engine_ok classes root now dt dd _ Hspec) as [? ?].
  split; [done|]. split; [done|]. apply (cf_acyclic _ _ _ _ _ _ Hspec).
Qed.

(** X6.  A [DEPS] that names the same job twice makes [configure] fail:
    when the numbers and the [DEPS] of all needed jobs are in order and a
    needed job lists a dependency twice, the graph library refuses the
    second edge and [configure] ends with its [AdditionError] for a needed
    job [u'] and the first entry [v] of its [DEPS] that repeats an earlier
    one; whether the graph has a cycle is not looked at. *)
Theorem duplicate_dependency_is_refused u :
  program_closed classes = true →
  find_class classes (__name__ root) = Some root →
  (∀ n c, needed classes root n → find_class classes n = Some c →
          (1 ≤ default dt (TRIES c))%Z ∧ (0 ≤ default dd (RETRY_DELAY c))%Z ∧
          is_Some (DEPS c)) →
  needed classes root u → ¬ NoDup (class_deps classes u) →
  ∃ u' v pre post,
    result.2 = CfgError (AdditionError u' v) ∧ needed classes root u' ∧
    class_deps classes u' = pre ++ v :: post ∧ NoDup pre ∧ v ∈ pre.
Proof.
  intros Hcl Hroot Hvalid Hu Hdup.
  pose proof (configure_spec classes root now dt dd Hcl Hroot no_act cleanup_)
    as Hspec.
  assert (∀ c, find_class classes u = Some c →
               class_ok dt dd c → False) as Hbad.
  { intros c Hc (_ & _ & ds & Hds & Hnd). apply Hdup.
    unfold class_deps. by rewrite Hc, Hds. }
  assert (is_Some (find_class classes u)) as [cu Hcu].
  { destruct (find_class classes u) eqn:Hf; [by eexists|].
    exfalso. apply Hdup. unfold class_deps. rewrite Hf. constructor. }
  destruct result.2 as [|e|]; [| |done].
  - exfalso. apply (Hbad cu Hcu).
    by apply (proj1 (cf_ok _ _ _ _ _ _ Hspec) u cu).
  - destruct e as [delay|t|n|c|u' v|k dl]; simpl in Hspec.
    + destruct Hspec as (n & c & Hn & Hc & <- & Hlt).
      destruct (Hvalid n c Hn Hc) as (_ & ? & _). lia.
    + destruct Hspec as (n & c & Hn & Hc & <- & Hlt).
      destruct (Hvalid n c Hn Hc) as (? & _). lia.
    + destruct Hspec as (c & Hn & Hc & Hnone).
      destruct (Hvalid n c Hn Hc) as (_ & _ & [ds Hds]). congruence.
    + destruct Hspec as (_ & _ & Hall). exfalso. apply (Hbad cu Hcu).
      by apply (Hall u cu).
    + destruct Hspec as (Hu' & (pre & post & Hpre) & _).
      by exists u', v, pre, post.
    + done.
Qed.

Lemma offending_failure e :
  offending classes root dt dd e →
  claimed_failure classes root dt dd ∨ repeated_dependency classes root.
Proof.
  intros Hoff. destruct e as [delay|t|n|c|u v|k dl]; simpl in Hoff.
  - destruct Hoff as (n & c & Hn & Hc & <- & Hlt).
    left. left. exists n, c. auto.
  - destruct Hoff as (n & c & Hn & Hc & <- & Hlt).
    left. left. exists n, c. auto.
  - destruct Hoff as (c & Hn & Hc & Hnone).
    left. left. exists n, c. auto.
  - destruct Hoff as ((a & z & Ha & Hz & Hp & Hza) & Hall & _).
    left. right. exists z, a.
    split; [by apply Hall, last_Some_elem_of|]. split; [done|].
    destruct c as [|a' l]; [done|]. simpl in Ha. injection Ha as ->.
    by eapply path_in_rtc.
  - destruct Hoff as (Hu & (pre & post & Hds & _ & Hv) & _).
    right. exists u. split; [done|]. rewrite Hds. intros Hnd.
    apply NoDup_app in Hnd as (_ & Hdisj & _). apply (Hdisj v Hv). left.
  - done.
Qed.

Lemma failure_not_ok :
  claimed_failure classes root dt dd ∨ repeated_dependency classes root →
  ¬ program_ok classes root dt dd.
Proof.
  intros Hfail [Hok Hac].
  destruct Hfail as [[(n & c & Hn & Hc & Hbad)|(n & m & Hn & Hnm & Hmn)]
                    |(n & Hn & Hdup)].
  - destruct (Hok n c Hn Hc) as (Ht & Hd & ds & Hds & _).
    destruct Hbad as [?|[?|?]]; [lia|lia|congruence].
  - by apply (Hac n m).
  - apply Hdup. unfold class_deps.
    destruct (find_class classes n) as [c|] eqn:Hc; [|constructor].
    destruct (Hok n c Hn Hc) as (_ & _ & ds & -> & Hnd). done.
Qed.

(** C4.  [configure] on a new engine, for a program whose [DEPS] name
    classes of the program.  It ends with an error exactly when a job the
    root needs has a resolved [TRIES] below one, a negative resolved
    [RETRY_DELAY] or a [DEPS] that is not iterable, or the dependencies of
    the needed jobs hold a cycle, or a needed job names a job twice in its
    [DEPS]; otherwise it succeeds.  The list of a [GraphCycle] is a cycle
    of needed jobs.  No job code is called by [configure], and a run
    leaves the nodes and edges of the graph as [configure] built them. *)
Theorem configuration_fails_exactly_when :
  program_closed classes = true →
  find_class classes (__name__ root) = Some root →
  ((∃ e, result.2 = CfgError e)
   ↔ claimed_failure classes root dt dd ∨ repeated_dependency classes root) ∧
  (result.2 = CfgOk
   ↔ ¬ (claimed_failure classes root dt dd ∨
        repeated_dependency classes root)) ∧
  (∀ cycle, result.2 = CfgError (GraphCycle cycle) →
     cycle_in (depends classes) cycle ∧
     ∀ x, x ∈ cycle → needed classes root x) ∧
  (∀ fuel node (s : @State W Val Exc),
     pygraph.node_neighbors (graph (dj (checknrun fuel node s).1))
     = pygraph.node_neighbors (graph (dj s))).
Proof.
  intros Hcl Hroot.
  pose proof (configure_spec classes root now dt dd Hcl Hroot no_act cleanup_)
    as Hspec.
  split; [|split; [|split]].
  - split.
    + intros [e He]. rewrite He in Hspec. by apply (offending_failure e).
    + intros Hfail. destruct result.2 as [|e|]; [| |done].
      * destruct (failure_not_ok Hfail). apply (cf_ok _ _ _ _ _ _ Hspec).
      * by exists e.
  - split.
    + intros Hok Hfail. rewrite Hok in Hspec.
      destruct (failure_not_ok Hfail). apply (cf_ok _ _ _ _ _ _ Hspec).
    + intros Hno. destruct result.2 as [|e|]; [done| |done].
      destruct Hno. by apply (offending_failure e).
  - intros cycle He. rewrite He in Hspec. simpl in Hspec.
    destruct Hspec as (Hc & Hall & _). done.
  - intros fuel node s. apply (fr_neighbors _ _ (frame_checknrun fuel node s)).
Qed.

(** C8.  The retry record of a needed job is written once, by [configure]:
    the resolved tries and delay of its class, the time of the
    configuration, and [-1] as its last phase.  It lives as long as the
    engine: the start of a run resets neither the records nor the phase
    counter, a run takes one try with each attempt, and the next run
    starts from the records the run before it left.  The attempts of two
    runs together are at most the resolved tries. *)
Theorem retry_records_live_with_the_engine n c f1 n1 f2 n2
    (s : @State W Val Exc) :
  program_closed classes = true →
  find_class classes (__name__ root) = Some root →
  result.2 = CfgOk →
  needed classes root n → find_class classes n = Some c →
  dj s = result.1 →
  odict.get n (_retry (dj s)) = Some (fresh_retry now dt dd c) ∧
  max_tries (dj s) n = Some (default dt (TRIES c)) ∧
  ∃ r1 r2,
    odict.get n (_retry (dj (checknrun f1 n1 s).1)) = Some r1 ∧
    odict.get n (_retry (dj (begin_run (checknrun f1 n1 s).1))) = Some r1 ∧
    _run_phase (dj (begin_run (checknrun f1 n1 s).1))
    = _run_phase (dj (checknrun f1 n1 s).1) ∧
    odict.get n (_retry (dj (checknrun f2 n2 (checknrun f1 n1 s).1).1))
    = Some r2 ∧
    (tries r1
     = default dt (TRIES c)
       - Z.of_nat (attempts_of n (since s (checknrun f1 n1 s).1)))%Z ∧
    (tries r2
     = tries r1
       - Z.of_nat (attempts_of n
                     (since (checknrun f1 n1 s).1
                            (checknrun f2 n2 (checknrun f1 n1 s).1).1)))%Z ∧
    (0 ≤ tries r2)%Z.
Proof.
  intros Hcl Hroot Hok Hn Hc Hdj.
  pose proof (configure_spec classes root now dt dd Hcl Hroot no_act cleanup_)
    as Hspec.
  rewrite Hok in Hspec.
  destruct (configured_engine_ok classes root now dt dd _ Hspec) as [_ Hsane].
  assert (∃ c', odict.get n (_classmap result.1) = Some c') as [c' Hc'].
  { apply odict_get_Some_keys. by apply (cf_needed _ _ _ _ _ _ Hspec). }
  destruct (cf_class _ _ _ _ _ _ Hspec n c' Hc') as [Hf Hr].
  assert (c' = c) as -> by congruence.
  rewrite <- Hdj in Hsane, Hr, Hc'.
  split; [exact Hr|]. split.
  { unfold max_tries. rewrite Hc', Hdj, (cf_tries _ _ _ _ _ _ Hspec).
    by destruct (TRIES c). }
  destruct (accounted_checknrun f1 n1 s) as [(ev1 & Hc1 & Ht1 & _) Hs1].
  specialize (Hs1 Hsane). set (s1 := (checknrun f1 n1 s).1) in *.
  destruct (accounted_checknrun f2 n2 s1) as [(ev2 & Hc2 & Ht2 & _) Hs2].
  specialize (Hs2 Hs1). set (s2 := (checknrun f2 n2 s1).1) in *.
  rewrite (since_app _ _ _ Hc1), (since_app _ _ _ Hc2).
  specialize (Ht1 n). rewrite Hr in Ht1.
  destruct (odict.get n (_retry (dj s1))) as [r1|] eqn:Hr1; [|done].
  specialize (Ht2 n). rewrite Hr1 in Ht2.
  destruct (odict.get n (_retry (dj s2))) as [r2|] eqn:Hr2; [|done].
  destruct (retry_sane_get _ _ _ Hs2 Hr2) as (t & _ & Hpos & _).
  exists r1, r2. split; [done|]. split; [exact Hr1|]. split; [done|].
  split; [done|].
  destruct Ht1 as [Ht1 _], Ht2 as [Ht2 _]. simpl in Ht1. lia.
Qed.

End ConfigureTheorems.

(** ** Runs of a configured engine *)

Section RunFacts.
Context {W Val Exc : Type}.
Implicit Types s : @State W Val Exc.
Implicit Types d : @DoJobber W Val Exc.

(** The calls made up to a state [s], since [s0], hold no [Cleanup]. *)
Definition no_cleanup_since (s0 s : @State W Val Exc) : Prop :=
  ∃ evs, calls s = calls s0 ++ evs ∧
         ∀ id ty ok, EvCleanup id ty ok ∉ evs.

Lemma no_cleanup_since_refl s : no_cleanup_since s s.
Proof.
  exists []. rewrite app_nil_r. split; [done|].
  intros id ty ok. apply not_elem_of_nil.
Qed.

Lemma shape_no_cleanup_events n b evs st id ty ok :
  attempt_shape n b evs st → EvCleanup id ty ok ∉ evs.
Proof.
  intros Hs Hin. destruct Hs;
    repeat (apply elem_of_cons in Hin as [Hin|Hin]; [discriminate Hin|]);
    by apply elem_of_nil in Hin.
Qed.

Lemma no_cleanup_since_attempt s0 n s :
  no_cleanup_since s0 s → no_cleanup_since s0 (attempt n s).1.
Proof.
  intros (evs & Hevs & Hno).
  destruct (attempt_cases n s) as [->|(r & _ & _ & _ & ->)].
  { by exists evs. }
  simpl. destruct (run_job_shape n (charged n r s)) as (evs' & Hc & Hshape).
  destruct (charged_effect n r s) as [_ Hch].
  exists (evs ++ [EvAttempt n (_run_phase (dj s)) (nodestatus (dj s))] ++ evs').
  split.
  { rewrite Hc, Hch, Hevs. by rewrite <- !app_assoc. }
  intros id ty ok Hin. apply elem_of_app in Hin as [Hin|Hin].
  { by apply (Hno id ty ok). }
  apply elem_of_app in Hin as [Hin|Hin].
  { by apply list_elem_of_singleton in Hin. }
  by apply (shape_no_cleanup_events _ _ _ _ id ty ok Hshape).
Qed.

Lemma no_cleanup_since_loop f node trynum s :
  no_cleanup_since s (checknrun_loop f node trynum s).1.1.
Proof.
  apply (checknrun_loop_preserves (no_cleanup_since s)).
  - intros n s' H. exact H.
  - intros n s' H. by apply no_cleanup_since_attempt.
  - intros s' H. exact H.
  - apply no_cleanup_since_refl.
Qed.

(** X7.  The tries of a job are spent for the life of the engine, not for
    one run: nothing gives a try back.  Over two runs of one engine the
    record of a job loses one try with each attempt, the second run starts
    from the records the first one left, and the attempts of both runs
    together are at most the tries the record held before the first. *)
Theorem tries_are_spent_for_good f1 n1 f2 n2 s n r :
  retry_sane (dj s) = true →
  odict.get n (_retry (dj s)) = Some r →
  ∃ r1 r2,
    odict.get n (_retry (dj (checknrun f1 n1 s).1)) = Some r1 ∧
    odict.get n (_retry (dj (begin_run (checknrun f1 n1 s).1))) = Some r1 ∧
    odict.get n (_retry (dj (checknrun f2 n2 (checknrun f1 n1 s).1).1))
    = Some r2 ∧
    (tries r1
     = tries r - Z.of_nat (attempts_of n (since s (checknrun f1 n1 s).1)))%Z ∧
    (tries r2
     = tries r1
       - Z.of_nat (attempts_of n
                     (since (checknrun f1 n1 s).1
                            (checknrun f2 n2 (checknrun f1 n1 s).1).1)))%Z ∧
    (Z.of_nat (attempts_of n (since s (checknrun f1 n1 s).1)
               + attempts_of n
                   (since (checknrun f1 n1 s).1
                          (checknrun f2 n2 (checknrun f1 n1 s).1).1))
     ≤ tries r)%Z.
Proof.
  intros Hsane Hr.
  destruct (accounted_checknrun f1 n1 s) as [(ev1 & Hc1 & Ht1 & _) Hs1].
  specialize (Hs1 Hsane). set (s1 := (checknrun f1 n1 s).1) in *.
  destruct (accounted_checknrun f2 n2 s1) as [(ev2 & Hc2 & Ht2 & _) Hs2].
  specialize (Hs2 Hs1). set (s2 := (checknrun f2 n2 s1).1) in *.
  rewrite (since_app _ _ _ Hc1), (since_app _ _ _ Hc2).
  specialize (Ht1 n). rewrite Hr in Ht1.
  destruct (odict.get n (_retry (dj s1))) as [r1|] eqn:Hr1; [|done].
  specialize (Ht2 n). rewrite Hr1 in Ht2.
  destruct (odict.get n (_retry (dj s2))) as [r2|] eqn:Hr2; [|done].
  destruct (retry_sane_get _ _ _ Hs2 Hr2) as (t & _ & Hpos & _).
  exists r1, r2. split; [done|]. split; [exact Hr1|]. split; [done|].
  destruct Ht1 as [Ht1 _], Ht2 as [Ht2 _]. lia.
Qed.

(** X8.  A run that has no target raises before any job code is called:
    [checknrun(node)] for a name that is not in the graph ends with the
    [KeyError] of the graph search, and [checknrun()] on an engine without a
    root with the [AttributeError] of [None.__name__].  The statuses are
    already reset, and the cleanup pass is not made.  The empty name is no
    node of its own: it is falsy, so [checknrun("")] is [checknrun()]. *)
Theorem run_without_target_raises fuel s :
  fuel ≠ 0 →
  (∀ n, n ≠ "" → n ∉ pygraph.nodes (graph (dj s)) →
        checknrun fuel (Some n) s = (begin_run s, Raise (KeyError n))) ∧
  (_root (dj s) = None →
   checknrun fuel None s = (begin_run s, Raise (AttributeError "__name__")) ∧
   checknrun fuel (Some "") s
   = (begin_run s, Raise (AttributeError "__name__"))) ∧
  checknrun fuel (Some "") s = checknrun fuel None s.
Proof.
  intros Hfuel. destruct fuel as [|f]; [done|]. split; [|split].
  - intros n Hne Hn. unfold checknrun. rewrite checknrun_loop_S.
    unfold depth_bound, _checknrun, given. rewrite decide_False by done.
    simpl. unfold pygraph.depth_first_search, pygraph.has_node.
    by rewrite (proj2 (odict_mem_false n _) Hn).
  - intros Hroot. split.
    + unfold checknrun. rewrite checknrun_loop_S.
      unfold _checknrun. simpl. by rewrite Hroot.
    + unfold checknrun. rewrite checknrun_loop_S.
      unfold _checknrun. simpl. by rewrite Hroot.
  - unfold checknrun.
    assert (∀ fu tn (st : @State W Val Exc),
              checknrun_loop fu (Some "") tn st = checknrun_loop fu None tn st)
      as ->; [|done].
    induction fu as [|fu IH]; intros tn st; [done|].
    rewrite !checknrun_loop_S.
    change (_checknrun (depth_bound (dj st)) (Some "") st)
      with (_checknrun (depth_bound (dj st)) None st).
    destruct (_checknrun (depth_bound (dj st)) None st) as [s1 fl].
    destruct fl; [|done..]. destruct (success (dj s1)); [done|]. cbv zeta.
    destruct (retriable _) as [k|[|y ys]]; [done|done|].
    destruct (_no_act _); [done|]. apply IH.
Qed.

(** X9.  With [cleanup=False] a run calls no [Cleanup] at all: it is the
    loop of passes and nothing else. *)
Theorem cleanup_disabled_calls_no_cleanup fuel node s :
  _cleanup (dj s) = false →
  checknrun fuel node s
  = (checknrun_loop fuel node 0 (begin_run s)).1 ∧
  ∀ id ty ok, EvCleanup id ty ok ∉ since s (checknrun fuel node s).1.
Proof.
  intros Hcl.
  pose proof (no_cleanup_since_loop fuel node 0 (begin_run s)) as Hno.
  pose proof (frame_checknrun_loop fuel node 0 (begin_run s)) as Hfr.
  assert (checknrun fuel node s
          = (checknrun_loop fuel node 0 (begin_run s)).1) as Heq.
  { unfold checknrun.
    destruct (checknrun_loop fuel node 0 (begin_run s)) as [[s1 fl] tn].
    simpl in *. destruct fl; [|done..].
    rewrite (fr_cleanup _ _ Hfr). simpl. by rewrite Hcl. }
  split; [done|]. rewrite Heq.
  destruct Hno as (evs & Hevs & Hno). simpl in Hevs.
  by rewrite (since_app s _ evs Hevs).
Qed.

(** X10.  [success] implies [partial_success]; on an engine without
    statuses (new, or at the start of a run) both are false and [failure]
    is true; and [success] is lost as soon as one node is not successful. *)
Theorem success_implies_partial_success d :
  (success d = true → partial_success d = true) ∧
  (nodestatus d = ∅ →
   success d = false ∧ partial_success d = false ∧ failure d = true) ∧
  (∀ n, status_true d n = false → is_Some (nodestatus d !! n) →
        success d = false ∧ failure d = true).
Proof.
  unfold failure, success, partial_success. split; [|split].
  - intros H. apply andb_true_iff in H as [Hne Hall].
    rewrite Hne. simpl. apply bool_decide_eq_true in Hne, Hall.
    apply bool_decide_eq_true.
    destruct (map_choose _ Hne) as (n & v & Hn).
    exists n, v. split; [done|]. by apply (Hall n v).
  - intros ->. by rewrite bool_decide_eq_false_2 by (intros H; by apply H).
  - intros n Hn [v Hv].
    assert (bool_decide (map_Forall (λ _ v, v = Some true) (nodestatus d))
            = false) as ->; [|by rewrite andb_false_r].
    apply bool_decide_eq_false. intros Hall.
    specialize (Hall n v Hv). simpl in Hall. subst v.
    unfold status_true in Hn. by rewrite Hv in Hn.
Qed.

(** X14.  A job whose constructor raises: the node is marked failed with
    the constructor's exception, none of its methods is called, and no
    instance is recorded, so the cleanup pass has nothing to call for this
    attempt. *)
Theorem failed_constructor_fails_the_node n cls err s :
  odict.get n (_classmap (dj s)) = Some cls →
  (__init__ cls (env s)).2 = Some err →
  since s (run_job n s) = [EvInit n false] ∧
  status_of (dj (run_job n s)) n = failed ∧
  nodeexceptions (dj (run_job n s)) !! n = Some (JobError err) ∧
  _objsrun (dj (run_job n s)) = _objsrun (dj s) ∧
  env (run_job n s) = (__init__ cls (env s)).1.
Proof.
  intros Hcls Hinit. unfold run_job. rewrite Hcls.
  destruct (__init__ cls (env s)) as [e1 r]. simpl in Hinit. subst r.
  split; [|split; [|split; [|split]]].
  - unfold since. simpl. by rewrite drop_app_length.
  - apply status_of_node_failed.
  - simpl. by rewrite lookup_insert_eq.
  - done.
  - done.
Qed.

End RunFacts.

(** ** A run aimed at a part of the graph *)

Section PartialRun.
Context {W Val Exc : Type}.
Implicit Types s : @State W Val Exc.

Lemma retriable_of_inl (status : gmap string (option bool))
    (retry : list (string * Retry)) x :
  x ∈ odict.keys retry → status !! x = None →
  ∃ k, retriable_of status retry = inl k ∧ k ∈ odict.keys retry ∧
       status !! k = None.
Proof.
  induction retry as [|[k0 r] rest IH]; intros Hx Hnone.
  { by apply elem_of_nil in Hx. }
  simpl. destruct (status !! k0) as [v|] eqn:Hk0.
  - simpl in Hx. apply elem_of_cons in Hx as [->|Hx]; [congruence|].
    destruct (IH Hx Hnone) as (k & -> & Hk & Hkn).
    exists k. split; [done|]. split; [by right|done].
  - exists k0. split; [done|]. split; [left|done].
Qed.

(** X11.  [checknrun(node)] aimed at a node that does not reach every
    registered job: unless the first pass already succeeds, the run ends
    with a [KeyError].  The list of retriable jobs is computed over all
    retry records, and [self.nodestatus[x]] fails for the first job that has
    no status, a job the target does not reach.  The run then stops after
    one pass: nothing is retried and the cleanup pass is not made. *)
Theorem run_of_a_part_raises_KeyError fuel node s top x :
  engine_ok (dj s) = true → target (dj s) node = Some top →
  top ∈ pygraph.nodes (graph (dj s)) → fuel ≠ 0 →
  x ∈ odict.keys (_retry (dj s)) → ¬ reach (graph (dj s)) top x →
  success (dj (checknrun fuel node s).1) = true ∨
  ∃ k, (checknrun fuel node s).2 = Raise (KeyError k) ∧
       k ∈ odict.keys (_retry (dj s)) ∧ ¬ reach (graph (dj s)) top k ∧
       _run_phase (dj (checknrun fuel node s).1) = (_run_phase (dj s) + 1)%Z ∧
       ∀ id ty ok, EvCleanup id ty ok ∉ since s (checknrun fuel node s).1.
Proof.
  intros Hok Htop Hin Hfuel Hx Hnot.
  destruct (engine_ok_spec _ Hok) as (Hcl & Hac & Hretry).
  set (g := graph (dj s)) in *.
  assert (provided g (begin_run s)) as Hprov by done.
  destruct fuel as [|f]; [done|].
  unfold checknrun. rewrite checknrun_loop_S.
  assert (_checknrun (depth_bound (dj (begin_run s))) node (begin_run s)
          = _checknrun_at (depth_bound (dj (begin_run s))) top (begin_run s))
    as ->.
  { unfold _checknrun, target in *. destruct (given node) as [y|].
    - by injection Htop as ->.
    - simpl. destruct (_root (dj s)); [|done]. simpl in Htop.
      by injection Htop as ->. }
  set (db := depth_bound (dj (begin_run s))).
  assert (weight g top ≤ db) as Hw.
  { unfold db, depth_bound. simpl. pose proof (weight_le g Hcl top).
    fold g. lia. }
  pose proof (_checknrun_at_normal g Hcl Hac db top (begin_run s) Hprov Hin Hw)
    as Hfl.
  destruct (depth_first_search_Some g top Hin) as [post Hd].
  pose proof (_checknrun_at_covers db top (begin_run s) post Hd Hfl) as Hcov.
  destruct (depth_first_search_reach g Hcl top post Hd) as [_ Hpost].
  destruct (good_begin_run g top s eq_refl) as [Hgood Hfalse].
  pose proof (run_step__checknrun_at g Hcl top db top (begin_run s) Hgood
                (Hfalse top) (rtc_refl _ _)) as [(_ & _ & Hwithin) _].
  pose proof (pass_step__checknrun_at db top (begin_run s) (Hfalse top))
    as Hpass.
  pose proof (frame__checknrun_at db top (begin_run s)) as Hfr.
  pose proof (_checknrun_at_preserves (no_cleanup_since (begin_run s))
                (λ n s' H, H)
                (λ n s' H, no_cleanup_since_attempt (begin_run s) n s' H)
                db top (begin_run s) (no_cleanup_since_refl _)) as Hnc.
  destruct (_checknrun_at db top (begin_run s)) as [s1 fl]. simpl in *.
  subst fl. destruct (success (dj s1)) eqn:Hs.
  { left. destruct (_cleanup (dj s1)); [|done].
    by destruct (cleanup_no_attempts s1) as (-> & _). }
  right. cbv zeta.
  destruct (retriable_of_inl (nodestatus (dj s1)) (_retry (dj s1)) x)
    as (k & Hk & Hkin & Hkn).
  { by rewrite (fr_retry_keys _ _ Hfr). }
  { destruct (nodestatus (dj s1) !! x) eqn:Hsx; [|done].
    exfalso. apply Hnot, Hwithin. by eexists. }
  unfold retriable. simpl. rewrite Hk. simpl.
  exists k. split; [done|]. split.
  { by rewrite (fr_retry_keys _ _ Hfr) in Hkin. }
  split.
  { intros Hr. destruct (Hcov k (proj2 (Hpost k) Hr)) as [v Hv]. congruence. }
  split.
  { by rewrite (ps_phase _ _ Hpass). }
  destruct Hnc as (evs & Hevs & Hno). simpl in Hevs.
  assert (since s (upd_dj (λ d, set_run_phase (_run_phase d + 1)%Z d) s1)
          = evs) as -> by (by apply since_app).
  done.
Qed.

End PartialRun.

(** ** The job classes the module provides *)

Section BuiltinJobs.
Import Examples.
Implicit Types s : @State World string string.

(** X12.  A [RunonlyJob]: an attempt constructs the job, fails the first
    [Check] on purpose, calls [Run] exactly once and hands its outcome on
    through the recheck, so the node ends successful exactly when [Run]
    returned, with the result of [Run] as the node's result or its
    exception as the node's exception.  In no-act mode [Run] is not called
    and the node fails. *)
Theorem runonly_job_runs_once n name deps run s :
  odict.get n (_classmap (dj s)) = Some (RunonlyJob name deps run) →
  let obj :=
    set_check_exception "Runonly node check intentionally fails first time."
      (set_check_phase "check" (new_job (length (_objsrun (dj s))) name)) in
  if _no_act (dj s) then
    since s (run_job n s) = [EvInit n true; EvCheck n "check" false] ∧
    status_of (dj (run_job n s)) n = failed ∧
    env (run_job n s) = env s
  else
    since s (run_job n s)
    = [EvInit n true; EvCheck n "check" false;
       EvRun n (passed (run obj (env s)).2);
       EvCheck n "recheck" (passed (run obj (env s)).2)] ∧
    env (run_job n s) = (run obj (env s)).1 ∧
    match (run obj (env s)).2 with
    | Returns v =>
        status_of (dj (run_job n s)) n = eventually_succeeded ∧
        noderesults (dj (run_job n s)) !! n = Some v
    | Raises err =>
        status_of (dj (run_job n s)) n = failed ∧
        nodeexceptions (dj (run_job n s)) !! n = Some (JobError err)
    end.
Proof.
  intros Hcls obj. unfold run_job. rewrite Hcls. simpl.
  unfold check_run_check. simpl.
  destruct (_no_act (dj s)) eqn:Hna.
  - split; [|split].
    + unfold since. simpl. rewrite <- app_assoc. by rewrite drop_app_length.
    + apply status_of_node_failed.
    + done.
  - fold obj. destruct (run obj (env s)) as [e2 r2] eqn:Hrun.
    destruct r2 as [v|err]; simpl.
    + split; [|split; [done|split]].
      * unfold since. simpl. rewrite <- !app_assoc. by rewrite drop_app_length.
      * apply status_of_node_eventually_succeeded.
      * by rewrite lookup_insert_eq.
    + split; [|split; [done|split]].
      * unfold since. simpl. rewrite <- !app_assoc. by rewrite drop_app_length.
      * apply status_of_node_failed.
      * by rewrite lookup_insert_eq.
Qed.

(** X13.  A [DummyJob]: an attempt constructs the job and its first
    [Check] passes, in no-act mode too, so the node succeeds at once; [Run]
    and the recheck are never called and the job's methods leave the world
    as it is. *)
Theorem dummy_job_succeeds_at_once n name deps s :
  odict.get n (_classmap (dj s)) = Some (DummyJob name deps) →
  since s (run_job n s) = [EvInit n true; EvCheck n "check" true] ∧
  status_of (dj (run_job n s)) n = succeeded ∧
  status_true (dj (run_job n s)) n = true ∧
  env (run_job n s) = env s.
Proof.
  intros Hcls. unfold run_job. rewrite Hcls. simpl.
  unfold check_run_check. simpl. split; [|split; [|split]].
  - unfold since. simpl. rewrite <- app_assoc. by rewrite drop_app_length.
  - apply status_of_node_succeeded.
  - unfold status_true. simpl. by rewrite lookup_insert_eq.
  - done.
Qed.

End BuiltinJobs.

(** ** Every pass after the first makes an attempt *)

Section Progress.
Context {W Val Exc : Type}.
Implicit Types s : @State W Val Exc.
Variable g : pygraph.digraph.
Hypothesis closed : graph_closed g = true.
Variable top : string.













End Progress.

(** ** The invariants of a run that termination rests on *)

Section Steady.
Context {W Val Exc : Type}.
Implicit Types s : @State W Val Exc.
Implicit Types d : @DoJobber W Val Exc.
Variable g : pygraph.digraph.
Hypothesis closed : graph_closed g = true.
Variable top : string.












End Steady.

(** ** Termination of a run *)

Section Termination.
Context {W Val Exc : Type}.
Implicit Types s : @State W Val Exc.
Variable g : pygraph.digraph.
Hypothesis closed : graph_closed g = true.
Hypothesis no_cycle : acyclic g.
Variable top : string.
Hypothesis Htop : top ∈ pygraph.nodes g.









End Termination.

(** ** A run ends *)

Section RunEnds.
Context {W Val Exc : Type}.
Implicit Types s : @State W Val Exc.





End RunEnds.

(** ** The theorems at work on the example programs *)

Module Witnesses.
Import Examples.


(** C9 does not hold as stated.  A first run of [R] leaves the result of
    [A]; when a second run begins the result is still there, and it is still
    there when the second run is over, although [A] is then untested. *)
Lemma results_survive_a_new_run :
  let s1 := (checknrun 5 None (ready R false true)).1 in
  noderesults (dj s1) !! "A" = Some "ok" ∧
  noderesults (dj (begin_run s1)) !! "A" = Some "ok" ∧
  noderesults (dj (begin_run s1)) ≠ ∅ ∧
  status_of (dj (checknrun 5 None s1).1) "A" = untested ∧
  noderesults (dj (checknrun 5 None s1).1) !! "A" = Some "ok".
Proof.
  vm_compute. repeat split; done.
Qed.

(** C8 does not hold as stated.  [F] has [TRIES = 2] and always fails: the
    first run of [R2] uses both tries, in phases 0 and 1.  When the second
    run begins the record of [F] still holds no tries and phase 1, the phase
    counter still stands at 2, and the second run does not attempt [F]. *)
Lemma retry_records_are_not_reset :
  let s1 := (checknrun 5 None (ready R2 false true)).1 in
  max_tries (dj s1) "F" = Some 2%Z ∧
  odict.get "F" (_retry (dj (begin_run s1)))
  = Some {| tries := 0; retry_delay := 1; nexttry := 103; lastphase := 1 |} ∧
  _run_phase (dj (begin_run s1)) = 2%Z ∧
  attempts_of "F" (since (ready R2 false true) s1) = 2 ∧
  attempts_of "F" (since s1 (checknrun 5 None s1).1) = 0.
Proof. vm_compute. repeat split. Qed.

(** [R2] depends on [A] and on [F], which has two tries and always fails:
    [F] is attempted twice, once in phase 0 and once in phase 1. *)
Lemma attempts_bounded_witness :
  let s := ready R2 false true in
  retry_sane (dj s) = true ∧
  (∀ n r, odict.get n (_retry (dj s)) = Some r →
     ∃ t, max_tries (dj s) n = Some t ∧
          (Z.of_nat (attempts_of n (since s (checknrun 5 None s).1))
           ≤ tries r ≤ t)%Z) ∧
  (∀ n, odict.get n (_retry (dj s)) = None →
        attempts_of n (since s (checknrun 5 None s).1) = 0) ∧
  (∀ n p, attempts_at n p (since s (checknrun 5 None s).1) ≤ 1) ∧
  retry_sane (dj (checknrun 5 None s).1) = true ∧
  (∀ n (s1 : @State World string string),
     retry_sane (dj s1) = true → since s1 (attempt n s1).1 ≠ [] →
     ∃ r, odict.get n (_retry (dj s1)) = Some r ∧
          (lastphase r < _run_phase (dj s1))%Z ∧ (0 < tries r)%Z ∧
          attempt n s1 = (run_job n (charged n r s1), Normal) ∧
          odict.get n (_retry (dj (charged n r s1)))
          = Some {| tries := tries r - 1; retry_delay := retry_delay r;
                    nexttry := clock (env (charged n r s1)) + retry_delay r;
                    lastphase := _run_phase (dj s1) |} ∧
          _retry (dj (attempt n s1).1) = _retry (dj (charged n r s1))).
Proof.
  intros s.
  assert (retry_sane (dj s) = true) as H by (vm_compute; reflexivity).
  split; [exact H|]. exact (attempts_bounded 5 None s H).
Defined.

(** The same run: [R2] is never attempted, because [F] never succeeds. *)
Lemma blocked_nodes_are_not_attempted_witness :
  let s := ready R2 false true in
  graph_closed (graph (dj s)) = true ∧
  attempts_unblocked (graph (dj s)) (since s (checknrun 5 None s).1) ∧
  success_closed (graph (dj s)) (dj (checknrun 5 None s).1) ∧
  (∀ f x (s1 : @State World string string) post,
     pygraph.depth_first_search (graph (dj s1)) x = Some post →
     (deps_loop (_checknrun_at f) x post false s1).1.2 = Normal →
     (∃ d, d ∈ post ∧ d ≠ x ∧
           status_true (dj (deps_loop (_checknrun_at f) x post false s1).1.1) d
           = false) →
     _checknrun_at (S f) x s1
     = (upd_dj (mark_untested x)
               (deps_loop (_checknrun_at f) x post false s1).1.1, Normal) ∧
     nodestatus (dj (_checknrun_at (S f) x s1).1) !! x
     = Some (default None
               (nodestatus
                  (dj (deps_loop (_checknrun_at f) x post false s1).1.1) !! x)) ∧
     calls (_checknrun_at (S f) x s1).1
     = calls (deps_loop (_checknrun_at f) x post false s1).1.1).
Proof.
  intros s.
  assert (graph_closed (graph (dj s)) = true) as H by (vm_compute; reflexivity).
  split; [exact H|]. exact (blocked_nodes_are_not_attempted 5 None s H).
Defined.

(** [R] in no-act mode: the [Check] of [A] fails, [A] is left failed and
    the loop stops after its first pass. *)
Lemma no_act_mode_witness :
  let s := ready R true true in
  _no_act (dj s) = true ∧
  checknrun_loop 5 None 0 (begin_run s) = checknrun_loop 1 None 0 (begin_run s) ∧
  Forall (no_act_event (_run_phase (dj s))) (since s (checknrun 5 None s).1) ∧
  (∀ n, status_true (dj (checknrun 5 None s).1) n = true →
        status_of (dj (checknrun 5 None s).1) n = succeeded ∧
        EvCheck n "check" true ∈ since s (checknrun 5 None s).1) ∧
  (∀ n (s1 : @State World string string), _no_act (dj s1) = true →
           EvCheck n "check" false ∈ since s1 (run_job n s1) →
           since s1 (run_job n s1) = [EvInit n true; EvCheck n "check" false] ∧
           status_of (dj (run_job n s1)) n = failed).
Proof.
  intros s.
  assert (_no_act (dj s) = true) as H by (vm_compute; reflexivity).
  split; [exact H|]. exact (no_act_mode 4 None s H).
Defined.

(** The run of [R]: every node succeeds and [success] is true. *)
Lemma success_reflects_statuses_witness :
  let s := ready R false true in
  engine_ok (dj s) = true ∧ target (dj s) None = Some "R" ∧
  "R" ∈ pygraph.nodes (graph (dj s)) ∧ 5 ≠ 0 ∧
  (success (dj (checknrun 5 None s).1) = true ↔
   ∀ n, reach (graph (dj s)) "R" n →
        status_of (dj (checknrun 5 None s).1) n = succeeded ∨
        status_of (dj (checknrun 5 None s).1) n = eventually_succeeded) ∧
  failure (dj (checknrun 5 None s).1)
  = negb (success (dj (checknrun 5 None s).1)) ∧
  (partial_success (dj (checknrun 5 None s).1) = true ↔
   ∃ n, status_of (dj (checknrun 5 None s).1) n = succeeded ∨
        status_of (dj (checknrun 5 None s).1) n = eventually_succeeded).
Proof.
  intros s.
  assert (engine_ok (dj s) = true) as H1 by (vm_compute; reflexivity).
  assert (target (dj s) None = Some "R") as H2 by (vm_compute; reflexivity).
  assert ("R" ∈ pygraph.nodes (graph (dj s))) as H3
    by (apply list_elem_of_In; vm_compute; tauto).
  assert (5 ≠ 0) as H4 by discriminate.
  repeat (split; [assumption|]).
  exact (success_reflects_statuses 5 None s "R" H1 H2 H3 H4).
Defined.


(** [configure] for the root [R], which needs [A] and [B]. *)
Lemma configure_succeeds_exactly_when_witness :
  program_closed program = true ∧
  find_class program (__name__ R) = Some R ∧
  (((configure program (clock start) R false true 3 1 new_DoJobber).2 = CfgOk ↔ program_ok program R 3 1) ∧
   (configure program (clock start) R false true 3 1 new_DoJobber).2 ≠ CfgOutOfFuel).
Proof.
  assert (program_closed program = true) as H1 by (vm_compute; reflexivity).
  assert (find_class program (__name__ R) = Some R) as H2 by reflexivity.
  split; [exact H1|]. split; [exact H2|].
  exact (configure_succeeds_exactly_when program R (clock start) 3 1
           false true H1 H2).
Defined.

(** [D3] lists [A], [B] and [B] again: [configure] names the edge from
    [D3] to [B], the entry that repeats an earlier one. *)
Lemma configure_error_names_the_offence_witness :
  program_closed program = true ∧
  find_class program (__name__ D3) = Some D3 ∧
  (configure program (clock start) D3 false true 3 1 new_DoJobber).2 = CfgError (AdditionError "D3" "B") ∧
  offending program D3 3 1 (AdditionError "D3" "B").
Proof.
  assert (program_closed program = true) as H1 by (vm_compute; reflexivity).
  assert (find_class program (__name__ D3) = Some D3) as H2 by reflexivity.
  assert ((configure program (clock start) D3 false true 3 1 new_DoJobber).2 = CfgError (AdditionError "D3" "B"))
    as H3 by (vm_compute; reflexivity).
  split; [exact H1|]. split; [exact H2|]. split; [exact H3|].
  exact (configure_error_names_the_offence program D3 (clock start) 3 1
           false true (AdditionError "D3" "B") H1 H2 H3).
Defined.

Lemma configure_builds_the_dependency_graph_witness :
  program_closed program = true ∧
  find_class program (__name__ R) = Some R ∧
  (configure program (clock start) R false true 3 1 new_DoJobber).2 = CfgOk ∧
  ((∀ n, n ∈ pygraph.nodes (graph (configure program (clock start) R false true 3 1 new_DoJobber).1)
         ↔ needed program R n) ∧
   (∀ n, needed program R n →
         odict.get n (_classmap (configure program (clock start) R false true 3 1 new_DoJobber).1)
         = find_class program n ∧
         is_Some (find_class program n) ∧
         pygraph.neighbors (graph (configure program (clock start) R false true 3 1 new_DoJobber).1) n
         = class_deps program n) ∧
   (∀ x y, edge (graph (configure program (clock start) R false true 3 1 new_DoJobber).1) x y ↔
           needed program R x ∧ depends program x y) ∧
   target (configure program (clock start) R false true 3 1 new_DoJobber).1 None = Some (__name__ R)).
Proof.
  assert (program_closed program = true) as H1 by (vm_compute; reflexivity).
  assert (find_class program (__name__ R) = Some R) as H2 by reflexivity.
  assert ((configure program (clock start) R false true 3 1 new_DoJobber).2 = CfgOk) as H3
    by (vm_compute; reflexivity).
  split; [exact H1|]. split; [exact H2|]. split; [exact H3|].
  exact (configure_builds_the_dependency_graph program R (clock start) 3 1
           false true H1 H2 H3).
Defined.

Lemma configure_writes_fresh_retry_records_witness :
  program_closed program = true ∧
  find_class program (__name__ R2) = Some R2 ∧
  (configure program (clock start) R2 false true 3 1 new_DoJobber).2 = CfgOk ∧
  ((needed program R2 "F" →
    ∃ c, find_class program "F" = Some c ∧
         odict.get "F" (_retry (configure program (clock start) R2 false true 3 1 new_DoJobber).1)
         = Some {| tries := default 3%Z (TRIES c);
                   retry_delay := default 1%Z (RETRY_DELAY c);
                   nexttry := clock start; lastphase := (-1)%Z |} ∧
         max_tries (configure program (clock start) R2 false true 3 1 new_DoJobber).1 "F"
         = Some (default 3%Z (TRIES c))) ∧
   (¬ needed program R2 "F" →
    odict.get "F" (_retry (configure program (clock start) R2 false true 3 1 new_DoJobber).1) = None)).
Proof.
  assert (program_closed program = true) as H1 by (vm_compute; reflexivity).
  assert (find_class program (__name__ R2) = Some R2) as H2 by reflexivity.
  assert ((configure program (clock start) R2 false true 3 1 new_DoJobber).2 = CfgOk) as H3
    by (vm_compute; reflexivity).
  split; [exact H1|]. split; [exact H2|]. split; [exact H3|].
  exact (configure_writes_fresh_retry_records program R2 (clock start) 3 1
           false true "F" H1 H2 H3).
Defined.

Lemma configure_leaves_a_sound_engine_witness :
  program_closed program = true ∧
  find_class program (__name__ R3) = Some R3 ∧
  (configure program (clock start) R3 false true 3 1 new_DoJobber).2 = CfgOk ∧
  (engine_ok (configure program (clock start) R3 false true 3 1 new_DoJobber).1 = true ∧
   retry_sane (configure program (clock start) R3 false true 3 1 new_DoJobber).1 = true ∧
   acyclic (graph (configure program (clock start) R3 false true 3 1 new_DoJobber).1)).
Proof.
  assert (program_closed program = true) as H1 by (vm_compute; reflexivity).
  assert (find_class program (__name__ R3) = Some R3) as H2 by reflexivity.
  assert ((configure program (clock start) R3 false true 3 1 new_DoJobber).2 = CfgOk) as H3
    by (vm_compute; reflexivity).
  split; [exact H1|]. split; [exact H2|]. split; [exact H3|].
  exact (configure_leaves_a_sound_engine program R3 (clock start) 3 1
           false true H1 H2 H3).
Defined.

(** What [D] needs: itself and [A], which it lists twice. *)
Lemma needed_by_D n : needed program D n → n = "D" ∨ n = "A".
Proof.
  unfold needed. revert n.
  apply (rtc_ind_r (λ n, n = "D" ∨ n = "A")); [by left|].
  intros y z _ Hyz [Hy|Hy]; subst y; unfold depends in Hyz.
  - change (z ∈ ["A"; "A"]) in Hyz. right.
    apply elem_of_cons in Hyz as [->|Hyz]; [done|].
    by apply list_elem_of_singleton in Hyz.
  - change (z ∈ []) in Hyz. by apply elem_of_nil in Hyz.
Qed.

Lemma needed_by_D_in_order n c :
  needed program D n → find_class program n = Some c →
  (1 ≤ default 3 (TRIES c))%Z ∧ (0 ≤ default 1 (RETRY_DELAY c))%Z ∧
  is_Some (DEPS c).
Proof.
  intros Hn Hc. destruct (needed_by_D n Hn) as [Hn'|Hn']; subst n;
    injection Hc as <-; simpl; (split; [lia|split; [lia|by eexists]]).
Qed.

Lemma D_lists_A_twice : ¬ NoDup (class_deps program "D").
Proof.
  change (¬ NoDup ["A"; "A"]). intros Hnd.
  apply NoDup_cons in Hnd as [Hn _]. apply Hn. left.
Qed.

Lemma duplicate_dependency_is_refused_witness :
  program_closed program = true ∧
  find_class program (__name__ D) = Some D ∧
  needed program D "D" ∧ ¬ NoDup (class_deps program "D") ∧
  ∃ u' v pre post,
    (configure program (clock start) D false true 3 1 new_DoJobber).2
    = CfgError (AdditionError u' v) ∧
    needed program D u' ∧
    class_deps program u' = pre ++ v :: post ∧ NoDup pre ∧ v ∈ pre.
Proof.
  assert (program_closed program = true) as H1 by (vm_compute; reflexivity).
  assert (find_class program (__name__ D) = Some D) as H2 by reflexivity.
  assert (needed program D "D") as H3 by apply rtc_refl.
  split; [exact H1|]. split; [exact H2|]. split; [exact H3|].
  split; [exact D_lists_A_twice|].
  exact (duplicate_dependency_is_refused program D (clock start) 3 1
           false true "D" H1 H2 needed_by_D_in_order H3 D_lists_A_twice).
Defined.

(** Two runs of [R2]: [F] has two tries and fails both in the first run;
    the second run cannot attempt it. *)
Lemma tries_are_spent_for_good_witness :
  let s := ready R2 false true in
  let r := {| tries := 2; retry_delay := 1; nexttry := 100;
              lastphase := (-1) |} in
  retry_sane (dj s) = true ∧
  odict.get "F" (_retry (dj s)) = Some r ∧
  ∃ r1 r2,
    odict.get "F" (_retry (dj (checknrun 5 None s).1)) = Some r1 ∧
    odict.get "F" (_retry (dj (begin_run (checknrun 5 None s).1))) = Some r1 ∧
    odict.get "F" (_retry (dj (checknrun 5 None (checknrun 5 None s).1).1))
    = Some r2 ∧
    (tries r1
     = tries r
       - Z.of_nat (attempts_of "F" (since s (checknrun 5 None s).1)))%Z ∧
    (tries r2
     = tries r1
       - Z.of_nat (attempts_of "F"
                     (since (checknrun 5 None s).1
                            (checknrun 5 None (checknrun 5 None s).1).1)))%Z ∧
    (Z.of_nat (attempts_of "F" (since s (checknrun 5 None s).1)
               + attempts_of "F"
                   (since (checknrun 5 None s).1
                          (checknrun 5 None (checknrun 5 None s).1).1))
     ≤ tries r)%Z.
Proof.
  intros s r.
  assert (retry_sane (dj s) = true) as H1 by (vm_compute; reflexivity).
  assert (odict.get "F" (_retry (dj s)) = Some r) as H2
    by (vm_compute; reflexivity).
  split; [exact H1|]. split; [exact H2|].
  exact (tries_are_spent_for_good 5 None 5 None s "F" r H1 H2).
Defined.

(** An engine that was never configured has no root and no node. *)
Lemma run_without_target_raises_witness :
  let s := unconfigured in
  5 ≠ 0 ∧ _root (dj s) = None ∧ ("A" ∉ pygraph.nodes (graph (dj s))) ∧
  (∀ n, n ≠ "" → n ∉ pygraph.nodes (graph (dj s)) →
        checknrun 5 (Some n) s = (begin_run s, Raise (KeyError n))) ∧
  (_root (dj s) = None →
   checknrun 5 None s = (begin_run s, Raise (AttributeError "__name__")) ∧
   checknrun 5 (Some "") s
   = (begin_run s, Raise (AttributeError "__name__"))) ∧
  checknrun 5 (Some "") s = checknrun 5 None s.
Proof.
  intros s. assert (5 ≠ 0) as H by discriminate.
  split; [exact H|]. split; [reflexivity|].
  split; [apply not_elem_of_nil|].
  exact (run_without_target_raises 5 s H).
Defined.

Lemma cleanup_disabled_calls_no_cleanup_witness :
  let s := ready R false false in
  _cleanup (dj s) = false ∧
  checknrun 5 None s = (checknrun_loop 5 None 0 (begin_run s)).1 ∧
  ∀ id ty ok, EvCleanup id ty ok ∉ since s (checknrun 5 None s).1.
Proof.
  intros s.
  assert (_cleanup (dj s) = false) as H by (vm_compute; reflexivity).
  split; [exact H|]. exact (cleanup_disabled_calls_no_cleanup 5 None s H).
Defined.

(** In the graph of [R2] the node [F] has no successors. *)
Lemma F_does_not_reach_A :
  ¬ reach (graph (dj (ready R2 false true))) "F" "A".
Proof.
  intros Hr. inversion Hr as [|? z ? Hedge _]; subst.
  apply list_elem_of_In in Hedge. vm_compute in Hedge. done.
Qed.

(** A run of the engine of [R2] aimed at [F] alone: [F] fails, and the list
    of retriable jobs is then computed over the records of [R2] and [A]
    too, which have no status. *)
Lemma run_of_a_part_raises_KeyError_witness :
  let s := ready R2 false true in
  engine_ok (dj s) = true ∧ target (dj s) (Some "F") = Some "F" ∧
  "F" ∈ pygraph.nodes (graph (dj s)) ∧ 5 ≠ 0 ∧
  "A" ∈ odict.keys (_retry (dj s)) ∧ ¬ reach (graph (dj s)) "F" "A" ∧
  (success (dj (checknrun 5 (Some "F") s).1) = true ∨
   ∃ k, (checknrun 5 (Some "F") s).2 = Raise (KeyError k) ∧
        k ∈ odict.keys (_retry (dj s)) ∧ ¬ reach (graph (dj s)) "F" k ∧
        _run_phase (dj (checknrun 5 (Some "F") s).1)
        = (_run_phase (dj s) + 1)%Z ∧
        ∀ id ty ok,
          EvCleanup id ty ok ∉ since s (checknrun 5 (Some "F") s).1).
Proof.
  intros s.
  assert (engine_ok (dj s) = true) as H1 by (vm_compute; reflexivity).
  assert (target (dj s) (Some "F") = Some "F") as H2 by reflexivity.
  assert ("F" ∈ pygraph.nodes (graph (dj s))) as H3
    by (apply list_elem_of_In; vm_compute; tauto).
  assert (5 ≠ 0) as H4 by discriminate.
  assert ("A" ∈ odict.keys (_retry (dj s))) as H5
    by (apply list_elem_of_In; vm_compute; tauto).
  repeat (split; [assumption|]). split; [exact F_does_not_reach_A|].
  exact (run_of_a_part_raises_KeyError 5 (Some "F") s "F" "A" H1 H2 H3 H4 H5
           F_does_not_reach_A).
Defined.

Lemma runonly_job_runs_once_witness :
  let run := λ (_ : @Job string string) (e : @Env World),
               (reach_goal "X" e, @Returns string string "done") in
  let s := runonly_state in
  let obj :=
    set_check_exception "Runonly node check intentionally fails first time."
      (set_check_phase "check" (new_job (length (_objsrun (dj s))) "X")) in
  odict.get "X" (_classmap (dj s)) = Some (RunonlyJob "X" [] run) ∧
  if _no_act (dj s) then
    since s (run_job "X" s) = [EvInit "X" true; EvCheck "X" "check" false] ∧
    status_of (dj (run_job "X" s)) "X" = failed ∧
    env (run_job "X" s) = env s
  else
    since s (run_job "X" s)
    = [EvInit "X" true; EvCheck "X" "check" false;
       EvRun "X" (passed (run obj (env s)).2);
       EvCheck "X" "recheck" (passed (run obj (env s)).2)] ∧
    env (run_job "X" s) = (run obj (env s)).1 ∧
    match (run obj (env s)).2 with
    | Returns v =>
        status_of (dj (run_job "X" s)) "X" = eventually_succeeded ∧
        noderesults (dj (run_job "X" s)) !! "X" = Some v
    | Raises err =>
        status_of (dj (run_job "X" s)) "X" = failed ∧
        nodeexceptions (dj (run_job "X" s)) !! "X" = Some (JobError err)
    end.
Proof.
  intros run s obj.
  assert (odict.get "X" (_classmap (dj s)) = Some (RunonlyJob "X" [] run))
    as H by reflexivity.
  split; [exact H|].
  exact (runonly_job_runs_once "X" "X" [] run s H).
Defined.

Lemma dummy_job_succeeds_at_once_witness :
  let s := ready R false true in
  odict.get "R" (_classmap (dj s)) = Some (DummyJob "R" ["A"; "B"]) ∧
  since s (run_job "R" s) = [EvInit "R" true; EvCheck "R" "check" true] ∧
  status_of (dj (run_job "R" s)) "R" = succeeded ∧
  status_true (dj (run_job "R" s)) "R" = true ∧
  env (run_job "R" s) = env s.
Proof.
  intros s.
  assert (odict.get "R" (_classmap (dj s)) = Some (DummyJob "R" ["A"; "B"]))
    as H by (vm_compute; reflexivity).
  split; [exact H|].
  exact (dummy_job_succeeds_at_once "R" "R" ["A"; "B"] s H).
Defined.

Lemma failed_constructor_fails_the_node_witness :
  let s := broken_state in
  odict.get "Broken" (_classmap (dj s)) = Some Broken ∧
  (__init__ Broken (env s)).2 = Some "no such host" ∧
  since s (run_job "Broken" s) = [EvInit "Broken" false] ∧
  status_of (dj (run_job "Broken" s)) "Broken" = failed ∧
  nodeexceptions (dj (run_job "Broken" s)) !! "Broken"
  = Some (JobError "no such host") ∧
  _objsrun (dj (run_job "Broken" s)) = _objsrun (dj s) ∧
  env (run_job "Broken" s) = (__init__ Broken (env s)).1.
Proof.
  intros s.
  assert (odict.get "Broken" (_classmap (dj s)) = Some Broken) as H1
    by reflexivity.
  assert ((__init__ Broken (env s)).2 = Some "no such host") as H2
    by reflexivity.
  split; [exact H1|]. split; [exact H2|].
  exact (failed_constructor_fails_the_node "Broken" Broken "no such host" s
           H1 H2).
Defined.

(** An attempt of [A], whose goal is not reached at the start: the first
    [Check] raises, [Run] reaches the goal, the second [Check] passes. *)
Lemma three_phase_protocol_witness :
  let s := ready R false true in
  odict.get "A" (_classmap (dj s)) = Some A ∧
  (__init__ A (env s)).2 = None ∧
  let s' := run_job "A" s in
  (status_of (dj s') "A" = succeeded ↔ passed (first_check A s).2 = true) ∧
  (status_of (dj s') "A" = eventually_succeeded
   ↔ passed (first_check A s).2 = false ∧ _no_act (dj s) = false ∧
     passed (recheck A s).2 = true) ∧
  (passed (first_check A s).2 = true →
     since s s' = [EvInit "A" true; EvCheck "A" "check" true] ∧
     env s' = (first_check A s).1 ∧
     recorded (first_check A s).2 "A" (dj s')) ∧
  (passed (first_check A s).2 = false → _no_act (dj s) = false →
     since s s'
     = [EvInit "A" true; EvCheck "A" "check" false;
        EvRun "A" (passed (the_run A s).2);
        EvCheck "A" "recheck" (passed (recheck A s).2)] ∧
     env s' = (recheck A s).1 ∧
     status_of (dj s') "A"
     = (if passed (recheck A s).2 then eventually_succeeded else failed) ∧
     recorded (recheck A s).2 "A" (dj s')).
Proof.
  intros s.
  assert (odict.get "A" (_classmap (dj s)) = Some A) as H1
    by (vm_compute; reflexivity).
  assert ((__init__ A (env s)).2 = None) as H2 by (vm_compute; reflexivity).
  split; [exact H1|]. split; [exact H2|].
  exact (three_phase_protocol "A" s A H1 H2).
Defined.


(** C4 does not hold as stated.  [D] lists [A] twice in its [DEPS]: none of
    the failures the claim lists is there, and [configure] fails all the
    same, with the error of the graph library for the second edge. *)
Lemma repeated_dependency_fails_configure :
  ¬ claimed_failure program D 3 1 ∧
  (configure program (clock start) D false true 3 1 new_DoJobber).2
  = CfgError (AdditionError "D" "A").
Proof.
  split; [|vm_compute; reflexivity].
  intros [(n & c & Hn & Hc & Hbad)|(n & m & Hn & Hnm & Hmn)].
  - destruct (needed_by_D_in_order n c Hn Hc) as (Ht & Hd & [ds Hds]).
    destruct Hbad as [?|[?|?]]; [lia|lia|congruence].
  - destruct (needed_by_D n Hn) as [Hn'|Hn']; subst n; unfold depends in Hnm.
    + change (m ∈ ["A"; "A"]) in Hnm.
      assert (m = "A") as ->.
      { apply elem_of_cons in Hnm as [->|Hnm]; [done|].
        by apply list_elem_of_singleton in Hnm. }
      inversion Hmn as [|? y ? Hy _]; subst.
      unfold depends in Hy. change (y ∈ []) in Hy. by apply elem_of_nil in Hy.
    + change (m ∈ []) in Hnm. by apply elem_of_nil in Hnm.
Qed.

(** [C1] and [C2] depend on each other: [configure] names the cycle. *)
Lemma configuration_fails_exactly_when_witness :
  program_closed program = true ∧
  find_class program (__name__ C1) = Some C1 ∧
  ((∃ e, (configure program (clock start) C1 false true 3 1 new_DoJobber).2
         = CfgError e)
   ↔ claimed_failure program C1 3 1 ∨ repeated_dependency program C1) ∧
  ((configure program (clock start) C1 false true 3 1 new_DoJobber).2 = CfgOk
   ↔ ¬ (claimed_failure program C1 3 1 ∨ repeated_dependency program C1)) ∧
  (∀ cycle,
     (configure program (clock start) C1 false true 3 1 new_DoJobber).2
     = CfgError (GraphCycle cycle) →
     cycle_in (depends program) cycle ∧
     ∀ x, x ∈ cycle → needed program C1 x) ∧
  (∀ fuel node (s : @State World string string),
     pygraph.node_neighbors (graph (dj (checknrun fuel node s).1))
     = pygraph.node_neighbors (graph (dj s))).
Proof.
  assert (program_closed program = true) as H1 by (vm_compute; reflexivity).
  assert (find_class program (__name__ C1) = Some C1) as H2 by reflexivity.
  split; [exact H1|]. split; [exact H2|].
  exact (configuration_fails_exactly_when program C1 (clock start) 3 1
           false true H1 H2).
Defined.

(** [F] is needed by [R2] and has [TRIES = 2]: its record is written by
    [configure], and two runs take its tries from that one record. *)
Lemma retry_records_live_with_the_engine_witness :
  let s := {| dj := (configure program (clock start) R2 false true 3 1
                               new_DoJobber).1;
              env := start; calls := [] |} in
  program_closed program = true ∧
  find_class program (__name__ R2) = Some R2 ∧
  (configure program (clock start) R2 false true 3 1 new_DoJobber).2 = CfgOk ∧
  needed program R2 "F" ∧ find_class program "F" = Some F ∧
  dj s = (configure program (clock start) R2 false true 3 1 new_DoJobber).1 ∧
  odict.get "F" (_retry (dj s)) = Some (fresh_retry (clock start) 3 1 F) ∧
  max_tries (dj s) "F" = Some (default 3%Z (TRIES F)) ∧
  ∃ r1 r2,
    odict.get "F" (_retry (dj (checknrun 5 None s).1)) = Some r1 ∧
    odict.get "F" (_retry (dj (begin_run (checknrun 5 None s).1))) = Some r1 ∧
    _run_phase (dj (begin_run (checknrun 5 None s).1))
    = _run_phase (dj (checknrun 5 None s).1) ∧
    odict.get "F" (_retry (dj (checknrun 5 None (checknrun 5 None s).1).1))
    = Some r2 ∧
    (tries r1
     = default 3%Z (TRIES F)
       - Z.of_nat (attempts_of "F" (since s (checknrun 5 None s).1)))%Z ∧
    (tries r2
     = tries r1
       - Z.of_nat (attempts_of "F"
                     (since (checknrun 5 None s).1
                            (checknrun 5 None (checknrun 5 None s).1).1)))%Z ∧
    (0 ≤ tries r2)%Z.
Proof.
  intros s.
  assert (program_closed program = true) as H1 by (vm_compute; reflexivity).
  assert (find_class program (__name__ R2) = Some R2) as H2 by reflexivity.
  assert ((configure program (clock start) R2 false true 3 1 new_DoJobber).2
          = CfgOk) as H3 by (vm_compute; reflexivity).
  assert (needed program R2 "F") as H4.
  { apply rtc_once. unfold depends. apply list_elem_of_In. vm_compute. tauto. }
  assert (find_class program "F" = Some F) as H5 by reflexivity.
  assert (dj s
          = (configure program (clock start) R2 false true 3 1 new_DoJobber).1)
    as H6 by reflexivity.
  repeat (split; [assumption|]).
  exact (retry_records_live_with_the_engine program R2 (clock start) 3 1
           false true "F" F 5 None 5 None s H1 H2 H3 H4 H5 H6).
Defined.

End Witnesses.
